(** * Price tracker: crawl / extract / diff / insight pipeline

    A shallow embedding of the TypeScript sources of the crawl core
    (normalizer, extractor, canonicalizer, diff engine, entitlements,
    insight builder, batch runner, scheduler entrypoint and the
    interactive crawl triggers) together with the properties the
    specification states about them.

    Conventions.  An ECMAScript string is the list of its UTF-16 code
    units ([jsstring]); an ECMAScript number is an IEEE 754 binary64
    value ([float], the kernel's primitive floats); a [Date] is its
    time value in milliseconds ([Z]); [undefined] and [null] on an
    optional field are [None]. *)

From Stdlib Require Import ZArith NArith List Bool Lia String Ascii Floats.
From Stdlib Require Uint63.
Import ListNotations.

Set Warnings "-inexact-float".

(* ================================================================= *)
(** * Part I.  The model *)
(* ================================================================= *)

(** ** ECMAScript strings *)

Module JS.

Definition jsstring := list N.

(** A string literal of the source, as code units. *)
Definition str (s : string) : jsstring :=
  map N_of_ascii (list_ascii_of_string s).

Fixpoint eqb (a b : jsstring) : bool :=
  match a, b with
  | [], [] => true
  | x :: a', y :: b' => N.eqb x y && eqb a' b'
  | _, _ => false
  end.

(** [ToBoolean] on a string: the empty string is the only falsy one. *)
Definition truthy (s : jsstring) : bool :=
  match s with [] => false | _ :: _ => true end.

(** [ToBoolean] on [string | null | undefined]. *)
Definition truthy_opt (s : option jsstring) : bool :=
  match s with None => false | Some v => truthy v end.

(** WhiteSpace and LineTerminator code points: what [trim] strips and
    what the pattern class [\s] accepts. *)
Definition isWhiteSpace (c : N) : bool :=
  existsb (N.eqb c)
    [9; 10; 11; 12; 13; 32; 160; 5760; 8232; 8233; 8239; 8287; 12288; 65279]%N
  || ((8192 <=? c) && (c <=? 8202))%N.

Fixpoint trimStart (s : jsstring) : jsstring :=
  match s with
  | c :: s' => if isWhiteSpace c then trimStart s' else s
  | [] => []
  end.

Definition trimEnd (s : jsstring) : jsstring := rev (trimStart (rev s)).

Definition trim (s : jsstring) : jsstring := trimEnd (trimStart s).

(** Case mappings.  They are exact on Basic Latin and Latin-1; code
    units above U+00FF are left as they are. *)
Definition lowerUnit (c : N) : N :=
  if ((65 <=? c) && (c <=? 90))%N then (c + 32)%N
  else if ((192 <=? c) && (c <=? 222) && negb (c =? 215))%N then (c + 32)%N
  else c.

Definition toLowerCase (s : jsstring) : jsstring := map lowerUnit s.

Definition upperUnit (c : N) : jsstring :=
  if ((97 <=? c) && (c <=? 122))%N then [(c - 32)%N]
  else if ((224 <=? c) && (c <=? 254) && negb (c =? 247))%N then [(c - 32)%N]
  else if (c =? 223)%N then [83; 83]%N
  else if (c =? 255)%N then [376]%N
  else if (c =? 181)%N then [924]%N
  else [c].

Definition toUpperCase (s : jsstring) : jsstring := flat_map upperUnit s.

(** [s.split(sep)] for a separator of one code unit: the pieces between
    the occurrences, at least one piece. *)
Fixpoint split_unit (sep : N) (s : jsstring) : list jsstring :=
  match s with
  | [] => [[]]
  | c :: s' =>
      let rest := split_unit sep s' in
      if N.eqb c sep then [] :: rest
      else match rest with
           | piece :: more => (c :: piece) :: more
           | [] => [[c]]
           end
  end.

Fixpoint startsWith (s prefix : jsstring) : bool :=
  match prefix, s with
  | [], _ => true
  | p :: prefix', c :: s' => N.eqb p c && startsWith s' prefix'
  | _ :: _, [] => false
  end.

Fixpoint includes (s needle : jsstring) : bool :=
  startsWith s needle ||
  match s with
  | [] => false
  | _ :: s' => includes s' needle
  end.

Definition endsWith (s suffix : jsstring) : bool :=
  startsWith (rev s) (rev suffix).

Fixpoint join (sep : jsstring) (items : list jsstring) : jsstring :=
  match items with
  | [] => []
  | [x] => x
  | x :: rest => x ++ sep ++ join sep rest
  end.

(** The JSON values a route handler answers with. *)
Inductive Json : Type :=
| JNull
| JBool (b : bool)
| JInt (z : Z)
| JString (s : jsstring)
| JDate (t : Z).

(** A response: its status and the fields of its JSON object body. *)
Record NextResponse : Type := mkResponse {
  status : Z;
  body : list (string * Json);
  responseHeaders : list (string * jsstring)
}.

(** [NextResponse.json(body, { status })]; the status defaults to 200. *)
Definition json_response (b : list (string * Json)) (st : Z) : NextResponse :=
  mkResponse st b [].

Fixpoint field (name : string) (fields : list (string * Json)) : option Json :=
  match fields with
  | [] => None
  | (k, v) :: rest => if String.eqb k name then Some v else field name rest
  end.

Definition body_field (name : string) (r : NextResponse) : option Json :=
  field name (body r).

End JS.

Import JS.

(** ** libs/cron-auth.ts and the scheduler entrypoint's gate *)

Module CronAuth.

(** The part of a [NextRequest] the gate reads: [request.headers.get]. *)
Record NextRequest : Type := mkRequest {
  headers_get : string -> option jsstring
}.

Definition getBearerToken (authorizationHeader : option jsstring) : option jsstring :=
  match authorizationHeader with
  | None => None
  | Some header =>
      if negb (truthy header) then None
      else
        let parts := split_unit 32 header in
        let scheme := nth_error parts 0 in
        let token := nth_error parts 1 in
        if negb (match scheme with
                 | Some s => eqb (toLowerCase s) (str "bearer")
                 | None => false
                 end)
           || negb (truthy_opt token)
        then None
        else option_map trim token
  end.

(** [headerSecret === expectedSecret] with [headerSecret : string | undefined]
    or [string | null]. *)
Definition strict_eq (a : option jsstring) (b : jsstring) : bool :=
  match a with
  | Some v => eqb v b
  | None => false
  end.

(** [CRON_SECRET] is [process.env.CRON_SECRET]. *)
Definition isCronAuthorized (CRON_SECRET : option jsstring) (request : NextRequest) : bool :=
  let expectedSecret := option_map trim CRON_SECRET in
  match expectedSecret with
  | None => false
  | Some expected =>
      if negb (truthy expected) then false
      else
        let headerSecret := option_map trim (headers_get request "x-cron-secret") in
        let bearerSecret := getBearerToken (headers_get request "authorization") in
        strict_eq headerSecret expected || strict_eq bearerSecret expected
  end.

Definition unauthorized : NextResponse :=
  json_response [("error"%string, JString (str "Unauthorized"))] 401.

Definition requireCronAuth (CRON_SECRET : option jsstring) (request : NextRequest)
  : option NextResponse :=
  if negb (isCronAuthorized CRON_SECRET request) then Some unauthorized else None.

(** [handle] of app/api/cron/crawl/route.ts (the digest route opens the
    same way).  [run] stands for everything behind the gate: connecting
    to the store, taking the invocation lock and running the batch. *)
Definition handle (CRON_SECRET : option jsstring) (run : NextRequest -> NextResponse)
  (request : NextRequest) : NextResponse :=
  match requireCronAuth CRON_SECRET request with
  | Some unauthorizedResponse => unauthorizedResponse
  | None => run request
  end.

End CronAuth.

(** ** models/Company.ts *)

Module Models.

Definition ObjectId := N.

Inductive CompanyType := self | competitor.

Inductive CompanyCrawlStatus := idle | ok | blocked | manual_needed | error.

Record PricingUrlCandidate : Type := mkCandidate {
  url : jsstring;
  confidence : float;
  selectedByUser : bool
}.

Record Company : Type := mkCompany {
  _id : ObjectId;
  userId : ObjectId;
  companyType : CompanyType;
  domain : jsstring;
  homepageUrl : option jsstring;
  primaryPricingUrl : option jsstring;
  pricingUrlCandidates : list PricingUrlCandidate;
  nextCrawlAt : option Z;
  crawlLeaseUntil : option Z;
  lastCrawlAt : option Z;
  lastCrawlStatus : CompanyCrawlStatus;
  lastCrawlError : option jsstring;
  latestContentHash : option jsstring;
  latestConfidence : option float
}.

Definition CompanyType_eqb (a b : CompanyType) : bool :=
  match a, b with
  | self, self | competitor, competitor => true
  | _, _ => false
  end.

End Models.

Import Models.


(** ** ECMAScript numbers *)

Module Num.

Import PrimFloat.
Local Open Scope Z_scope.

(** The binary64 value nearest to the positive rational [a / b], ties to
    even: the quotient is taken with 64 bits beyond the denominator and
    rounded once, with the position of the remainder. *)
Definition roundQ (a b : Z) : float :=
  if a =? 0 then zero
  else
    let k := 64 + Z.log2_up b in
    let q := (a * 2 ^ k) / b in
    let r := (a * 2 ^ k) mod b in
    let loc := if r =? 0 then loc_Exact else loc_Inexact (Z.compare (2 * r) b) in
    SF2Prim (binary_round_aux prec emax false q (- k) loc).

(** [x.toFixed(2)] for a finite [x] below 10^21 in magnitude: the sign
    printed and the integer [n] with [n / 100] nearest to [|x|], the
    larger [n] on a tie.  [None] where [toFixed] falls back to
    [ToString] (NaN, the infinities, 10^21 and above). *)
Definition fixed2 (x : float) : option (bool * Z) :=
  match Prim2SF x with
  | S754_zero _ => Some (false, 0)
  | S754_finite s m e =>
      let n := if 0 <=? e then Zpos m * 2 ^ e * 100
               else (Zpos m * 200 + 2 ^ (- e)) / 2 ^ (- e + 1) in
      if 10 ^ 23 <=? n then None else Some (s, n)
  | _ => None
  end.

(** [Number(x.toFixed(2))]. *)
Definition toFixed2 (x : float) : float :=
  match fixed2 x with
  | Some (s, n) => let r := roundQ n 100 in if s then (- r)%float else r
  | None => x
  end.

(** The text of [x.toFixed(2)], up to the spelling of the digits: two
    numbers print alike exactly when their [FixedText]s are equal. *)
Inductive FixedText : Type :=
| Decimal (negative : bool) (hundredths : Z)
| Verbatim (x : spec_float).

Definition toFixed2Text (x : float) : FixedText :=
  match fixed2 x with
  | Some (s, n) => Decimal s n
  | None => Verbatim (Prim2SF x)
  end.

Definition spec_float_eqb (x y : spec_float) : bool :=
  match x, y with
  | S754_zero s, S754_zero t => Bool.eqb s t
  | S754_infinity s, S754_infinity t => Bool.eqb s t
  | S754_nan, S754_nan => true
  | S754_finite s m e, S754_finite t n f => Bool.eqb s t && Pos.eqb m n && Z.eqb e f
  | _, _ => false
  end.

Definition FixedText_eqb (a b : FixedText) : bool :=
  match a, b with
  | Decimal s n, Decimal t m => Bool.eqb s t && Z.eqb n m
  | Verbatim x, Verbatim y => spec_float_eqb x y
  | _, _ => false
  end.

(** [Math.max(a, b)]. *)
Definition mathMax (a b : float) : float :=
  if is_nan a || is_nan b then nan
  else if (a <? b)%float then b
  else if (b <? a)%float then a
  else if is_zero a && get_sign a then b
  else a.

(** [Math.min(a, b)]. *)
Definition mathMin (a b : float) : float :=
  if is_nan a || is_nan b then nan
  else if (a <? b)%float then a
  else if (b <? a)%float then b
  else if is_zero a && get_sign a then a
  else b.

(** [a >= b], [a > b] and [a !== b] on numbers. *)
Definition geb (a b : float) : bool := (b <=? a)%float.
Definition gtb (a b : float) : bool := (b <? a)%float.
Definition neqb (a b : float) : bool := negb (a =? b)%float.

(** The order a comparator's numeric result asks of [Array.prototype.sort]:
    negative puts the first argument first, NaN counts as zero. *)
Definition sign (x : float) : comparison :=
  if (x <? 0)%float then Lt else if (0 <? x)%float then Gt else Eq.

(** [Number.isFinite]. *)
Definition isFinite (x : float) : bool := negb (is_nan x) && negb (is_infinity x).

(** [Array.prototype.sort(comparator)] for a consistent comparator: the
    stable ordering. *)
Fixpoint insertSorted {A : Type} (cmp : A -> A -> comparison) (x : A) (l : list A) : list A :=
  match l with
  | [] => [x]
  | y :: l' =>
      match cmp x y with
      | Gt => y :: insertSorted cmp x l'
      | _ => x :: l
      end
  end.

Definition sort {A : Type} (cmp : A -> A -> comparison) (l : list A) : list A :=
  fold_right (insertSorted cmp) [] l.

End Num.

(** [a.localeCompare(b)].  The collation of the host locale is not part
    of the repository; it is modelled by the lexicographic order on code
    units. *)
Fixpoint localeCompare (a b : jsstring) : comparison :=
  match a, b with
  | [], [] => Eq
  | [], _ :: _ => Lt
  | _ :: _, [] => Gt
  | x :: a', y :: b' =>
      match N.compare x y with
      | Eq => localeCompare a' b'
      | c => c
      end
  end.

(** [new Set(items)] spread back into an array: first occurrences, in order. *)
Fixpoint dedupe {A : Type} (eq : A -> A -> bool) (seen : list A) (items : list A) : list A :=
  match items with
  | [] => []
  | x :: rest =>
      if existsb (eq x) seen then dedupe eq seen rest
      else x :: dedupe eq (x :: seen) rest
  end.

(** ** libs/crawler/normalize.ts: payloads and the canonicalizer *)

Module Normalize.

Inductive PricePeriod := day | week | month | year | one_time | unknown.

(** The string a [PricePeriod] is at run time. *)
Definition periodName (p : PricePeriod) : jsstring :=
  match p with
  | day => str "day"
  | week => str "week"
  | month => str "month"
  | year => str "year"
  | one_time => str "one_time"
  | unknown => str "unknown"
  end.

Definition PricePeriod_eqb (a b : PricePeriod) : bool :=
  match a, b with
  | day, day | week, week | month, month | year, year
  | one_time, one_time | unknown, unknown => true
  | _, _ => false
  end.

Record NormalizedPricePoint : Type := mkPrice {
  amount : float;
  currency : jsstring;
  period : PricePeriod
}.

Record NormalizedPricingPayload : Type := mkPayload {
  sourceUrl : jsstring;
  pageTitle : option jsstring;
  pageDescription : option jsstring;
  planNames : list jsstring;
  priceMentions : list NormalizedPricePoint;
  customPricingHints : list jsstring
}.

(** [value.replace(/\s+/g, " ")]: every maximal run of white space
    becomes one space. *)
Fixpoint collapseWhitespace (afterSpace : bool) (value : jsstring) : jsstring :=
  match value with
  | [] => []
  | c :: rest =>
      if isWhiteSpace c then
        if afterSpace then collapseWhitespace true rest
        else 32%N :: collapseWhitespace true rest
      else c :: collapseWhitespace false rest
  end.

Definition normalizeWhitespace (value : jsstring) : jsstring :=
  trim (collapseWhitespace false value).

Definition uniqueStrings (items : list jsstring) : list jsstring :=
  Num.sort localeCompare
    (filter truthy
       (dedupe JS.eqb [] (map (fun item => toLowerCase (normalizeWhitespace item)) items))).

(** The key of [keyToPrice]: the template
    [`${currency}|${period}|${roundedAmount.toFixed(2)}`].  Neither a
    period nor the digits contain a bar, so two keys are equal exactly
    when their three parts are. *)
Definition PriceKey : Type := jsstring * PricePeriod * Num.FixedText.

Definition PriceKey_eqb (a b : PriceKey) : bool :=
  let '(c1, p1, t1) := a in
  let '(c2, p2, t2) := b in
  JS.eqb c1 c2 && PricePeriod_eqb p1 p2 && Num.FixedText_eqb t1 t2.

Definition comparePrices (a b : NormalizedPricePoint) : comparison :=
  if negb (JS.eqb (currency a) (currency b)) then localeCompare (currency a) (currency b)
  else if negb (PricePeriod_eqb (period a) (period b))
       then localeCompare (periodName (period a)) (periodName (period b))
  else Num.sign (amount a - amount b)%float.

(** [keyToPrice] is a [Map]: an association list in insertion order. *)
Definition uniquePrices (prices : list NormalizedPricePoint) : list NormalizedPricePoint :=
  let keyToPrice :=
    fold_left
      (fun (keyToPrice : list (PriceKey * NormalizedPricePoint)) price =>
         let roundedAmount := Num.toFixed2 (amount price) in
         let key := (currency price, period price, Num.toFixed2Text roundedAmount) in
         if existsb (fun entry => PriceKey_eqb (fst entry) key) keyToPrice
         then keyToPrice
         else keyToPrice
                ++ [(key, mkPrice roundedAmount (toUpperCase (currency price)) (period price))])
      prices [] in
  Num.sort comparePrices (map snd keyToPrice).

(** [text ? normalizeWhitespace(text) : null]. *)
Definition normalizeOptionalText (text : option jsstring) : option jsstring :=
  match text with
  | Some t => if truthy t then Some (normalizeWhitespace t) else None
  | None => None
  end.

Definition canonicalizePricingPayload (payload : NormalizedPricingPayload)
  : NormalizedPricingPayload :=
  mkPayload
    (sourceUrl payload)
    (normalizeOptionalText (pageTitle payload))
    (normalizeOptionalText (pageDescription payload))
    (uniqueStrings (planNames payload))
    (uniquePrices (priceMentions payload))
    (uniqueStrings (customPricingHints payload)).

End Normalize.

(** ** libs/crawler/diff.ts: the diff engine *)

Module Diff.

Import Normalize.

Inductive DiffSeverity := low | medium | high.
Inductive DiffVerificationState := verified | unverified.

Record UpdatedAmount : Type := mkUpdated {
  previousAmount : float;
  currentAmount : float;
  deltaPercent : float
}.

(** [period] is the second piece of the bucket key, [undefined] when the
    key holds no bar. *)
Record PriceBucketChange : Type := mkBucketChange {
  bucketCurrency : jsstring;
  bucketPeriod : option jsstring;
  addedAmounts : list float;
  removedAmounts : list float;
  updatedAmounts : list UpdatedAmount
}.

Record NormalizedDiff : Type := mkNormalizedDiff {
  priceChanges : list PriceBucketChange;
  addedHints : list jsstring;
  removedHints : list jsstring;
  previousPriceCount : nat;
  currentPriceCount : nat;
  previousPlanCount : nat;
  currentPlanCount : nat;
  changedAt : Z
}.

Record PricingDiffResult : Type := mkDiffResult {
  normalizedDiff : NormalizedDiff;
  severity : DiffSeverity;
  verificationState : DiffVerificationState
}.

Definition PERIOD_ORDER (p : jsstring) : option Z :=
  if JS.eqb p (str "day") then Some 1%Z
  else if JS.eqb p (str "week") then Some 2%Z
  else if JS.eqb p (str "month") then Some 3%Z
  else if JS.eqb p (str "year") then Some 4%Z
  else if JS.eqb p (str "one_time") then Some 5%Z
  else if JS.eqb p (str "unknown") then Some 6%Z
  else None.

(** A [Map<string, number[]>], in insertion order. *)
Definition BucketMap : Type := list (jsstring * list float).

Fixpoint bucket_get (key : jsstring) (buckets : BucketMap) : option (list float) :=
  match buckets with
  | [] => None
  | (k, v) :: rest => if JS.eqb k key then Some v else bucket_get key rest
  end.

Fixpoint bucket_set (key : jsstring) (value : list float) (buckets : BucketMap) : BucketMap :=
  match buckets with
  | [] => [(key, value)]
  | (k, v) :: rest =>
      if JS.eqb k key then (k, value) :: rest else (k, v) :: bucket_set key value rest
  end.

Definition compareNumbers (a b : float) : comparison := Num.sign (a - b)%float.

Definition toBucketMap (payload : NormalizedPricingPayload) : BucketMap :=
  fold_left
    (fun buckets price =>
       let key := toUpperCase (currency price) ++ str "|" ++ periodName (period price) in
       let next := match bucket_get key buckets with Some v => v | None => [] end in
       let next := Num.sort compareNumbers (next ++ [Num.toFixed2 (amount price)]) in
       bucket_set key next buckets)
    (priceMentions payload) [].

Definition toCustomHintSet (payload : NormalizedPricingPayload) : list jsstring :=
  dedupe JS.eqb [] (customPricingHints payload).

(** The three arrays the loop of [createBucketChange] fills. *)
Record BucketArrays : Type := mkArrays {
  added : list float;
  removed : list float;
  updated : list UpdatedAmount
}.

(** The thresholds of the loop body: an absolute move of at least 0.5
    and a relative move of at least 1 percent. *)
Definition absoluteDelta (previousAmount currentAmount : float) : float :=
  PrimFloat.abs (currentAmount - previousAmount).

Definition rawDeltaPercent (previousAmount currentAmount : float) : float :=
  if (0 <? previousAmount)%float
  then (absoluteDelta previousAmount currentAmount / previousAmount * 100)%float
  else 100%float.

Definition significant (previousAmount currentAmount : float) : bool :=
  Num.geb (absoluteDelta previousAmount currentAmount) 0.5
  && Num.geb (rawDeltaPercent previousAmount currentAmount) 1.

(** One turn of the loop at [index]. *)
Definition bucketStep (previousAmounts currentAmounts : list float)
  (arrays : BucketArrays) (index : nat) : BucketArrays :=
  match nth_error previousAmounts index, nth_error currentAmounts index with
  | Some previousAmount, Some currentAmount =>
      if significant previousAmount currentAmount
      then mkArrays (added arrays) (removed arrays)
             (updated arrays
                ++ [mkUpdated previousAmount currentAmount
                      (Num.toFixed2 (rawDeltaPercent previousAmount currentAmount))])
      else arrays
  | Some previousAmount, None =>
      mkArrays (added arrays) (removed arrays ++ [previousAmount]) (updated arrays)
  | None, Some currentAmount =>
      mkArrays (added arrays ++ [currentAmount]) (removed arrays) (updated arrays)
  | None, None => arrays
  end.

Definition bucketLoop (previousAmounts currentAmounts : list float) : BucketArrays :=
  let maxLen := Nat.max (List.length previousAmounts) (List.length currentAmounts) in
  fold_left (bucketStep previousAmounts currentAmounts) (seq 0 maxLen) (mkArrays [] [] []).

Definition createBucketChange (key : jsstring) (previousAmounts currentAmounts : list float)
  : option PriceBucketChange :=
  let pieces := split_unit 124 key in
  let currency := match nth_error pieces 0 with Some c => c | None => [] end in
  let period := nth_error pieces 1 in
  let arrays := bucketLoop previousAmounts currentAmounts in
  match added arrays, removed arrays, updated arrays with
  | [], [], [] => None
  | _, _, _ =>
      Some (mkBucketChange currency period (added arrays) (removed arrays) (updated arrays))
  end.

Definition determineSeverity (changes : list PriceBucketChange) (customHintChanged : bool)
  : DiffSeverity :=
  let totalUpdates :=
    fold_left (fun sum change => sum + List.length (updatedAmounts change)) changes 0 in
  let totalAdded :=
    fold_left (fun sum change => sum + List.length (addedAmounts change)) changes 0 in
  let totalRemoved :=
    fold_left (fun sum change => sum + List.length (removedAmounts change)) changes 0 in
  let maxDeltaPercent :=
    fold_left
      (fun maxDelta change =>
         let bucketMax :=
           fold_left (fun innerMax update => Num.mathMax innerMax (deltaPercent update))
             (updatedAmounts change) 0%float in
         Num.mathMax maxDelta bucketMax)
      changes 0%float in
  if Num.geb maxDeltaPercent 20 || ((2 <=? totalAdded) && (2 <=? totalRemoved)) then high
  else if Num.geb maxDeltaPercent 10
          || (2 <=? totalUpdates + totalAdded + totalRemoved)
          || customHintChanged
       then medium
  else low.

(** [PERIOD_ORDER[a.period] - PERIOD_ORDER[b.period]]; a period outside
    the table makes the difference NaN, which sorts as zero. *)
Definition comparePeriods (a b : option jsstring) : comparison :=
  match a, b with
  | Some p, Some q =>
      match PERIOD_ORDER p, PERIOD_ORDER q with
      | Some m, Some n => Z.compare m n
      | _, _ => Eq
      end
  | _, _ => Eq
  end.

Definition option_string_eqb (a b : option jsstring) : bool :=
  match a, b with
  | Some p, Some q => JS.eqb p q
  | None, None => true
  | _, _ => false
  end.

Definition compareBucketChanges (a b : PriceBucketChange) : comparison :=
  if negb (JS.eqb (bucketCurrency a) (bucketCurrency b))
  then localeCompare (bucketCurrency a) (bucketCurrency b)
  else if negb (option_string_eqb (bucketPeriod a) (bucketPeriod b))
       then comparePeriods (bucketPeriod a) (bucketPeriod b)
  else Eq.

Definition sortBucketChanges (changes : list PriceBucketChange) : list PriceBucketChange :=
  Num.sort compareBucketChanges changes.

(** [changedAt] is the clock read when the result is built. *)
Definition generatePricingDiff (previousPayload currentPayload : NormalizedPricingPayload)
  (currentSnapshotVerified : bool) (changedAt : Z) : option PricingDiffResult :=
  let previousBuckets := toBucketMap previousPayload in
  let currentBuckets := toBucketMap currentPayload in
  let allKeys := dedupe JS.eqb [] (map fst previousBuckets ++ map fst currentBuckets) in
  let bucketChanges :=
    fold_left
      (fun bucketChanges key =>
         match createBucketChange key
                 (match bucket_get key previousBuckets with Some v => v | None => [] end)
                 (match bucket_get key currentBuckets with Some v => v | None => [] end)
         with
         | Some nextChange => bucketChanges ++ [nextChange]
         | None => bucketChanges
         end)
      allKeys [] in
  let previousHints := toCustomHintSet previousPayload in
  let currentHints := toCustomHintSet currentPayload in
  let addedHints :=
    filter (fun hint => negb (existsb (JS.eqb hint) previousHints)) currentHints in
  let removedHints :=
    filter (fun hint => negb (existsb (JS.eqb hint) currentHints)) previousHints in
  let customHintChanged :=
    (0 <? List.length addedHints) || (0 <? List.length removedHints) in
  if (List.length bucketChanges =? 0) && negb customHintChanged then None
  else
    let sortedChanges := sortBucketChanges bucketChanges in
    let severity := determineSeverity sortedChanges customHintChanged in
    Some (mkDiffResult
            (mkNormalizedDiff sortedChanges addedHints removedHints
               (List.length (priceMentions previousPayload))
               (List.length (priceMentions currentPayload))
               (List.length (planNames previousPayload))
               (List.length (planNames currentPayload))
               changedAt)
            severity
            (if currentSnapshotVerified then verified else unverified)).

End Diff.

(** ** Regular expressions

    The backtracking semantics of ECMAScript patterns (ECMA-262, 22.2.2),
    for patterns without the [u] flag: a pattern denotes a matcher that
    takes a state and a continuation, and the first way of matching that
    the continuation accepts wins. *)

Module RegExp.

Inductive Pattern : Type :=
| Empty
| Char (accepts : N -> bool)
| Seq (first second : Pattern)
| Alt (left right : Pattern)
| Quant (min : nat) (max : option nat) (greedy : bool) (body : Pattern)
| Group (index : nat) (body : Pattern)
| Backref (index : nat)
| WordBoundary
| InputStart
| InputEnd.

(** The state of a match: the position reached, the code unit before
    it, the input from there on, and the captures made so far. *)
Record State : Type := mkState {
  pos : nat;
  prev : option N;
  rest : jsstring;
  caps : list (nat * jsstring)
}.

Definition Continuation : Type := State -> option State.

Fixpoint capture (index : nat) (captures : list (nat * jsstring)) : option jsstring :=
  match captures with
  | [] => None
  | (k, v) :: more => if Nat.eqb k index then Some v else capture index more
  end.

Definition setCapture (index : nat) (value : jsstring) (x : State) : State :=
  mkState (pos x) (prev x) (rest x)
    ((index, value) :: filter (fun entry => negb (Nat.eqb (fst entry) index)) (caps x)).

Definition clearCaptures (indices : list nat) (x : State) : State :=
  mkState (pos x) (prev x) (rest x)
    (filter (fun entry => negb (existsb (Nat.eqb (fst entry)) indices)) (caps x)).

(** The capturing groups inside a pattern: a quantifier resets them at
    every turn. *)
Fixpoint groupsOf (p : Pattern) : list nat :=
  match p with
  | Seq a b | Alt a b => groupsOf a ++ groupsOf b
  | Quant _ _ _ body => groupsOf body
  | Group index body => index :: groupsOf body
  | _ => []
  end.

Definition isWordChar (c : N) : bool :=
  ((48 <=? c) && (c <=? 57) || (65 <=? c) && (c <=? 90)
   || (97 <=? c) && (c <=? 122) || (c =? 95))%N.

Definition isWordCharOpt (c : option N) : bool :=
  match c with Some ch => isWordChar ch | None => false end.

(** [Canonicalize] under the [i] flag: the upper-case form when it is one
    code unit, except that no unit from U+0080 on folds into ASCII. *)
Definition canonicalize (c : N) : N :=
  match upperUnit c with
  | [u] => if ((128 <=? c) && (u <? 128))%N then c else u
  | _ => c
  end.

(** [y] is [x] moved over the first [n] code units of its rest. *)
Fixpoint advance (n : nat) (x : State) : State :=
  match n with
  | 0 => x
  | S n' =>
      match rest x with
      | [] => x
      | c :: r => advance n' (mkState (S (pos x)) (Some c) r (caps x))
      end
  end.

(** [RepeatMatcher].  Every turn past the minimum must consume input,
    so [fuel] turns are enough when [fuel] exceeds the minimum plus the
    length of the rest. *)
Fixpoint repeatMatcher (fuel : nat) (m : State -> Continuation -> option State)
  (reset : State -> State) (min : nat) (max : option nat) (greedy : bool)
  (x : State) (c : Continuation) {struct fuel} : option State :=
  match fuel with
  | 0 => None
  | S fuel' =>
      match max with
      | Some 0 => c x
      | _ =>
          let d : Continuation := fun y =>
            if Nat.eqb min 0 && Nat.eqb (pos y) (pos x) then None
            else repeatMatcher fuel' m reset (Nat.pred min) (option_map Nat.pred max) greedy y c in
          let xr := reset x in
          if negb (Nat.eqb min 0) then m xr d
          else if negb greedy then
            match c x with
            | Some z => Some z
            | None => m xr d
            end
          else
            match m xr d with
            | Some z => Some z
            | None => c x
            end
      end
  end.

(** [ignoreCase] only matters to back-references; an atom carries its
    own folding in [accepts]. *)
Fixpoint matcher (ignoreCase : bool) (p : Pattern) (x : State) (c : Continuation)
  {struct p} : option State :=
  match p with
  | Empty => c x
  | Char accepts =>
      match rest x with
      | ch :: r => if accepts ch then c (mkState (S (pos x)) (Some ch) r (caps x)) else None
      | [] => None
      end
  | Seq a b => matcher ignoreCase a x (fun y => matcher ignoreCase b y c)
  | Alt a b =>
      match matcher ignoreCase a x c with
      | Some z => Some z
      | None => matcher ignoreCase b x c
      end
  | Quant min max greedy body =>
      repeatMatcher (min + List.length (rest x) + 1) (matcher ignoreCase body)
        (clearCaptures (groupsOf body)) min max greedy x c
  | Group index body =>
      matcher ignoreCase body x
        (fun y => c (setCapture index (firstn (pos y - pos x) (rest x)) y))
  | Backref index =>
      match capture index (caps x) with
      | None => c x
      | Some s =>
          let fold := if ignoreCase then map canonicalize else fun t => t in
          let len := List.length s in
          if (len <=? List.length (rest x)) && JS.eqb (fold (firstn len (rest x))) (fold s)
          then c (advance len x)
          else None
      end
  | WordBoundary =>
      let a := isWordCharOpt (prev x) in
      let b := isWordCharOpt (hd_error (rest x)) in
      if xorb a b then c x else None
  | InputStart => if Nat.eqb (pos x) 0 then c x else None
  | InputEnd => match rest x with [] => c x | _ :: _ => None end
  end.

(** *** Building patterns *)

Definition lit (c : N) : Pattern := Char (N.eqb c).
Definition lit_i (c : N) : Pattern := Char (fun ch => N.eqb (canonicalize ch) (canonicalize c)).

Definition isDigit (c : N) : bool := ((48 <=? c) && (c <=? 57))%N.
Definition digit : Pattern := Char isDigit.
Definition space : Pattern := Char isWhiteSpace.
Definition anyUnit : Pattern := Char (fun _ => true).
Definition oneOf (units : list N) : Pattern := Char (fun ch => existsb (N.eqb ch) units).
Definition noneOf (units : list N) : Pattern := Char (fun ch => negb (existsb (N.eqb ch) units)).

Fixpoint seqs (ps : list Pattern) : Pattern :=
  match ps with
  | [] => Empty
  | [p] => p
  | p :: more => Seq p (seqs more)
  end.

Fixpoint alts (ps : list Pattern) : Pattern :=
  match ps with
  | [] => Empty
  | [p] => p
  | p :: more => Alt p (alts more)
  end.

(** A run of literal code units, exact or under the [i] flag. *)
Definition text (s : string) : Pattern := seqs (map lit (str s)).
Definition text_i (s : string) : Pattern := seqs (map lit_i (str s)).

Definition star (p : Pattern) : Pattern := Quant 0 None true p.
Definition lazyStar (p : Pattern) : Pattern := Quant 0 None false p.
Definition plus (p : Pattern) : Pattern := Quant 1 None true p.
Definition opt (p : Pattern) : Pattern := Quant 0 (Some 1) true p.

(** *** Running a pattern *)

Record Match : Type := mkMatch {
  index : nat;
  lastIndex : nat;
  matched : jsstring;
  groups : list (nat * jsstring)
}.

Definition group (k : nat) (m : Match) : option jsstring := capture k (groups m).

(** The first match that starts at [position] or later, [before] being
    the code unit in front of [position]. *)
Fixpoint scan (ignoreCase : bool) (p : Pattern) (before : option N) (position : nat)
  (input : jsstring) {struct input} : option Match :=
  match matcher ignoreCase p (mkState position before input []) (fun y => Some y) with
  | Some y =>
      Some (mkMatch position (pos y) (firstn (pos y - position) input) (caps y))
  | None =>
      match input with
      | [] => None
      | ch :: more => scan ignoreCase p (Some ch) (S position) more
      end
  end.

(** [pattern.exec(text)] at [lastIndex]. *)
Definition exec (ignoreCase : bool) (p : Pattern) (input : jsstring) (from : nat)
  : option Match :=
  if List.length input <? from then None
  else scan ignoreCase p
         (match from with 0 => None | S k => nth_error input k end)
         from (skipn from input).

(** The loop [let m = re.exec(s); while (m) { ...; m = re.exec(s) }] over
    a global pattern whose matches are never empty: the matches in
    order, each starting where the one before ended. *)
Fixpoint execAll (fuel : nat) (ignoreCase : bool) (p : Pattern) (input : jsstring)
  (from : nat) : list Match :=
  match fuel with
  | 0 => []
  | S fuel' =>
      match exec ignoreCase p input from with
      | None => []
      | Some m => m :: execAll fuel' ignoreCase p input (lastIndex m)
      end
  end.

Definition matchesOf (ignoreCase : bool) (p : Pattern) (input : jsstring) : list Match :=
  execAll (S (List.length input)) ignoreCase p input 0.

(** [s.matchAll(re)] and the matches [s.replace(re, ...)] works on: as
    [matchesOf], but an empty match moves the next search one unit on. *)
Fixpoint globalMatches (fuel : nat) (ignoreCase : bool) (p : Pattern) (input : jsstring)
  (from : nat) : list Match :=
  match fuel with
  | 0 => []
  | S fuel' =>
      match exec ignoreCase p input from with
      | None => []
      | Some m =>
          m :: globalMatches fuel' ignoreCase p input
                 (if Nat.eqb (lastIndex m) (index m) then S (lastIndex m) else lastIndex m)
      end
  end.

(** [s.replace(re, replacement)] for a global pattern and a replacement
    without [$] patterns. *)
Fixpoint spliceMatches (input : jsstring) (position : nat) (ms : list Match)
  (replacement : jsstring) : jsstring :=
  match ms with
  | [] => skipn position input
  | m :: more =>
      firstn (index m - position) (skipn position input)
      ++ replacement ++ spliceMatches input (lastIndex m) more replacement
  end.

Definition replaceAll (ignoreCase : bool) (p : Pattern) (replacement : jsstring)
  (input : jsstring) : jsstring :=
  spliceMatches input 0
    (globalMatches (S (S (List.length input))) ignoreCase p input 0) replacement.

(** [s.replace(re, replacement)] for a pattern without the [g] flag. *)
Definition replaceFirst (ignoreCase : bool) (p : Pattern) (replacement : jsstring)
  (input : jsstring) : jsstring :=
  match exec ignoreCase p input 0 with
  | None => input
  | Some m => firstn (index m) input ++ replacement ++ skipn (lastIndex m) input
  end.

(** [re.test(s)] and [s.match(re)] for a pattern without the [g] flag. *)
Definition test (ignoreCase : bool) (p : Pattern) (input : jsstring) : bool :=
  match exec ignoreCase p input 0 with Some _ => true | None => false end.

End RegExp.

(** ** libs/crawler/extract.ts: the price-mention scan *)

Module PriceScan.

Import Normalize RegExp.

Definition mapCurrency (token : jsstring) : jsstring :=
  let normalized := toUpperCase (trim token) in
  if JS.eqb normalized (str "$") then str "USD"
  else if JS.eqb normalized [8364%N] then str "EUR"
  else if JS.eqb normalized [163%N] then str "GBP"
  else if JS.eqb normalized [165%N] then str "JPY"
  else normalized.

Definition mapPeriod (token : option jsstring) : PricePeriod :=
  match token with
  | None => unknown
  | Some t =>
      if negb (truthy t) then unknown
      else
        let normalized := toLowerCase t in
        let among (names : list string) :=
          existsb (fun name => JS.eqb normalized (str name)) names in
        if among ["day"; "daily"; "d"]%string then day
        else if among ["week"; "weekly"; "wk"; "w"]%string then week
        else if among ["month"; "monthly"; "mo"; "m"]%string then month
        else if among ["year"; "yearly"; "annual"; "annually"; "yr"; "y"]%string then year
        else if among ["once"; "one-time"; "onetime"]%string then one_time
        else unknown
  end.

(** *** [Number.parseFloat] *)

Fixpoint takeDigits (s : jsstring) : jsstring * jsstring :=
  match s with
  | c :: more =>
      if isDigit c then let '(ds, tail) := takeDigits more in (c :: ds, tail)
      else ([], s)
  | [] => ([], [])
  end.

Definition digitsValue (ds : jsstring) : Z :=
  fold_left (fun acc d => (acc * 10 + (Z.of_N d - 48))%Z) ds 0%Z.

(** The exponent part [e], [e+], [e-] followed by digits; zero when the
    input does not continue with one. *)
Definition exponentOf (s : jsstring) : Z :=
  match s with
  | e :: more =>
      if N.eqb e 101 || N.eqb e 69 then
        match more with
        | 45%N :: ds => match fst (takeDigits ds) with [] => 0%Z | v => (- digitsValue v)%Z end
        | 43%N :: ds => digitsValue (fst (takeDigits ds))
        | _ => digitsValue (fst (takeDigits more))
        end
      else 0%Z
  | [] => 0%Z
  end.

(** The longest prefix that is a decimal literal, correctly rounded;
    NaN when there is none. *)
Definition parseFloat (input : jsstring) : float :=
  let s := trimStart input in
  let '(negative, s) :=
    match s with
    | 45%N :: more => (true, more)
    | 43%N :: more => (false, more)
    | _ => (false, s)
    end in
  let signed (x : float) := if negative then (- x)%float else x in
  if startsWith s (str "Infinity") then signed infinity
  else
    let '(intDigits, afterInt) := takeDigits s in
    let '(fracDigits, afterFrac) :=
      match afterInt with
      | 46%N :: more => takeDigits more
      | _ => ([], afterInt)
      end in
    match intDigits ++ fracDigits with
    | [] => nan
    | digits =>
        let mantissa := digitsValue digits in
        let scale := (exponentOf afterFrac - Z.of_nat (List.length fracDigits))%Z in
        signed (if (0 <=? scale)%Z then Num.roundQ (mantissa * 10 ^ scale) 1
                else Num.roundQ mantissa (10 ^ (- scale)))
    end.

(** *** The pattern of [extractPriceMentions], flags [gi]

    An optional code part, an optional currency symbol (capture 2), any
    white space, the amount (capture 3) and an optional period part. *)

Definition currencyCode : Pattern :=
  alts (map text_i ["USD"; "EUR"; "GBP"; "CAD"; "AUD"; "JPY"]%string).

Definition currencySymbol : Pattern :=
  Char (fun ch => existsb (fun u => N.eqb (canonicalize ch) (canonicalize u))
                    [8364; 163; 36; 165]%N).

(** A word boundary, a currency code (capture 1) and any white space. *)
Definition codePart : Pattern := seqs [WordBoundary; Group 1 currencyCode; star space].

(** A comma and three digits; a point and one or two digits. *)
Definition thousandsGroup : Pattern := Seq (lit 44) (Quant 3 (Some 3) true digit).
Definition decimalPart : Pattern := Seq (lit 46) (Quant 1 (Some 2) true digit).

(** One to four digits, any number of thousands groups, optional decimals. *)
Definition amountDigits : Pattern :=
  seqs [Quant 1 (Some 4) true digit; star thousandsGroup; opt decimalPart].

Definition periodWord : Pattern :=
  alts (map text_i
          ["day"; "daily"; "d"; "week"; "weekly"; "wk"; "w"; "month"; "monthly"; "mo"; "m";
           "year"; "yearly"; "annual"; "annually"; "yr"; "y"; "once"; "one-time";
           "onetime"]%string).

(** White space, a slash or the word per, white space, a period word (capture 4). *)
Definition periodPart : Pattern :=
  seqs [star space; Alt (lit 47) (text_i "per"); star space; Group 4 periodWord].

Definition pricePattern : Pattern :=
  seqs [opt codePart;
        opt (Group 2 currencySymbol);
        star space;
        Group 3 amountDigits;
        opt periodPart].

(** [amountToken.replace(/,/g, "")]. *)
Definition removeCommas (token : jsstring) : jsstring :=
  filter (fun c => negb (N.eqb c 44)) token.

(** The body of the loop on one match. *)
Definition priceOfMatch (m : Match) : list NormalizedPricePoint :=
  let codeToken := group 1 m in
  let symbolToken := group 2 m in
  let amountToken := match group 3 m with Some t => t | None => [] end in
  let periodToken := group 4 m in
  let amount := parseFloat (removeCommas amountToken) in
  if Num.isFinite amount && Num.gtb amount 0 then
    let currency :=
      if truthy_opt codeToken
      then toUpperCase (match codeToken with Some code => code | None => [] end)
      else mapCurrency (match symbolToken with Some s => s | None => str "$" end) in
    [mkPrice amount currency (mapPeriod periodToken)]
  else [].

Definition extractPriceMentions (text : jsstring) : list NormalizedPricePoint :=
  flat_map priceOfMatch (matchesOf true pricePattern text).

End PriceScan.

(** ** The platform's [URL] class

    A model of the WHATWG URL parser and serializer on the URLs the
    crawler handles: [http] and [https] URLs written in printable ASCII,
    with a registered-name host, an optional port, a path, a query and a
    fragment.  Outside that fragment (other schemes, credentials, IP
    literals, percent-escapes in the host, non-ASCII input) [parse]
    answers [None]. *)

Module URL.

Record URLRecord : Type := mkURL {
  scheme : jsstring;
  host : jsstring;
  port : option N;
  path : list jsstring;
  query : option jsstring;
  fragment : option jsstring
}.

Definition isAlpha (c : N) : bool :=
  ((65 <=? c) && (c <=? 90) || (97 <=? c) && (c <=? 122))%N.

Definition isSlash (c : N) : bool := N.eqb c 47 || N.eqb c 92.

(** Leading and trailing C0 controls and spaces go; tabs and newlines go
    wherever they are. *)
Fixpoint stripLeading (s : jsstring) : jsstring :=
  match s with
  | c :: more => if (c <=? 32)%N then stripLeading more else s
  | [] => []
  end.

Definition preprocess (input : jsstring) : jsstring :=
  filter (fun c => negb (N.eqb c 9 || N.eqb c 10 || N.eqb c 13))
    (rev (stripLeading (rev (stripLeading input)))).

(** The code units up to the first one that [stop] accepts, and the rest. *)
Fixpoint splitAt (stop : N -> bool) (s : jsstring) : jsstring * jsstring :=
  match s with
  | [] => ([], [])
  | c :: more =>
      if stop c then ([], s)
      else let '(before, after) := splitAt stop more in (c :: before, after)
  end.

Fixpoint dropWhile (f : N -> bool) (s : jsstring) : jsstring :=
  match s with
  | c :: more => if f c then dropWhile f more else s
  | [] => []
  end.

(** The scheme, lower-cased, and what follows its colon. *)
Definition parseScheme (s : jsstring) : option (jsstring * jsstring) :=
  match s with
  | c :: _ =>
      if isAlpha c then
        let '(name, after) :=
          splitAt (fun ch => negb (isAlpha ch || RegExp.isDigit ch
                                   || N.eqb ch 43 || N.eqb ch 45 || N.eqb ch 46)) s in
        match after with
        | 58%N :: remaining => Some (toLowerCase name, remaining)
        | _ => None
        end
      else None
  | [] => None
  end.

(** The forbidden domain code points among printable ASCII. *)
Definition forbiddenInDomain (c : N) : bool :=
  existsb (N.eqb c) [32; 34; 35; 37; 47; 58; 60; 62; 63; 64; 91; 92; 93; 94; 96; 123; 124; 125]%N.

(** A label that the IPv4 parser would read as a number. *)
Definition numericLabel (label : jsstring) : bool :=
  match label with
  | [] => false
  | 48%N :: x :: _ => N.eqb (lowerUnit x) 120 || forallb RegExp.isDigit label
  | _ => forallb RegExp.isDigit label
  end.

Definition endsInNumber (h : jsstring) : bool :=
  match rev (split_unit 46 h) with
  | [] :: last :: _ => numericLabel last
  | last :: _ => numericLabel last
  | [] => false
  end.

(** The host parser on a registered name. *)
Definition parseHost (input : jsstring) : option jsstring :=
  match input with
  | [] => None
  | _ =>
      if existsb (fun c => (c <? 33) || (126 <? c) || forbiddenInDomain c)%N input then None
      else
        let lowered := toLowerCase input in
        if endsInNumber lowered then None else Some lowered
  end.

Definition defaultPort (scheme : jsstring) : option N :=
  if JS.eqb scheme (str "http") then Some 80%N
  else if JS.eqb scheme (str "https") then Some 443%N
  else None.

Definition option_N_eqb (a b : option N) : bool :=
  match a, b with
  | Some x, Some y => N.eqb x y
  | None, None => true
  | _, _ => false
  end.

(** [None] on a malformed port; [Some None] on no port or the default one. *)
Definition parsePort (scheme digits : jsstring) : option (option N) :=
  if negb (forallb RegExp.isDigit digits) then None
  else
    match digits with
    | [] => Some None
    | _ =>
        let value := Z.to_N (PriceScan.digitsValue digits) in
        if (65535 <? value)%N then None
        else if option_N_eqb (Some value) (defaultPort scheme) then Some None
        else Some (Some value)
    end.

(** The path percent-encode set among printable ASCII. *)
Definition encodedInPath (c : N) : bool :=
  existsb (N.eqb c) [32; 34; 35; 60; 62; 63; 96; 123; 125]%N.

Definition hexDigit (n : N) : N := if (n <? 10)%N then (48 + n)%N else (55 + n)%N.

Definition percentEncode (s : jsstring) : jsstring :=
  flat_map (fun c => if encodedInPath c then [37%N; hexDigit (c / 16); hexDigit (c mod 16)]
                     else [c]) s.

Definition isSingleDot (segment : jsstring) : bool :=
  let s := toLowerCase segment in
  JS.eqb s (str ".") || JS.eqb s (str "%2e").

Definition isDoubleDot (segment : jsstring) : bool :=
  let s := toLowerCase segment in
  JS.eqb s (str "..") || JS.eqb s (str ".%2e") || JS.eqb s (str "%2e.")
  || JS.eqb s (str "%2e%2e").

(** The path state over the segments of the input, the last one closed
    by the end of the path. *)
Fixpoint pathSegments (segments : list jsstring) (path : list jsstring) : list jsstring :=
  match segments with
  | [] => path
  | segment :: more =>
      let isLast := match more with [] => true | _ => false end in
      let path' :=
        if isDoubleDot segment then
          let shortened := removelast path in
          if isLast then shortened ++ [[]] else shortened
        else if isSingleDot segment then
          if isLast then path ++ [[]] else path
        else path ++ [percentEncode segment] in
      pathSegments more path'
  end.

(** The path of a special URL from the text after its authority. *)
Definition parsePath (input : jsstring) : list jsstring :=
  let unified := map (fun c => if N.eqb c 92 then 47%N else c) input in
  let body := match unified with 47%N :: more => more | _ => unified end in
  pathSegments (split_unit 47 body) [].

Definition isHttp (scheme : jsstring) : bool :=
  JS.eqb scheme (str "http") || JS.eqb scheme (str "https").

(** [new URL(input)]; [None] when it throws. *)
Definition parse (input : jsstring) : option URLRecord :=
  let s := preprocess input in
  if existsb (fun c => (c <? 32) || (126 <? c))%N s then None
  else
    match parseScheme s with
    | None => None
    | Some (scheme, afterScheme) =>
        if negb (isHttp scheme) then None
        else
          let afterSlashes := dropWhile isSlash afterScheme in
          let '(authority, afterAuthority) :=
            splitAt (fun c => isSlash c || N.eqb c 63 || N.eqb c 35) afterSlashes in
          if existsb (N.eqb 64) authority then None
          else
            let '(hostText, portText) := splitAt (N.eqb 58) authority in
            match parseHost hostText,
                  parsePort scheme (match portText with _ :: digits => digits | [] => [] end)
            with
            | Some host, Some port =>
                let '(pathText, afterPath) :=
                  splitAt (fun c => N.eqb c 63 || N.eqb c 35) afterAuthority in
                let '(queryText, fragmentText) := splitAt (N.eqb 35) afterPath in
                Some (mkURL scheme host port (parsePath pathText)
                        (match queryText with _ :: q => Some q | [] => None end)
                        (match fragmentText with _ :: f => Some f | [] => None end))
            | _, _ => None
            end
    end.

(** The getters and setters [normalizeUrl] uses. *)
Definition protocol (url : URLRecord) : jsstring := scheme url ++ str ":".

Definition hostname (url : URLRecord) : jsstring := host url.

Definition pathname (url : URLRecord) : jsstring :=
  flat_map (fun segment => 47%N :: segment) (path url).

(** [url.hostname = value]: a value the host parser refuses leaves the
    URL as it is. *)
Definition set_hostname (value : jsstring) (url : URLRecord) : URLRecord :=
  match parseHost value with
  | Some h => mkURL (scheme url) h (port url) (path url) (query url) (fragment url)
  | None => url
  end.

(** [url.hash = ""] and [url.search = ""]. *)
Definition clear_hash (url : URLRecord) : URLRecord :=
  mkURL (scheme url) (host url) (port url) (path url) (query url) None.

Definition clear_search (url : URLRecord) : URLRecord :=
  mkURL (scheme url) (host url) (port url) (path url) None (fragment url).

Definition set_pathname (value : jsstring) (url : URLRecord) : URLRecord :=
  mkURL (scheme url) (host url) (port url) (parsePath value) (query url) (fragment url).

Fixpoint decimalDigits (fuel : nat) (n : N) : jsstring :=
  match fuel with
  | 0 => []
  | S fuel' =>
      (if (n <? 10)%N then [] else decimalDigits fuel' (n / 10)) ++ [(48 + n mod 10)%N]
  end.

(** [url.toString()]. *)
Definition href (url : URLRecord) : jsstring :=
  scheme url ++ str "://" ++ host url
  ++ (match port url with Some p => 58%N :: decimalDigits 5 p | None => [] end)
  ++ pathname url
  ++ (match query url with Some q => 63%N :: q | None => [] end)
  ++ (match fragment url with Some f => 35%N :: f | None => [] end).

End URL.

(** ** libs/crawler/normalize.ts: URLs and page text *)

Module NormalizeUrl.

Import RegExp.

(** [hostname.toLowerCase().replace(/^www\./, "")] *)
Definition normalizeHostname (hostname : jsstring) : jsstring :=
  replaceFirst false (Seq InputStart (text "www.")) [] (toLowerCase hostname).

(** [pathname.replace(/\/{2,}/g, "/")], the empty result read as ["/"]. *)
Definition normalizeUrlPath (pathname : jsstring) : jsstring :=
  let normalized := replaceAll false (Quant 2 None true (lit 47)) (str "/") pathname in
  if JS.eqb normalized [] then str "/" else normalized.

Definition normalizeUrl (value : jsstring) : option jsstring :=
  let prepared := if includes value (str "://") then value else str "https://" ++ value in
  match URL.parse prepared with
  | None => None
  | Some url =>
      if negb (JS.eqb (URL.protocol url) (str "http:"))
         && negb (JS.eqb (URL.protocol url) (str "https:"))
      then None
      else
        let url := URL.set_hostname (normalizeHostname (URL.hostname url)) url in
        let url := URL.clear_hash url in
        let url := URL.clear_search url in
        let url := URL.set_pathname (normalizeUrlPath (URL.pathname url)) url in
        Some (URL.href url)
  end.

End NormalizeUrl.

(** ** libs/crawler/normalize.ts: page text *)

Module PageText.

Import RegExp Normalize.

(** The pattern of [stripTagContent]: the opening tag and its
    attributes, the shortest content, the closing tag; flags [gi]. *)
Definition tagContent (tagName : string) : Pattern :=
  seqs [text_i (String "<" tagName); star (noneOf [62%N]); lit 62;
        lazyStar anyUnit;
        text_i (String "<" (String "/" tagName)); lit 62].

Definition stripTagContent (html : jsstring) (tagName : string) : jsstring :=
  replaceAll true (tagContent tagName) (str " ") html.

Definition stripHtmlToText (html : jsstring) : jsstring :=
  let withoutScripts := stripTagContent html "script" in
  let withoutStyles := stripTagContent withoutScripts "style" in
  let withoutNoscript := stripTagContent withoutStyles "noscript" in
  let withoutComments :=
    replaceAll false (seqs [text "<!--"; lazyStar anyUnit; text "-->"]) (str " ")
      withoutNoscript in
  let withoutTags :=
    replaceAll false (seqs [lit 60; plus (noneOf [62%N]); lit 62]) (str " ")
      withoutComments in
  let decodedBasicEntities :=
    replaceAll true (text_i "&#39;") (str "'")
      (replaceAll true (text_i "&quot;") [34%N]
         (replaceAll true (text_i "&amp;") (str "&")
            (replaceAll true (text_i "&nbsp;") (str " ") withoutTags))) in
  normalizeWhitespace decodedBasicEntities.

Definition normalizeHtmlForHash (html : jsstring) : jsstring :=
  let text := stripHtmlToText html in
  toLowerCase (normalizeWhitespace text).

End PageText.

(** ** libs/crawler/constants.ts *)

Module Constants.

(** The tunable constants as resolved from the environment at start-up. *)
Record Settings : Type := mkSettings {
  CRAWL_BATCH_LIMIT : Z;
  CRAWL_LEASE_MS : Z;
  SUCCESS_CRAWL_DELAY_MS : Z;
  ERROR_BACKOFF_MS : Z;
  BLOCKED_BACKOFF_MS : Z;
  MANUAL_NEEDED_BACKOFF_MS : Z;
  MAX_HTML_LENGTH : N
}.

(** The documented defaults. *)
Definition defaults : Settings :=
  mkSettings 3 360000 86400000 21600000 129600000 172800000 1000000.

Definition MAX_CRAWL_BATCH_LIMIT : Z := 20.
Definition DEFAULT_CRAWL_BATCH_LIMIT : Z := 3.
Definition VERIFIED_CONFIDENCE_THRESHOLD : float := 0.75.

Definition BLOCKED_HTTP_STATUSES : list Z := [401; 403; 429]%Z.

Definition BLOCKED_TEXT_SIGNALS : list string :=
  ["access denied"; "temporarily blocked"; "captcha"; "cloudflare"; "attention required";
   "verify you are human"; "bot detection"]%string.

Definition PRICING_TEXT_SIGNALS : list string :=
  ["pricing"; "plans"; "per month"; "monthly"; "yearly"; "annual"; "billed";
   "free trial"]%string.

Definition CUSTOM_PRICING_SIGNALS : list string :=
  ["contact sales"; "custom pricing"; "talk to sales"; "enterprise pricing";
   "request a quote"; "book a demo"]%string.

End Constants.

(** ** libs/crawler/extract.ts: the extractor *)

Module Extract.

Import RegExp Normalize PageText PriceScan Constants.

(** What [fetch] can do with a request: answer, be aborted by the
    timeout, or fail otherwise (with the message of the error, if it is
    an [Error]). *)
Inductive FetchOutcome : Type :=
| Responded (status : Z) (contentType : option jsstring) (bodyText : jsstring)
| Aborted
| Failed (message : option jsstring).

Inductive StaticFetchResult : Type :=
| StaticFetchSuccess (status : Z) (html : jsstring) (contentType : option jsstring)
| StaticFetchFailure (status : Z) (error : jsstring).

Inductive SnapshotCaptureMethod := static | playwright | llm | manual.

(** A failure carries confidence 0, [isVerified: false] and the capture
    method ["static"], as a success carries ["static"]. *)
Inductive CrawlExtractionResult : Type :=
| CrawlExtractionSuccess (contentHash : jsstring) (pricingPayload : NormalizedPricingPayload)
    (confidence : float) (isVerified : bool)
| CrawlExtractionFailure (status : CompanyCrawlStatus) (error : jsstring).

Definition captureMethodOf (_ : CrawlExtractionResult) : SnapshotCaptureMethod := static.

Definition quote : Pattern := oneOf [34; 39]%N.

(** The pattern of [findMetaContent], flag [i]. *)
Definition metaPattern (name : string) : Pattern :=
  seqs [text_i "<meta"; plus (noneOf [62%N]);
        Alt (text_i "name") (text_i "property"); lit 61; quote; text_i name; quote;
        plus (noneOf [62%N]); text_i "content="; quote;
        Group 1 (plus (noneOf [34; 39]%N)); quote; star (noneOf [62%N]); lit 62].

Definition findMetaContent (html : jsstring) (name : string) : option jsstring :=
  match exec true (metaPattern name) html 0 with
  | Some m => option_map trim (group 1 m)
  | None => None
  end.

Definition titlePattern : Pattern :=
  seqs [text_i "<title"; star (noneOf [62%N]); lit 62; Group 1 (lazyStar anyUnit);
        text_i "</title>"].

Definition findTitle (html : jsstring) : option jsstring :=
  match exec true titlePattern html 0 with
  | Some m => option_map trim (group 1 m)
  | None => None
  end.

Definition extractSignalMentions (text : jsstring) (signals : list string) : list jsstring :=
  let lowered := toLowerCase text in
  map str (filter (fun signal => includes lowered (str signal)) signals).

Definition headingPattern : Pattern :=
  seqs [lit 60; Group 1 (alts (map text_i ["h1"; "h2"; "h3"; "h4"; "h5"]%string));
        star (noneOf [62%N]); lit 62; Group 2 (lazyStar anyUnit);
        text "</"; Backref 1; lit 62].

Definition planWord : Pattern :=
  alts (map text_i ["plan"; "pricing"; "starter"; "pro"; "business"; "enterprise"]%string).

Definition extractPlanNames (html : jsstring) : list jsstring :=
  filter (fun value => test true planWord value)
    (filter (fun value => (0 <? List.length value) && (List.length value <=? 80))
       (map trim
          (map (fun m => stripHtmlToText (match group 2 m with Some t => t | None => [] end))
             (globalMatches (S (S (List.length html))) true headingPattern html 0)))).

Definition getConfidence (prices : list NormalizedPricePoint)
  (pricingSignals customSignals : list jsstring) : float :=
  if 3 <=? List.length prices then 0.9%float
  else if 1 <=? List.length prices then
    if 0 <? List.length pricingSignals then 0.78%float else 0.72%float
  else if 0 <? List.length customSignals then 0.45%float
  else if 0 <? List.length pricingSignals then 0.4%float
  else 0%float.

(** ["HTTP " + status]. *)
Definition httpStatusText (status : Z) : jsstring :=
  str "HTTP " ++ (if (status <? 0)%Z then str "-" else [])
  ++ URL.decimalDigits 20 (Z.to_N (Z.abs status)).

(** [response.ok]. *)
Definition responseOk (status : Z) : bool := ((200 <=? status) && (status <=? 299))%Z.

(** [fetchStaticHtml], on what [fetch] did with the request. *)
Definition fetchStaticHtml (settings : Settings) (outcome : FetchOutcome) : StaticFetchResult :=
  match outcome with
  | Responded status contentType bodyText =>
      if negb (responseOk status) then StaticFetchFailure status (httpStatusText status)
      else StaticFetchSuccess status (firstn (N.to_nat (MAX_HTML_LENGTH settings)) bodyText) contentType
  | Aborted => StaticFetchFailure 408 (str "Request timed out")
  | Failed (Some message) => StaticFetchFailure 500 message
  | Failed None => StaticFetchFailure 500 (str "Unknown fetch error")
  end.

(** [classifyFetchFailure], on the status and error of the failure. *)
Definition classifyFetchFailure (status : Z) (error : jsstring) : CrawlExtractionResult :=
  if existsb (Z.eqb status) BLOCKED_HTTP_STATUSES then CrawlExtractionFailure blocked error
  else if ((400 <=? status) && (status <? 500))%Z
       then CrawlExtractionFailure manual_needed error
  else CrawlExtractionFailure Models.error error.

Section WithPlatform.

(** [createContentHash]: the hexadecimal SHA-256 digest of the text, a
    primitive of the platform. *)
Variable createContentHash : jsstring -> jsstring.

(** The network: what a GET of the URL comes to. *)
Variable fetch : jsstring -> FetchOutcome.

Variable settings : Settings.

Definition fetchAndExtractPricing (sourceUrl : jsstring) : CrawlExtractionResult :=
  match NormalizeUrl.normalizeUrl sourceUrl with
  | None => CrawlExtractionFailure manual_needed (str "Invalid pricing URL")
  | Some normalizedSourceUrl =>
      if negb (truthy normalizedSourceUrl)
      then CrawlExtractionFailure manual_needed (str "Invalid pricing URL")
      else
        match fetchStaticHtml settings (fetch normalizedSourceUrl) with
        | StaticFetchFailure status reason => classifyFetchFailure status reason
        | StaticFetchSuccess _ html contentType =>
            if negb (match contentType with
                     | Some t => includes (toLowerCase t) (str "text/html")
                     | None => false
                     end)
            then CrawlExtractionFailure manual_needed
                   (str "Pricing URL did not return HTML content")
            else
              let normalizedHashInput := normalizeHtmlForHash html in
              let contentHash := createContentHash normalizedHashInput in
              let pricingText := stripHtmlToText html in
              let blockedSignals := extractSignalMentions pricingText BLOCKED_TEXT_SIGNALS in
              if 0 <? List.length blockedSignals
              then CrawlExtractionFailure blocked
                     (str "Bot protection detected: " ++ join (str ", ") blockedSignals)
              else
                let priceMentions := extractPriceMentions pricingText in
                let pricingSignals := extractSignalMentions pricingText PRICING_TEXT_SIGNALS in
                let customPricingHints :=
                  extractSignalMentions pricingText CUSTOM_PRICING_SIGNALS in
                let confidence := getConfidence priceMentions pricingSignals customPricingHints in
                if (List.length priceMentions =? 0) && (List.length pricingSignals =? 0)
                   && (List.length customPricingHints =? 0)
                then CrawlExtractionFailure manual_needed
                       (str "Pricing signals not detected on the page")
                else
                  let payload :=
                    canonicalizePricingPayload
                      (mkPayload normalizedSourceUrl (findTitle html)
                         (findMetaContent html "description") (extractPlanNames html)
                         priceMentions customPricingHints) in
                  CrawlExtractionSuccess contentHash payload confidence
                    (Num.geb confidence VERIFIED_CONFIDENCE_THRESHOLD
                     && (0 <? List.length (Normalize.priceMentions payload)))
        end
  end.

End WithPlatform.

End Extract.

(** ** types/entitlements.ts and libs/entitlements.ts *)

Module Entitlements.

Inductive PlanTier := starter | pro.
Inductive AccessSource := none | trial | paid.
Inductive AccessState := inactive | trial_active | paid_active.
Inductive TrialStatus := not_started | active | expired | converted.
Inductive InsightSeverityGate := high_only | high_and_medium.

(** [InsightSeverity] and [DiffSeverity] are the same three strings. *)
Definition InsightSeverity : Type := Diff.DiffSeverity.

Definition InsightSeverity_eqb (a b : InsightSeverity) : bool :=
  match a, b with
  | Diff.low, Diff.low | Diff.medium, Diff.medium | Diff.high, Diff.high => true
  | _, _ => false
  end.

Definition TrialStatus_eqb (a b : TrialStatus) : bool :=
  match a, b with
  | not_started, not_started | active, active | expired, expired
  | converted, converted => true
  | _, _ => false
  end.

Record PlanEntitlementRule : Type := mkRule {
  rule_competitorLimit : Z;
  rule_insightSeverityGate : InsightSeverityGate;
  rule_canReceiveWeeklyDigest : bool
}.

Record EntitlementsConfig : Type := mkEntitlementsConfig {
  cfg_trialDays : Z;
  trialPlanTier : PlanTier;
  paidFallbackPlanTier : PlanTier;
  plans : PlanTier -> PlanEntitlementRule;
  severityGates : InsightSeverityGate -> list InsightSeverity
}.

(** The configuration module is not among the sources; the functions
    below take what they read of it: [config.entitlements] and the
    price-tag table [config.stripe.plans]. *)
Record Config : Type := mkConfig {
  entitlements : EntitlementsConfig;
  stripePlans : list (jsstring * option PlanTier)
}.

(** [EntitlementUserLike], with the [_id] of [InsightEligibleUser]. *)
Module UserLike.

Record User : Type := mkUser {
  _id : ObjectId;
  hasAccess : bool;
  priceId : option jsstring;
  trialStatus : TrialStatus;
  trialStartedAt : option Z;
  trialEndsAt : option Z
}.

End UserLike.

Definition User : Type := UserLike.User.

Record ResolvedEntitlements : Type := mkResolved {
  hasAccess : bool;
  accessSource : AccessSource;
  accessState : AccessState;
  planTier : option PlanTier;
  competitorLimit : Z;
  insightSeverityGate : option InsightSeverityGate;
  allowedInsightSeverities : list InsightSeverity;
  canReceiveWeeklyDigest : bool;
  trialDays : Z
}.

Section WithConfig.

Variable config : Config.

Definition getPlanRule (planTier : PlanTier) : PlanEntitlementRule :=
  plans (entitlements config) planTier.

Definition getAllowedInsightSeverities (gate : InsightSeverityGate) : list InsightSeverity :=
  severityGates (entitlements config) gate.

Definition resolvePlanTierFromPriceId (priceId : option jsstring) : option PlanTier :=
  match priceId with
  | None => None
  | Some id =>
      if negb (truthy id) then None
      else
        match find (fun candidate => JS.eqb (fst candidate) id) (stripePlans config) with
        | Some plan => snd plan
        | None => None
        end
  end.

Definition isTrialActive (user : User) (now : Z) : bool :=
  if negb (TrialStatus_eqb (UserLike.trialStatus user) active) then false
  else
    match UserLike.trialEndsAt user with
    | None => false
    | Some ends => (now <? ends)%Z
    end.

Definition resolveEntitlements (user : User) (now : Z) : ResolvedEntitlements :=
  if UserLike.hasAccess user then
    let paidPlanTier :=
      match resolvePlanTierFromPriceId (UserLike.priceId user) with
      | Some tier => tier
      | None => paidFallbackPlanTier (entitlements config)
      end in
    let paidPlanRule := getPlanRule paidPlanTier in
    mkResolved true paid paid_active (Some paidPlanTier)
      (rule_competitorLimit paidPlanRule)
      (Some (rule_insightSeverityGate paidPlanRule))
      (getAllowedInsightSeverities (rule_insightSeverityGate paidPlanRule))
      (rule_canReceiveWeeklyDigest paidPlanRule)
      (cfg_trialDays (entitlements config))
  else if isTrialActive user now then
    let trialTier := trialPlanTier (entitlements config) in
    let trialPlanRule := getPlanRule trialTier in
    mkResolved true trial trial_active (Some trialTier)
      (rule_competitorLimit trialPlanRule)
      (Some (rule_insightSeverityGate trialPlanRule))
      (getAllowedInsightSeverities (rule_insightSeverityGate trialPlanRule))
      false
      (cfg_trialDays (entitlements config))
  else
    mkResolved false none inactive None 0 None [] false
      (cfg_trialDays (entitlements config)).

End WithConfig.

Definition canGenerateInsight (entitlements : ResolvedEntitlements)
  (severity : InsightSeverity) : bool :=
  hasAccess entitlements
  && existsb (InsightSeverity_eqb severity) (allowedInsightSeverities entitlements).

Definition canAddCompetitor (entitlements : ResolvedEntitlements) (currentCount : Z) : bool :=
  hasAccess entitlements && (currentCount <? competitorLimit entitlements)%Z.

(** The function [canReceiveWeeklyDigest]; the name is the field's here. *)
Definition mayReceiveWeeklyDigest (entitlements : ResolvedEntitlements) : bool :=
  hasAccess entitlements && canReceiveWeeklyDigest entitlements.

(** Modelled from the spec: the configuration module, which is not
    among the sources.  The plan table and the severity gates of the
    specification (Starter: 3 competitors, high only; Pro: 10
    competitors, high and medium; trial on Starter; paid fallback
    Starter), a trial of 7 days, and no price tags. *)
Definition specConfig : Config :=
  mkConfig
    (mkEntitlementsConfig 7 starter starter
       (fun tier => match tier with
                    | starter => mkRule 3 high_only true
                    | pro => mkRule 10 high_and_medium true
                    end)
       (fun gate => match gate with
                    | high_only => [Diff.high]
                    | high_and_medium => [Diff.high; Diff.medium]
                    end))
    [].

End Entitlements.

(** ** libs/crawler/insight.ts *)

Module Insight.

Import Diff Entitlements.

Record PriceChangeSummary : Type := mkSummary {
  summaryAdded : nat;
  summaryRemoved : nat;
  summaryUpdated : nat
}.

Record InsightBuildInput : Type := mkInput {
  user : User;
  companyId : ObjectId;
  diffId : ObjectId;
  inputSeverity : DiffSeverity;
  inputVerificationState : DiffVerificationState;
  inputNormalizedDiff : NormalizedDiff;
  now : Z
}.

Record Recommendation : Type := mkRecommendation {
  headline : jsstring;
  summary : jsstring;
  risk : DiffSeverity;
  recommendedSeverity : DiffSeverity;
  recommendedVerificationState : DiffVerificationState;
  actionItems : list jsstring;
  diffSummary : PriceChangeSummary
}.

Inductive InsightFeedbackState := feedback_none | helpful | not_helpful.

Record CreateInput : Type := mkCreateInput {
  insightUserId : ObjectId;
  insightCompanyId : ObjectId;
  insightDiffId : ObjectId;
  model : jsstring;
  promptTokens : Z;
  completionTokens : Z;
  totalCostUsd : Z;
  recommendation : Recommendation;
  severityGate : InsightSeverityGate;
  generatedAt : Z;
  feedback : InsightFeedbackState
}.

Record InsightBuildResult : Type := mkBuildResult {
  shouldCreate : bool;
  reason : option jsstring;
  createInput : option CreateInput
}.

Definition getPriceChangeSummary (normalizedDiff : NormalizedDiff) : PriceChangeSummary :=
  fold_left
    (fun acc bucket =>
       mkSummary (summaryAdded acc + List.length (addedAmounts bucket))
         (summaryRemoved acc + List.length (removedAmounts bucket))
         (summaryUpdated acc + List.length (updatedAmounts bucket)))
    (priceChanges normalizedDiff) (mkSummary 0 0 0).

Definition DiffSeverity_eqb : DiffSeverity -> DiffSeverity -> bool := InsightSeverity_eqb.

Definition createActionItems (severity : DiffSeverity)
  (verificationState : DiffVerificationState) (summary : PriceChangeSummary) : list jsstring :=
  let actions :=
    (if DiffSeverity_eqb severity high
     then [str "Review competitor positioning and update your pricing strategy within 24 hours."]
     else [])
    ++ (if 0 <? summaryUpdated summary
        then [str "Compare changed price points against your plan tiers and conversion funnel performance."]
        else [])
    ++ (if (0 <? summaryAdded summary) || (0 <? summaryRemoved summary)
        then [str "Audit your sales messaging for affected segments and adjust objection handling."]
        else [])
    ++ (match verificationState with
        | unverified =>
            [str "Manually verify the competitor pricing page before acting on this change."]
        | verified => []
        end) in
  match actions with
  | [] => [str "Monitor this competitor for repeated movement before making pricing changes."]
  | _ => actions
  end.

Definition getRiskLabel (severity : DiffSeverity) : DiffSeverity :=
  if DiffSeverity_eqb severity high then high
  else if DiffSeverity_eqb severity medium then medium
  else low.

Definition severityName (severity : DiffSeverity) : jsstring :=
  match severity with
  | low => str "low"
  | medium => str "medium"
  | high => str "high"
  end.

Definition gateName (gate : InsightSeverityGate) : jsstring :=
  match gate with
  | high_only => str "high_only"
  | high_and_medium => str "high_and_medium"
  end.

Definition buildInsightFromDiff (config : Config) (input : InsightBuildInput)
  : InsightBuildResult :=
  let entitlements := resolveEntitlements config (user input) (now input) in
  match insightSeverityGate entitlements with
  | None =>
      mkBuildResult false (Some (str "No insight severity gate available for user")) None
  | Some gate =>
      if negb (canGenerateInsight entitlements (inputSeverity input)) then
        mkBuildResult false
          (Some (str "Severity " ++ severityName (inputSeverity input)
                 ++ str " not allowed for plan gate " ++ gateName gate))
          None
      else
        let summary := getPriceChangeSummary (inputNormalizedDiff input) in
        let recommendation :=
          mkRecommendation
            (str "Competitor pricing moved (" ++ severityName (inputSeverity input) ++ str ")")
            (if 0 <? summaryUpdated summary
             then URL.decimalDigits 20 (N.of_nat (summaryUpdated summary))
                  ++ str " existing price points changed."
             else str "New pricing structure changes were detected.")
            (getRiskLabel (inputSeverity input))
            (inputSeverity input)
            (inputVerificationState input)
            (createActionItems (inputSeverity input) (inputVerificationState input) summary)
            summary in
        mkBuildResult true None
          (Some (mkCreateInput (UserLike._id (user input)) (companyId input) (diffId input)
                   (str "rules-v1") 0 0 0 recommendation gate (now input) feedback_none))
  end.

End Insight.

(** ** libs/trial.ts *)

Module Trial.

Import Entitlements.

Definition MS_PER_DAY : Z := 24 * 60 * 60 * 1000.

Inductive TrialStartReason :=
| started | already_active | already_expired | already_converted | paid_user.

Record TrialRefreshResult : Type := mkRefreshResult {
  refreshChanged : bool;
  refreshedStatus : TrialStatus
}.

Record TrialStartResult : Type := mkStartResult {
  resultUserId : ObjectId;
  hasStarted : bool;
  hasChanged : bool;
  reason : TrialStartReason;
  resultTrialStatus : TrialStatus;
  resultTrialStartedAt : option Z;
  resultTrialEndsAt : option Z
}.

Definition withTrialStatus (user : User) (status : TrialStatus) : User :=
  UserLike.mkUser (UserLike._id user) (UserLike.hasAccess user) (UserLike.priceId user)
    status (UserLike.trialStartedAt user) (UserLike.trialEndsAt user).

Definition toTrialStartResult (user : User) (hasStarted hasChanged : bool)
  (reason : TrialStartReason) : TrialStartResult :=
  mkStartResult (UserLike._id user) hasStarted hasChanged reason (UserLike.trialStatus user)
    (UserLike.trialStartedAt user) (UserLike.trialEndsAt user).

(** [refreshTrialStatusIfExpired]: the document as it is left (saved
    when it changed) and the result. *)
Definition refreshTrialStatusIfExpired (user : User) (now : Z) : User * TrialRefreshResult :=
  if negb (TrialStatus_eqb (UserLike.trialStatus user) active)
  then (user, mkRefreshResult false (UserLike.trialStatus user))
  else
    let nextStatus :=
      if UserLike.hasAccess user then Some converted
      else if negb (isTrialActive user now) then Some expired
      else None in
    match nextStatus with
    | None => (user, mkRefreshResult false (UserLike.trialStatus user))
    | Some status => (withTrialStatus user status, mkRefreshResult true status)
    end.

(** [user.save()] on the collection: the document found by its id is
    replaced. *)
Fixpoint save (users : list User) (user : User) : list User :=
  match users with
  | [] => []
  | u :: rest =>
      if N.eqb (UserLike._id u) (UserLike._id user) then user :: rest
      else u :: save rest user
  end.

Section WithConfig.

Variable config : Config.

(** The steps of [startTrialForUser] on the document found. *)
Definition startTrial (found : User) (now : Z) : User * TrialStartResult :=
  let '(user, refreshResult) := refreshTrialStatusIfExpired found now in
  let changedByRefresh := refreshChanged refreshResult in
  if UserLike.hasAccess user then
    (user,
     toTrialStartResult user false changedByRefresh
       (if TrialStatus_eqb (UserLike.trialStatus user) converted
        then already_converted else paid_user))
  else if TrialStatus_eqb (UserLike.trialStatus user) converted then
    (user, toTrialStartResult user false changedByRefresh already_converted)
  else if TrialStatus_eqb (UserLike.trialStatus user) expired then
    (user, toTrialStartResult user false changedByRefresh already_expired)
  else if TrialStatus_eqb (UserLike.trialStatus user) active && isTrialActive user now then
    (user, toTrialStartResult user false changedByRefresh already_active)
  else
    let hasTrialHistory :=
      match UserLike.trialStartedAt user, UserLike.trialEndsAt user with
      | None, None => false
      | _, _ => true
      end in
    if hasTrialHistory && TrialStatus_eqb (UserLike.trialStatus user) not_started then
      let user := withTrialStatus user expired in
      (user, toTrialStartResult user false true already_expired)
    else
      let user :=
        UserLike.mkUser (UserLike._id user) (UserLike.hasAccess user) (UserLike.priceId user)
          active (Some now)
          (Some (now + cfg_trialDays (entitlements config) * MS_PER_DAY)%Z) in
      (user, toTrialStartResult user true true started).

(** [startTrialForUser] on the users collection: [None] is the thrown
    ["User not found: ..."]; the saves are taken to succeed. *)
Definition startTrialForUser (users : list User) (userId : ObjectId) (now : Z)
  : option (TrialStartResult * list User) :=
  match find (fun u => N.eqb (UserLike._id u) userId) users with
  | None => None
  | Some found =>
      let '(user, result) := startTrial found now in
      Some (result, save users user)
  end.

End WithConfig.

End Trial.

(** ** libs/crawler/discovery.ts: candidates *)

Module Discovery.

Record PricingUrlDiscoveryResult : Type := mkDiscovery {
  discoveredHomepageUrl : jsstring;
  candidates : list PricingUrlCandidate;
  recommendedPrimaryUrl : option jsstring
}.

Definition clampConfidence (value : float) : float :=
  let bounded := Num.mathMax 0 (Num.mathMin 1 value) in
  Num.toFixed2 bounded.

Definition compareCandidates (left right : PricingUrlCandidate) : comparison :=
  if Num.neqb (confidence left) (confidence right)
  then Num.sign (confidence right - confidence left)%float
  else localeCompare (url left) (url right).

Definition sortCandidates (candidates : list PricingUrlCandidate) : list PricingUrlCandidate :=
  Num.sort compareCandidates candidates.

(** One turn of the inner loop of [mergePricingUrlCandidates] on the
    map [byUrl], an association list in insertion order. *)
Definition mergeCandidate (byUrl : list PricingUrlCandidate) (candidate : PricingUrlCandidate)
  : list PricingUrlCandidate :=
  match NormalizeUrl.normalizeUrl (url candidate) with
  | None => byUrl
  | Some normalizedCandidateUrl =>
      if negb (truthy normalizedCandidateUrl) then byUrl
      else
        let confidence := clampConfidence (confidence candidate) in
        if existsb (fun existing => JS.eqb (url existing) normalizedCandidateUrl) byUrl
        then
          map (fun existing =>
                 if JS.eqb (url existing) normalizedCandidateUrl
                 then mkCandidate (url existing)
                        (Num.mathMax (Models.confidence existing) confidence)
                        (selectedByUser existing || selectedByUser candidate)
                 else existing)
            byUrl
        else byUrl ++ [mkCandidate normalizedCandidateUrl confidence (selectedByUser candidate)]
  end.

Definition mergePricingUrlCandidates (candidateLists : list (list PricingUrlCandidate))
  : list PricingUrlCandidate :=
  sortCandidates (fold_left (fold_left mergeCandidate) candidateLists []).

End Discovery.

(** ** libs/crawler/runner.ts: the per-item state machine *)

Module Runner.

Import Normalize Diff Entitlements Insight Extract Constants Discovery.

Record Snapshot : Type := mkSnapshot {
  snapshotId : ObjectId;
  snapshotUserId : ObjectId;
  snapshotCompanyId : ObjectId;
  capturedAt : Z;
  captureMethod : SnapshotCaptureMethod;
  snapshotConfidence : float;
  contentHash : jsstring;
  pricingPayload : option NormalizedPricingPayload;
  isVerified : bool
}.

Record DiffRecord : Type := mkDiffRecord {
  diffRecordId : ObjectId;
  diffUserId : ObjectId;
  diffCompanyId : ObjectId;
  previousSnapshotId : option ObjectId;
  currentSnapshotId : ObjectId;
  recordedDiff : NormalizedDiff;
  recordedSeverity : DiffSeverity;
  recordedVerificationState : DiffVerificationState;
  detectedAt : Z
}.

Record InsightRecord : Type := mkInsightRecord {
  insightId : ObjectId;
  insightFields : CreateInput
}.

Inductive CrawlErrorAuditEventType := crawl_blocked | crawl_manual_needed | crawl_error.

(** The document [logAuditEvent] creates for the runner, without the
    fields that are the same in all of them (actor, resource type,
    status and source). *)
Record AuditEvent : Type := mkAuditEvent {
  eventType : CrawlErrorAuditEventType;
  auditUserId : ObjectId;
  auditCompanyId : ObjectId;
  auditStatus : CompanyCrawlStatus;
  auditReason : option jsstring;
  auditNextCrawlAt : Z
}.

(** The collections the runner reads and writes, and the source of
    fresh document ids. *)
Record Store : Type := mkStore {
  users : list User;
  companies : list Company;
  snapshots : list Snapshot;
  diffs : list DiffRecord;
  insights : list InsightRecord;
  auditEvents : list AuditEvent;
  nextObjectId : ObjectId
}.

(** An awaited call returns or throws; what is thrown is the message of
    an [Error], or something that is not an [Error]. *)
Inductive Outcome (A : Type) : Type :=
| Returned (value : A)
| Threw (message : option jsstring).

Arguments Returned {A} value.
Arguments Threw {A} message.

Inductive StoreCall :=
| FindUser | FindPreviousSnapshot | CreateSnapshot | CreateDiff | CreateInsight.

(** The world outside the [try] block of one run: discovery, the
    network, the wall clock read by [generatePricingDiff], and the
    store calls of the block that reject. *)
Record Env : Type := mkEnv {
  discoverPricingUrlsFromHomepage : jsstring -> jsstring -> Outcome PricingUrlDiscoveryResult;
  fetch : jsstring -> FetchOutcome;
  wallClock : Z;
  storeFault : StoreCall -> option (option jsstring)
}.

Record CrawlCompanyResult : Type := mkResult {
  resultCompanyId : ObjectId;
  status : CompanyCrawlStatus;
  changed : bool;
  snapshotCreated : bool;
  diffCreated : bool;
  insightCreated : bool;
  skippedByHash : bool;
  reason : option jsstring
}.

(** The [let] variables of [processCompany]. *)
Module Locals.

Record Locals : Type := mk {
  finalStatus : CompanyCrawlStatus;
  finalErrorMessage : option jsstring;
  latestContentHash : option jsstring;
  latestConfidence : option float;
  discoveredPrimaryPricingUrl : option jsstring;
  discoveredCandidates : option (list PricingUrlCandidate);
  attemptedDiscovery : bool;
  changed : bool;
  snapshotCreated : bool;
  diffCreated : bool;
  insightCreated : bool;
  skippedByHash : bool
}.

Definition initial : Locals :=
  mk error (Some (str "Crawler failed before execution")) None None None None false
    false false false false false.

Definition finish (status : CompanyCrawlStatus) (message : option jsstring) (l : Locals)
  : Locals :=
  mk status message (latestContentHash l) (latestConfidence l)
    (discoveredPrimaryPricingUrl l) (discoveredCandidates l) (attemptedDiscovery l)
    (changed l) (snapshotCreated l) (diffCreated l) (insightCreated l) (skippedByHash l).

End Locals.

Definition toNormalizedPayload (payload : option NormalizedPricingPayload)
  : option NormalizedPricingPayload :=
  match payload with
  | None => None
  | Some p =>
      if negb (truthy (sourceUrl p)) then None
      else
        Some (canonicalizePricingPayload
                (mkPayload (sourceUrl p) (pageTitle p) (pageDescription p) (planNames p)
                   (filter (fun entry =>
                              Num.isFinite (amount entry)
                              && negb (amount entry <=? 0)%float
                              && truthy (currency entry))
                      (priceMentions p))
                   (customPricingHints p)))
  end.

Definition truncateError (value : jsstring) : jsstring :=
  if List.length value <=? 400 then value else firstn 397 value ++ str "...".

(** [SnapshotModel.findOne({ companyId }).sort({ capturedAt: -1 })]. *)
Definition latestSnapshot (store : Store) (companyId : ObjectId) : option Snapshot :=
  fold_left
    (fun best s =>
       if N.eqb (snapshotCompanyId s) companyId then
         match best with
         | Some b => if (capturedAt b <? capturedAt s)%Z then Some s else best
         | None => Some s
         end
       else best)
    (snapshots store) None.

Definition findUserById (store : Store) (id : ObjectId) : option User :=
  find (fun u => N.eqb (UserLike._id u) id) (users store).

Section WithPlatform.

Variable createContentHash : jsstring -> jsstring.
Variable config : Config.
Variable settings : Settings.
Variable env : Env.

Definition statusToNextDelayMs (status : CompanyCrawlStatus) : Z :=
  match status with
  | blocked => BLOCKED_BACKOFF_MS settings
  | manual_needed => MANUAL_NEEDED_BACKOFF_MS settings
  | error => ERROR_BACKOFF_MS settings
  | _ => SUCCESS_CRAWL_DELAY_MS settings
  end.

(** The part of the [try] block after a changed page was extracted:
    previous snapshot, new snapshot, diff and insight.  Returns the
    locals and the store as the block leaves them, and what it threw,
    if it threw. *)
Definition recordChange (company : Company) (now : Z) (user : User)
  (hash : jsstring) (payload : NormalizedPricingPayload) (confidence : float)
  (pageVerified : bool) (l : Locals.Locals) (store : Store)
  : Locals.Locals * Store * option (option jsstring) :=
  let companyId := Models._id company in
  match storeFault env FindPreviousSnapshot with
  | Some thrown => (l, store, Some thrown)
  | None =>
      let previousSnapshot := latestSnapshot store companyId in
      match storeFault env CreateSnapshot with
      | Some thrown => (l, store, Some thrown)
      | None =>
          let currentSnapshot :=
            mkSnapshot (nextObjectId store) (Models.userId company) companyId now static
              confidence hash (Some payload) pageVerified in
          let store1 :=
            mkStore (users store) (companies store) (snapshots store ++ [currentSnapshot])
              (diffs store) (insights store) (auditEvents store) (nextObjectId store + 1)%N in
          let l1 :=
            Locals.mk (Locals.finalStatus l) (Locals.finalErrorMessage l)
              (Locals.latestContentHash l) (Locals.latestConfidence l)
              (Locals.discoveredPrimaryPricingUrl l) (Locals.discoveredCandidates l)
              (Locals.attemptedDiscovery l)
              true true (Locals.diffCreated l) (Locals.insightCreated l)
              (Locals.skippedByHash l) in
          let done := (Locals.finish ok None l1, store1, None) in
          match previousSnapshot with
          | None => done
          | Some previous =>
              match toNormalizedPayload (pricingPayload previous) with
              | None => done
              | Some previousPayload =>
                  match generatePricingDiff previousPayload payload pageVerified (wallClock env) with
                  | None => done
                  | Some diff =>
                      match storeFault env CreateDiff with
                      | Some thrown => (l1, store1, Some thrown)
                      | None =>
                          let diffRecord :=
                            mkDiffRecord (nextObjectId store1) (Models.userId company) companyId
                              (Some (snapshotId previous)) (snapshotId currentSnapshot)
                              (normalizedDiff diff) (severity diff) (verificationState diff)
                              now in
                          let store2 :=
                            mkStore (users store1) (companies store1) (snapshots store1)
                              (diffs store1 ++ [diffRecord]) (insights store1)
                              (auditEvents store1) (nextObjectId store1 + 1)%N in
                          let l2 :=
                            Locals.mk (Locals.finalStatus l1) (Locals.finalErrorMessage l1)
                              (Locals.latestContentHash l1) (Locals.latestConfidence l1)
                              (Locals.discoveredPrimaryPricingUrl l1)
                              (Locals.discoveredCandidates l1) (Locals.attemptedDiscovery l1)
                              true true true (Locals.insightCreated l1)
                              (Locals.skippedByHash l1) in
                          let insight :=
                            buildInsightFromDiff config
                              (mkInput user companyId (diffRecordId diffRecord) (severity diff)
                                 (verificationState diff) (normalizedDiff diff) now) in
                          match shouldCreate insight, createInput insight with
                          | true, Some input =>
                              match storeFault env CreateInsight with
                              | Some thrown => (l2, store2, Some thrown)
                              | None =>
                                  let store3 :=
                                    mkStore (users store2) (companies store2) (snapshots store2)
                                      (diffs store2)
                                      (insights store2
                                       ++ [mkInsightRecord (nextObjectId store2) input])
                                      (auditEvents store2) (nextObjectId store2 + 1)%N in
                                  let l3 :=
                                    Locals.mk (Locals.finalStatus l2)
                                      (Locals.finalErrorMessage l2)
                                      (Locals.latestContentHash l2)
                                      (Locals.latestConfidence l2)
                                      (Locals.discoveredPrimaryPricingUrl l2)
                                      (Locals.discoveredCandidates l2)
                                      (Locals.attemptedDiscovery l2)
                                      true true true true (Locals.skippedByHash l2) in
                                  (Locals.finish ok None l3, store3, None)
                              end
                          | _, _ => (Locals.finish ok None l2, store2, None)
                          end
                      end
                  end
              end
          end
      end
  end.

(** The [try] block from the entitlement check on, the source URL known. *)
Definition crawlSource (company : Company) (now : Z) (sourceUrl : jsstring)
  (l : Locals.Locals) (store : Store) : Locals.Locals * Store * option (option jsstring) :=
  match storeFault env FindUser with
  | Some thrown => (l, store, Some thrown)
  | None =>
      match findUserById store (Models.userId company) with
      | None => (Locals.finish error (Some (str "User not found for company")) l, store, None)
      | Some user =>
          let entitlements := resolveEntitlements config user now in
          if negb (hasAccess entitlements) then
            (Locals.finish idle (Some (str "User is not eligible for competitor crawling")) l,
             store, None)
          else
            match fetchAndExtractPricing createContentHash (fetch env) settings sourceUrl with
            | CrawlExtractionFailure failureStatus failureError =>
                (Locals.finish failureStatus (Some failureError) l, store, None)
            | CrawlExtractionSuccess hash payload confidence pageVerified =>
                let l1 :=
                  Locals.mk (Locals.finalStatus l) (Locals.finalErrorMessage l)
                    (Some hash) (Some confidence)
                    (Locals.discoveredPrimaryPricingUrl l) (Locals.discoveredCandidates l)
                    (Locals.attemptedDiscovery l) (Locals.changed l)
                    (Locals.snapshotCreated l) (Locals.diffCreated l)
                    (Locals.insightCreated l) (Locals.skippedByHash l) in
                if truthy_opt (Models.latestContentHash company)
                   && CronAuth.strict_eq (Models.latestContentHash company) hash
                then
                  (Locals.mk ok None (Some hash) (Some confidence)
                     (Locals.discoveredPrimaryPricingUrl l) (Locals.discoveredCandidates l)
                     (Locals.attemptedDiscovery l) (Locals.changed l)
                     (Locals.snapshotCreated l) (Locals.diffCreated l)
                     (Locals.insightCreated l) true,
                   store, None)
                else recordChange company now user hash payload confidence pageVerified l1 store
            end
      end
  end.

(** The [try] block. *)
Definition tryBlock (company : Company) (now : Z) (store : Store)
  : Locals.Locals * Store * option (option jsstring) :=
  let l0 := Locals.initial in
  let sourceUrl0 := primaryPricingUrl company in
  let resolved : Locals.Locals * option jsstring * option (option jsstring) :=
    if negb (truthy_opt sourceUrl0) && truthy_opt (homepageUrl company) then
      let l1 :=
        Locals.mk (Locals.finalStatus l0) (Locals.finalErrorMessage l0) None None None None
          true false false false false false in
      match discoverPricingUrlsFromHomepage env
              (match homepageUrl company with Some h => h | None => [] end)
              (domain company)
      with
      | Threw thrown => (l1, sourceUrl0, Some thrown)
      | Returned discovery =>
          let l2 :=
            Locals.mk (Locals.finalStatus l1) (Locals.finalErrorMessage l1) None None
              (recommendedPrimaryUrl discovery)
              (Some (mergePricingUrlCandidates
                       [pricingUrlCandidates company; candidates discovery]))
              true false false false false false in
          (l2,
           if truthy_opt (recommendedPrimaryUrl discovery)
           then recommendedPrimaryUrl discovery else sourceUrl0,
           None)
      end
    else (l0, sourceUrl0, None) in
  match resolved with
  | (l, _, Some thrown) => (l, store, Some thrown)
  | (l, sourceUrl, None) =>
      match sourceUrl with
      | Some source =>
          if truthy source then crawlSource company now source l store
          else (Locals.finish manual_needed (Some (str "No crawl URL is available")) l,
                store, None)
      | None =>
          (Locals.finish manual_needed (Some (str "No crawl URL is available")) l, store, None)
      end
  end.

(** The [catch] clause. *)
Definition catchClause (thrown : option jsstring) (l : Locals.Locals) : Locals.Locals :=
  Locals.finish error
    (Some (match thrown with Some message => message | None => str "Unexpected crawler error" end))
    l.

(** The update of the [finally] block, applied to the stored document. *)
Definition finalUpdate (company : Company) (now : Z) (l : Locals.Locals) (stored : Company)
  : Company :=
  let nextCrawlAt := (now + statusToNextDelayMs (Locals.finalStatus l))%Z in
  mkCompany (Models._id stored) (Models.userId stored) (companyType stored) (domain stored)
    (homepageUrl stored)
    (if negb (truthy_opt (primaryPricingUrl company))
        && truthy_opt (Locals.discoveredPrimaryPricingUrl l)
     then Locals.discoveredPrimaryPricingUrl l else primaryPricingUrl stored)
    (if Locals.attemptedDiscovery l
     then match Locals.discoveredCandidates l with
          | Some merged => merged
          | None => pricingUrlCandidates company
          end
     else pricingUrlCandidates stored)
    (Some nextCrawlAt)
    None
    (Some now)
    (Locals.finalStatus l)
    (if truthy_opt (Locals.finalErrorMessage l)
     then option_map truncateError (Locals.finalErrorMessage l) else None)
    (match Locals.latestContentHash l with
     | Some hash => Some hash
     | None => Models.latestContentHash stored
     end)
    (match Locals.latestConfidence l with
     | Some c => Some c
     | None => Models.latestConfidence stored
     end).

Definition auditEventTypeByStatus (status : CompanyCrawlStatus)
  : option CrawlErrorAuditEventType :=
  match status with
  | blocked => Some crawl_blocked
  | manual_needed => Some crawl_manual_needed
  | error => Some crawl_error
  | _ => None
  end.

(** libs/audit.ts: a string of the metadata is kept up to
    [MAX_STRING_LENGTH] code units. *)
Definition MAX_STRING_LENGTH : nat := 500.

Definition sanitizeString (value : jsstring) : jsstring :=
  if List.length value <=? MAX_STRING_LENGTH then value
  else firstn (MAX_STRING_LENGTH - 3) value ++ str "...".

(** What the two awaits of the [finally] block meet:
    [Company.updateOne] rejects with [updateError], and the write
    inside [logAuditEvent] fails when [auditWriteFails]. *)
Record FinalWrites : Type := mkFinalWrites {
  updateError : option (option jsstring);
  auditWriteFails : bool
}.

Definition writesGoThrough : FinalWrites := mkFinalWrites None false.

(** [Company.updateOne({ _id: companyId }, updatePayload)]. *)
Definition updateCompany (company : Company) (now : Z) (l : Locals.Locals) (store : Store)
  : Store :=
  mkStore (users store)
    (map (fun stored => if N.eqb (Models._id stored) (Models._id company)
                        then finalUpdate company now l stored else stored)
       (companies store))
    (snapshots store) (diffs store) (insights store) (auditEvents store)
    (nextObjectId store).

(** [createAuditEventSafe], for a status that asks for an event:
    [logAuditEvent] sanitizes the metadata and swallows a write that
    fails. *)
Definition logCrawlFailure (writes : FinalWrites) (company : Company) (now : Z)
  (l : Locals.Locals) (store : Store) : Store :=
  let nextCrawlAt := (now + statusToNextDelayMs (Locals.finalStatus l))%Z in
  match auditEventTypeByStatus (Locals.finalStatus l) with
  | Some eventType =>
      if auditWriteFails writes then store
      else
        mkStore (users store) (companies store) (snapshots store) (diffs store)
          (insights store)
          (auditEvents store
           ++ [mkAuditEvent eventType (Models.userId company) (Models._id company)
                 (Locals.finalStatus l)
                 (option_map sanitizeString (Locals.finalErrorMessage l)) nextCrawlAt])
          (nextObjectId store)
  | None => store
  end.

(** The [finally] block: the store as it leaves it, and what it throws
    when the update rejects. *)
Definition finallyBlock (writes : FinalWrites) (company : Company) (now : Z)
  (l : Locals.Locals) (store : Store) : Store * option (option jsstring) :=
  match updateError writes with
  | Some rejected => (store, Some rejected)
  | None => (logCrawlFailure writes company now l (updateCompany company now l store), None)
  end.

(** The locals when the [finally] block is entered, and the store. *)
Definition beforeFinally (company : Company) (now : Z) (store : Store)
  : Locals.Locals * Store :=
  let '(l, store1, thrown) := tryBlock company now store in
  (match thrown with Some t => catchClause t l | None => l end, store1).

(** The value of the [return] statements. *)
Definition resultOf (company : Company) (l : Locals.Locals) : CrawlCompanyResult :=
  mkResult (Models._id company) (Locals.finalStatus l) (Locals.changed l)
    (Locals.snapshotCreated l) (Locals.diffCreated l) (Locals.insightCreated l)
    (Locals.skippedByHash l) (Locals.finalErrorMessage l).

(** [processCompany]: it returns its result, or rejects with what the
    [finally] block threw. *)
Definition processCompany (writes : FinalWrites) (company : Company) (now : Z)
  (store : Store) : Outcome CrawlCompanyResult * Store :=
  let '(l, store1) := beforeFinally company now store in
  match finallyBlock writes company now l store1 with
  | (store2, Some rejected) => (Threw rejected, store2)
  | (store2, None) => (Returned (resultOf company l), store2)
  end.

(** A run of [processCompany] whose final writes go through: the
    locals at its end, the result it returns and the store it leaves. *)
Record Run : Type := mkRun {
  locals : Locals.Locals;
  result : CrawlCompanyResult;
  storeAfter : Store
}.

Definition processCompanyRun (company : Company) (now : Z) (store : Store) : Run :=
  let '(l, store1, thrown) := tryBlock company now store in
  let l1 := match thrown with Some t => catchClause t l | None => l end in
  mkRun l1
    (mkResult (Models._id company) (Locals.finalStatus l1) (Locals.changed l1)
       (Locals.snapshotCreated l1) (Locals.diffCreated l1) (Locals.insightCreated l1)
       (Locals.skippedByHash l1) (Locals.finalErrorMessage l1))
    (fst (finallyBlock writesGoThrough company now l1 store1)).

End WithPlatform.

End Runner.

(** ** libs/crawler/runner.ts: claiming and the batch *)

Module Batch.

Import Constants Runner.

(** [clampBatchLimit].  A limit is an integer here, as every caller in
    the repository passes one; [None] is [undefined]. *)
Definition clampBatchLimit (settings : Settings) (value : option Z) : Z :=
  match value with
  | None => CRAWL_BATCH_LIMIT settings
  | Some v =>
      if (v <=? 0)%Z then CRAWL_BATCH_LIMIT settings
      else Z.min v MAX_CRAWL_BATCH_LIMIT
  end.

(** [leaseFilter(now)] as a test on a document: a competitor that is
    due and carries no lease beyond [now]. *)
Definition leaseFilter (now : Z) (company : Company) : bool :=
  CompanyType_eqb (companyType company) competitor
  && match nextCrawlAt company with None => true | Some t => (t <=? now)%Z end
  && match crawlLeaseUntil company with None => true | Some t => (t <=? now)%Z end.

(** [updatedAt], kept by the schema's timestamps, by document id. *)
Definition Stamps : Type := ObjectId -> Z.

Definition touch (stamps : Stamps) (id : ObjectId) (time : Z) : Stamps :=
  fun other => if N.eqb other id then time else stamps other.

(** The order of [sort: { nextCrawlAt: 1, updatedAt: 1 }]: a missing
    [nextCrawlAt] sorts before every date. *)
Definition sortsBefore (stamps : Stamps) (a b : Company) : bool :=
  match nextCrawlAt a, nextCrawlAt b with
  | None, Some _ => true
  | Some _, None => false
  | None, None => (stamps (_id a) <? stamps (_id b))%Z
  | Some x, Some y =>
      (x <? y)%Z || ((x =? y)%Z && (stamps (_id a) <? stamps (_id b))%Z)
  end.

(** The document [findOneAndUpdate] settles on, with its position:
    the first in the sort order among those the filter lets through,
    the earlier in the collection among equals. *)
Fixpoint firstDue (stamps : Stamps) (now : Z) (companies : list Company) (position : nat)
  (best : option (nat * Company)) : option (nat * Company) :=
  match companies with
  | [] => best
  | company :: rest =>
      firstDue stamps now rest (S position)
        (if leaseFilter now company then
           match best with
           | None => Some (position, company)
           | Some (_, chosen) =>
               if sortsBefore stamps company chosen then Some (position, company) else best
           end
         else best)
  end.

Fixpoint replaceAt (position : nat) (doc : Company) (companies : list Company)
  : list Company :=
  match companies, position with
  | [], _ => []
  | _ :: rest, O => doc :: rest
  | company :: rest, S position' => company :: replaceAt position' doc rest
  end.

Definition withLease (company : Company) (leaseUntil : Z) : Company :=
  mkCompany (_id company) (userId company) (companyType company) (domain company)
    (homepageUrl company) (primaryPricingUrl company) (pricingUrlCandidates company)
    (nextCrawlAt company) (Some leaseUntil) (lastCrawlAt company) (lastCrawlStatus company)
    (lastCrawlError company) (latestContentHash company) (latestConfidence company).

(** The loop of [claimCompanies] from turn [index], with [remaining]
    turns to go; [writeClock] tells when the update of a turn is
    applied.  Returns the claimed documents, as updated, and the
    collection and its stamps as left. *)
Fixpoint claimLoop (remaining index : nat) (now leaseUntil : Z) (writeClock : nat -> Z)
  (companies : list Company) (stamps : Stamps) : list Company * list Company * Stamps :=
  match remaining with
  | O => ([], companies, stamps)
  | S remaining' =>
      match firstDue stamps now companies 0 None with
      | None => ([], companies, stamps)
      | Some (position, company) =>
          let claimed := withLease company leaseUntil in
          let '(more, companies', stamps') :=
            claimLoop remaining' (S index) now leaseUntil writeClock
              (replaceAt position claimed companies)
              (touch stamps (_id company) (writeClock index)) in
          (claimed :: more, companies', stamps')
      end
  end.

Definition claimCompanies (settings : Settings) (limit : Z) (now : Z)
  (writeClock : nat -> Z) (companies : list Company) (stamps : Stamps)
  : list Company * list Company * Stamps :=
  claimLoop (Z.to_nat limit) 0 now (now + CRAWL_LEASE_MS settings)%Z writeClock
    companies stamps.

Record CrawlBatchResult : Type := mkBatchResult {
  startedAt : Z;
  completedAt : Z;
  limit : Z;
  claimed : nat;
  processed : nat;
  changed : nat;
  unchanged : nat;
  snapshotsCreated : nat;
  diffsCreated : nat;
  insightsCreated : nat;
  blocked : nat;
  manualNeeded : nat;
  errored : nat;
  items : list CrawlCompanyResult
}.

Definition CompanyCrawlStatus_eqb (a b : CompanyCrawlStatus) : bool :=
  match a, b with
  | idle, idle | ok, ok | Models.blocked, Models.blocked
  | manual_needed, manual_needed | error, error => true
  | _, _ => false
  end.

Definition count (flag : bool) : nat := if flag then 1%nat else 0%nat.

(** The [let] variables of [runCrawlBatch]. *)
Module Tallies.

Record Tallies : Type := mk {
  items : list CrawlCompanyResult;
  changed : nat;
  unchanged : nat;
  snapshotsCreated : nat;
  diffsCreated : nat;
  insightsCreated : nat;
  blocked : nat;
  manualNeeded : nat;
  errored : nat
}.

Definition initial : Tallies := mk [] 0 0 0 0 0 0 0 0.

End Tallies.

(** One turn of the loop of [runCrawlBatch] on its variables. *)
Definition tally (t : Tallies.Tallies) (result : CrawlCompanyResult) : Tallies.Tallies :=
  Tallies.mk
    (Tallies.items t ++ [result])
    (Tallies.changed t + count (Runner.changed result))
    (Tallies.unchanged t + count (negb (Runner.changed result)))
    (Tallies.snapshotsCreated t + count (snapshotCreated result))
    (Tallies.diffsCreated t + count (diffCreated result))
    (Tallies.insightsCreated t + count (insightCreated result))
    (Tallies.blocked t + count (CompanyCrawlStatus_eqb (status result) Models.blocked))
    (Tallies.manualNeeded t + count (CompanyCrawlStatus_eqb (status result) manual_needed))
    (Tallies.errored t + count (CompanyCrawlStatus_eqb (status result) error)).

(** The store calls of a batch that reject, beyond those inside the
    [try] blocks of its runs: [connectMongo] with [connectError], the
    query of claim turn [k] with [claimError k], and the final writes
    of the run of turn [k] as [finalWritesAt k] tells. *)
Record Faults : Type := mkFaults {
  connectError : option (option jsstring);
  claimError : nat -> option (option jsstring);
  finalWritesAt : nat -> FinalWrites
}.

Definition noFaults : Faults := mkFaults None (fun _ => None) (fun _ => writesGoThrough).

(** The loop of [claimCompanies] with queries that may reject: what
    was claimed up to there stays claimed. *)
Fixpoint claimLoopUnder (faults : Faults) (remaining index : nat) (now leaseUntil : Z)
  (writeClock : nat -> Z) (companies : list Company) (stamps : Stamps)
  : list Company * list Company * Stamps * option (option jsstring) :=
  match remaining with
  | O => ([], companies, stamps, None)
  | S remaining' =>
      match claimError faults index with
      | Some rejected => ([], companies, stamps, Some rejected)
      | None =>
          match firstDue stamps now companies 0 None with
          | None => ([], companies, stamps, None)
          | Some (position, company) =>
              let claimed := withLease company leaseUntil in
              let '(more, companies', stamps', rejected) :=
                claimLoopUnder faults remaining' (S index) now leaseUntil writeClock
                  (replaceAt position claimed companies)
                  (touch stamps (_id company) (writeClock index)) in
              (claimed :: more, companies', stamps', rejected)
          end
      end
  end.

Section WithPlatform.

Variable createContentHash : jsstring -> jsstring.
Variable config : Entitlements.Config.
Variable settings : Settings.

(** What each turn of the loop meets: the world of the run and the
    clock read for it. *)
Variable envAt : nat -> Env.
Variable itemTime : nat -> Z.

(** The loop over the claimed companies, from turn [index]. *)
Fixpoint processClaimed (claimedCompanies : list Company) (index : nat)
  (t : Tallies.Tallies) (store : Store) : Tallies.Tallies * Store :=
  match claimedCompanies with
  | [] => (t, store)
  | company :: rest =>
      let run :=
        processCompanyRun createContentHash config settings (envAt index) company
          (itemTime index) store in
      processClaimed rest (S index) (tally t (result run)) (storeAfter run)
  end.

(** [runCrawlBatch] when none of its store calls outside the [try]
    blocks rejects: [limitOption] and [startedAtDate] are the options
    as resolved, [finishedAt] the clock read for [completedAt]. *)
Definition runCrawlBatch (limitOption : option Z) (startedAtDate finishedAt : Z)
  (writeClock : nat -> Z) (stamps : Stamps) (store : Store) : CrawlBatchResult * Store :=
  let limit := clampBatchLimit settings limitOption in
  let '(claimedCompanies, companies', _) :=
    claimCompanies settings limit startedAtDate writeClock (companies store) stamps in
  let store1 :=
    mkStore (users store) companies' (snapshots store) (diffs store) (insights store)
      (auditEvents store) (nextObjectId store) in
  let '(t, store2) := processClaimed claimedCompanies 0 Tallies.initial store1 in
  (mkBatchResult startedAtDate finishedAt limit (List.length claimedCompanies)
     (List.length (Tallies.items t)) (Tallies.changed t) (Tallies.unchanged t)
     (Tallies.snapshotsCreated t) (Tallies.diffsCreated t) (Tallies.insightsCreated t)
     (Tallies.blocked t) (Tallies.manualNeeded t) (Tallies.errored t) (Tallies.items t),
   store2).

(** The loop over the claimed companies, a run of which may reject:
    the loop stops there and the batch rejects. *)
Fixpoint processClaimedUnder (faults : Faults) (claimedCompanies : list Company)
  (index : nat) (t : Tallies.Tallies) (store : Store) : Outcome Tallies.Tallies * Store :=
  match claimedCompanies with
  | [] => (Returned t, store)
  | company :: rest =>
      match processCompany createContentHash config settings (envAt index)
              (finalWritesAt faults index) company (itemTime index) store
      with
      | (Returned result, store') =>
          processClaimedUnder faults rest (S index) (tally t result) store'
      | (Threw rejected, store') => (Threw rejected, store')
      end
  end.

(** [runCrawlBatch]: it returns its result, or rejects with what one
    of its store calls threw, the store being as it was left then. *)
Definition runCrawlBatchUnder (faults : Faults) (limitOption : option Z)
  (startedAtDate finishedAt : Z) (writeClock : nat -> Z) (stamps : Stamps) (store : Store)
  : Outcome CrawlBatchResult * Store :=
  match connectError faults with
  | Some rejected => (Threw rejected, store)
  | None =>
      let limit := clampBatchLimit settings limitOption in
      let '(claimedCompanies, companies', _, rejected) :=
        claimLoopUnder faults (Z.to_nat limit) 0 startedAtDate
          (startedAtDate + CRAWL_LEASE_MS settings)%Z writeClock (companies store) stamps in
      let store1 :=
        mkStore (users store) companies' (snapshots store) (diffs store) (insights store)
          (auditEvents store) (nextObjectId store) in
      match rejected with
      | Some thrown => (Threw thrown, store1)
      | None =>
          match processClaimedUnder faults claimedCompanies 0 Tallies.initial store1 with
          | (Returned t, store2) =>
              (Returned
                 (mkBatchResult startedAtDate finishedAt limit (List.length claimedCompanies)
                    (List.length (Tallies.items t)) (Tallies.changed t) (Tallies.unchanged t)
                    (Tallies.snapshotsCreated t) (Tallies.diffsCreated t)
                    (Tallies.insightsCreated t) (Tallies.blocked t) (Tallies.manualNeeded t)
                    (Tallies.errored t) (Tallies.items t)),
               store2)
          | (Threw thrown, store2) => (Threw thrown, store2)
          end
      end
  end.

End WithPlatform.

End Batch.

(** ** models/CronRunLock.ts and libs/cron-lock.ts *)

Module CronLock.

(** A document of the collection.  The schema trims [key] and
    [ownerId] when they are set, and declares [key] unique. *)
Record CronRunLock : Type := mkLock {
  lockKey : jsstring;
  ownerId : jsstring;
  lockUntil : option Z;
  lockedAt : Z;
  lastReleasedAt : option Z
}.

Record AcquireCronLockResult : Type := mkAcquired {
  acquired : bool;
  resultOwnerId : jsstring;
  resultLockUntil : Z;
  retryAfterSeconds : Z
}.

(** The filter of the first [findOneAndUpdate]: the key, and a
    [lockUntil] that is past or missing. *)
Definition claimable (key : jsstring) (now : Z) (lock : CronRunLock) : bool :=
  JS.eqb (lockKey lock) key
  && match lockUntil lock with Some t => (t <=? now)%Z | None => true end.

(** An update of the first document the filter lets through; [None]
    when it lets none through. *)
Fixpoint updateFirst (matches : CronRunLock -> bool) (change : CronRunLock -> CronRunLock)
  (locks : list CronRunLock) : option (list CronRunLock) :=
  match locks with
  | [] => None
  | lock :: rest =>
      if matches lock then Some (change lock :: rest)
      else option_map (cons lock) (updateFirst matches change rest)
  end.

(** [Math.ceil(ms / 1000)] on a non-negative integer. *)
Definition ceilSeconds (ms : Z) : Z := ((ms + 999) / 1000)%Z.

(** [acquireCronLock] on the collection, with the clock and the
    identifier it draws.  [None] stands for a thrown error; the store
    calls are taken to fail on a duplicate key only. *)
Definition acquireCronLock (locks : list CronRunLock) (key : jsstring) (ttlMs : Z)
  (now : Z) (drawnOwnerId : jsstring)
  : option (AcquireCronLockResult * list CronRunLock) :=
  let until := (now + ttlMs)%Z in
  let mine := mkAcquired true drawnOwnerId until 0 in
  match updateFirst (claimable key now)
          (fun lock =>
             mkLock (lockKey lock) (trim drawnOwnerId) (Some until) now (lastReleasedAt lock))
          locks
  with
  | Some claimedExistingLock => Some (mine, claimedExistingLock)
  | None =>
      if negb (existsb (fun lock => JS.eqb (lockKey lock) (trim key)) locks) then
        Some (mine, locks ++ [mkLock (trim key) (trim drawnOwnerId) (Some until) now None])
      else
        match find (fun lock => JS.eqb (lockKey lock) key) locks with
        | None => Some (mine, locks)
        | Some existingLock =>
            match lockUntil existingLock with
            | None => None
            | Some existingUntil =>
                let retryAfterMs := Z.max (existingUntil - now) 0 in
                Some (mkAcquired false (ownerId existingLock) existingUntil
                        (ceilSeconds retryAfterMs),
                      locks)
            end
        end
  end.

(** [releaseCronLock]; the two clock reads of the update are
    [until] and [releasedAt]. *)
Definition releaseCronLock (locks : list CronRunLock) (key owner : jsstring)
  (until releasedAt : Z) : list CronRunLock :=
  match updateFirst
          (fun lock => JS.eqb (lockKey lock) key && JS.eqb (ownerId lock) owner)
          (fun lock =>
             mkLock (lockKey lock) (ownerId lock) (Some until) (lockedAt lock)
               (Some releasedAt))
          locks
  with
  | Some released => released
  | None => locks
  end.

End CronLock.

(** ** app/api/cron/crawl/route.ts *)

Module CronCrawl.

Import CronAuth CronLock Constants Runner Batch.

Definition CRAWL_CRON_LOCK_KEY : jsstring := str "cron:crawl".
Definition CRAWL_CRON_LOCK_TTL_MS : Z := 8 * 60 * 1000.

(** [Number.parseInt(raw, 10)]: leading white space, a sign, the
    digits; [None] is NaN.  The integer is the exact one of the
    digits. *)
Definition parseInt10 (raw : jsstring) : option Z :=
  let text := trimStart raw in
  let '(negative, unsigned) :=
    match text with
    | 45%N :: rest => (true, rest)
    | 43%N :: rest => (false, rest)
    | _ => (false, text)
    end in
  match fst (PriceScan.takeDigits unsigned) with
  | [] => None
  | digits =>
      Some (if negative then (- PriceScan.digitsValue digits)%Z
            else PriceScan.digitsValue digits)
  end.

(** The integers that round to an infinity as binary64 numbers. *)
Definition overflows (n : Z) : bool := (2 ^ 1024 - 2 ^ 970 <=? Z.abs n)%Z.

Definition parseLimit (settings : Settings) (raw : option jsstring) : Z :=
  let fallback :=
    if (CRAWL_BATCH_LIMIT settings =? 0)%Z then DEFAULT_CRAWL_BATCH_LIMIT
    else CRAWL_BATCH_LIMIT settings in
  match raw with
  | None => fallback
  | Some text =>
      if negb (truthy text) then fallback
      else
        match parseInt10 text with
        | None => fallback
        | Some parsed =>
            if overflows parsed || (parsed <=? 0)%Z then fallback
            else Z.min parsed MAX_CRAWL_BATCH_LIMIT
        end
  end.

(** The four answers of [handle]. *)
Inductive Reply : Type :=
| Rejected (response : NextResponse)
| Skipped (retryAfterSeconds lockUntil : Z)
| Completed (result : CrawlBatchResult)
| Failed (message : jsstring).

Definition replyStatus (reply : Reply) : Z :=
  match reply with
  | Rejected response => JS.status response
  | Skipped _ _ => 202
  | Completed _ => 200
  | Failed _ => 500
  end.

(** What one request meets: the query parameter, whether connecting
    to the store fails, the clock and the identifier drawn in
    [acquireCronLock], what [acquireCronLock] throws if it throws, the
    store calls of the batch that reject, the worlds and clocks of the
    batch, whether the release rejects, and the two clock reads of
    the release.  An error thrown is the message of an [Error], or
    something that is not an [Error]. *)
Record World : Type := mkWorld {
  limitParam : option jsstring;
  connectFault : option (option jsstring);
  lockClock : Z;
  drawnOwnerId : jsstring;
  lockFault : option jsstring;
  batchFaults : Faults;
  batchStartedAt : Z;
  batchFinishedAt : Z;
  writeClock : nat -> Z;
  envAt : nat -> Env;
  itemTime : nat -> Z;
  releaseError : option (option jsstring);
  releaseClock : Z;
  releasedAtClock : Z
}.

Definition failure (thrown : option jsstring) : Reply :=
  Failed (match thrown with
          | Some message => message
          | None => str "Failed to run crawl batch"
          end).

Section WithPlatform.

Variable createContentHash : jsstring -> jsstring.
Variable config : Entitlements.Config.
Variable settings : Settings.
Variable CRON_SECRET : option jsstring.

(** [handle] on the lock collection and the store.  The [finally]
    block runs whether the batch returned or rejected; when the
    release itself rejects, its error is the one the outer [catch]
    sees, and the lock stays as acquired. *)
Definition handle (world : World) (request : NextRequest)
  (locks : list CronRunLock) (stamps : Stamps) (store : Store)
  : Reply * list CronRunLock * Store :=
  match requireCronAuth CRON_SECRET request with
  | Some unauthorizedResponse => (Rejected unauthorizedResponse, locks, store)
  | None =>
      match connectFault world with
      | Some thrown => (failure thrown, locks, store)
      | None =>
          match acquireCronLock locks CRAWL_CRON_LOCK_KEY CRAWL_CRON_LOCK_TTL_MS
                  (lockClock world) (drawnOwnerId world)
          with
          | None => (failure (lockFault world), locks, store)
          | Some (lock, locks1) =>
              if negb (acquired lock) then
                (Skipped (CronLock.retryAfterSeconds lock) (resultLockUntil lock),
                 locks1, store)
              else
                let limit := parseLimit settings (limitParam world) in
                let '(outcome, store') :=
                  runCrawlBatchUnder createContentHash config settings (envAt world)
                    (itemTime world) (batchFaults world) (Some limit) (batchStartedAt world)
                    (batchFinishedAt world) (writeClock world) stamps store in
                match releaseError world with
                | Some rejected => (failure rejected, locks1, store')
                | None =>
                    let locks2 :=
                      releaseCronLock locks1 CRAWL_CRON_LOCK_KEY (resultOwnerId lock)
                        (releaseClock world) (releasedAtClock world) in
                    match outcome with
                    | Returned result => (Completed result, locks2, store')
                    | Threw thrown => (failure thrown, locks2, store')
                    end
                end
          end
      end
  end.

End WithPlatform.

End CronCrawl.

(** ** app/api/companies/[companyId]/crawl-now/route.ts *)

Module CrawlNow.

(** What the handler reads from its collaborators: the session, the
    validity of the path parameter, the rate limiter's answer, the
    clock, and whether an awaited store call rejects. *)
Record Env : Type := mkEnv {
  sessionUserId : option ObjectId;
  companyId : ObjectId;
  companyIdValid : bool;
  rateLimitAllowed : bool;
  retryAfterSeconds : Z;
  now : Z;
  storeFault : bool
}.

(** [String(n)] for an integer of at most twenty digits. *)
Definition numberText (n : Z) : jsstring :=
  (if (n <? 0)%Z then str "-" else []) ++ URL.decimalDigits 20 (Z.to_N (Z.abs n)).

Definition findOne (db : list Company) (id owner : ObjectId) : option Company :=
  find (fun c => N.eqb (_id c) id && N.eqb (userId c) owner) db.

Definition save (db : list Company) (doc : Company) : list Company :=
  map (fun c => if N.eqb (_id c) (_id doc) then doc else c) db.

Definition json_opt_date (d : option Z) : Json :=
  match d with Some t => JDate t | None => JNull end.

(** Lines 172-193: the scheduling step on the loaded document.  Returns
    the document as saved and the response. *)
Definition schedule (company : Company) (now : Z) : Company * NextResponse :=
  let leaseUntil := crawlLeaseUntil company in
  let hasLease := match leaseUntil with Some _ => true | None => false end in
  let leaseIsActive :=
    match leaseUntil with Some t => (now <? t)%Z | None => false end in
  let shouldClearLease := hasLease && negb leaseIsActive in
  let company1 :=
    mkCompany (_id company) (userId company) (companyType company) (domain company)
      (homepageUrl company) (primaryPricingUrl company) (pricingUrlCandidates company)
      (Some now)
      (if shouldClearLease then None else crawlLeaseUntil company)
      (lastCrawlAt company) (lastCrawlStatus company) (lastCrawlError company)
      (latestContentHash company) (latestConfidence company) in
  (company1,
   json_response
        [("companyId"%string, JInt (Z.of_N (_id company1)));
         ("scheduled"%string, JBool true);
         ("nextCrawlAt"%string, json_opt_date (nextCrawlAt company1));
         ("crawlLeaseUntil"%string, json_opt_date (crawlLeaseUntil company1));
         ("leaseState"%string,
          JString (if leaseIsActive then str "active"
                   else if hasLease then str "stale_or_expired" else str "none"));
         ("leaseCleared"%string, JBool shouldClearLease)]
     200).

Definition error_response (message : string) (st : Z) : NextResponse :=
  json_response [("error"%string, JString (str message))] st.

Definition POST (env : Env) (db : list Company) : NextResponse * list Company :=
  match sessionUserId env with
  | None => (error_response "Not signed in" 401, db)
  | Some user =>
      if negb (companyIdValid env) then (error_response "Invalid companyId" 400, db)
      else if storeFault env then (error_response "Failed to schedule crawl" 500, db)
      else if negb (rateLimitAllowed env) then
        (mkResponse 429
           [("error"%string, JString (str "Too many crawl-now requests"));
            ("retryAfterSeconds"%string, JInt (retryAfterSeconds env))]
           [("Retry-After"%string, numberText (retryAfterSeconds env))],
         db)
      else
        match findOne db (companyId env) user with
        | None => (error_response "Company not found" 404, db)
        | Some company =>
            if negb (CompanyType_eqb (companyType company) competitor) then
              (error_response "crawl-now is only available for competitor companies" 400, db)
            else
              let '(saved, response) := schedule company (now env) in
              (response, save db saved)
        end
  end.

End CrawlNow.

(** ** app/api/companies/[companyId]/retry-crawl/route.ts *)

Module RetryCrawl.

Import CrawlNow.

(** The step on the loaded document: the document to save, if the
    handler saves, and the response. *)
Definition retry (company : Company) (now : Z) : option Company * NextResponse :=
  let leaseUntil := crawlLeaseUntil company in
  let hasLease := match leaseUntil with Some _ => true | None => false end in
  let leaseIsActive :=
    match leaseUntil with Some t => (now <? t)%Z | None => false end in
  if leaseIsActive then
    (None,
     json_response
       [("error"%string, JString (str "Cannot retry while a crawl lease is active"));
        ("leaseState"%string, JString (str "active"));
        ("crawlLeaseUntil"%string, json_opt_date leaseUntil)]
       409)
  else
    let company1 :=
      mkCompany (_id company) (userId company) (companyType company) (domain company)
        (homepageUrl company) (primaryPricingUrl company) (pricingUrlCandidates company)
        (Some now)
        (if hasLease then None else crawlLeaseUntil company)
        (lastCrawlAt company) idle None
        (latestContentHash company) (latestConfidence company) in
    (Some company1,
     json_response
       [("companyId"%string, JInt (Z.of_N (_id company1)));
        ("retried"%string, JBool true);
        ("lastCrawlStatus"%string, JString (str "idle"));
        ("lastCrawlError"%string, JNull);
        ("nextCrawlAt"%string, json_opt_date (nextCrawlAt company1));
        ("crawlLeaseUntil"%string, json_opt_date (crawlLeaseUntil company1));
        ("leaseState"%string,
         JString (if hasLease then str "stale_or_expired" else str "none"));
        ("leaseCleared"%string, JBool hasLease)]
       200).

Definition POST (env : Env) (db : list Company) : NextResponse * list Company :=
  match sessionUserId env with
  | None => (error_response "Not signed in" 401, db)
  | Some user =>
      if negb (companyIdValid env) then (error_response "Invalid companyId" 400, db)
      else if storeFault env then (error_response "Failed to retry crawl" 500, db)
      else if negb (rateLimitAllowed env) then
        (mkResponse 429
           [("error"%string, JString (str "Too many retry-crawl requests"));
            ("retryAfterSeconds"%string, JInt (retryAfterSeconds env))]
           [("Retry-After"%string, numberText (retryAfterSeconds env))],
         db)
      else
        match findOne db (companyId env) user with
        | None => (error_response "Company not found" 404, db)
        | Some company =>
            if negb (CompanyType_eqb (companyType company) competitor) then
              (error_response "retry-crawl is only available for competitor companies" 400,
               db)
            else
              match retry company (now env) with
              | (Some saved, response) => (response, save db saved)
              | (None, response) => (response, db)
              end
        end
  end.

End RetryCrawl.

(** ** The specification's own wording of the diff rules

    These definitions follow the sentences of the specification, not the
    source; the properties of Part II compare the two. *)

Module Spec.

Import Diff.

(** *** Prices

    A price of the specification is a decimal amount.  The number the
    engine holds for it stands for the amount [x.toFixed(2)] prints,
    which is how [toBucketMap] itself reads every amount: [hundredths]
    is that amount, in hundredths. *)
Definition hundredths (x : float) : option Z :=
  match Num.fixed2 x with
  | Some (negative, n) => Some (if negative then - n else n)%Z
  | None => None
  end.

(** "[absΔ = |current − previous|]", on hundredths. *)
Definition absDelta (previous current : Z) : Z := Z.abs (current - previous).

(** "[%Δ = absΔ / previous · 100] (if previous = 0, treat as 100)" is
    at least [t] percent; the quotient is compared by cross
    multiplication. *)
Definition percentDeltaAtLeast (t previous current : Z) : bool :=
  if (previous =? 0)%Z then (t <=? 100)%Z
  else if (0 <? previous)%Z then (t * previous <=? absDelta previous current * 100)%Z
  else (absDelta previous current * 100 <=? t * previous)%Z.

(** "Record as updated iff [absΔ ≥ 0.50 ∧ %Δ ≥ 1]". *)
Definition meetsThresholds (previous current : Z) : bool :=
  (50 <=? absDelta previous current)%Z && percentDeltaAtLeast 1 previous current.

(** *** Severity *)

(** "The maximum percent delta over all updated pairs is at least [t]":
    some updated pair of prices moved by at least [t] percent. *)
Definition maxPercentDeltaAtLeast (t : Z) (changes : list PriceBucketChange) : Prop :=
  exists change u previous current,
    In change changes /\ In u (updatedAmounts change)
    /\ hundredths (previousAmount u) = Some previous
    /\ hundredths (currentAmount u) = Some current
    /\ percentDeltaAtLeast t previous current = true.

(** The reading the engine supports: the percent delta of an updated
    pair is the one the diff records for it, [deltaPercent], which is
    rounded to two decimals. *)
Definition maxRecordedDeltaAtLeast (t : float) (changes : list PriceBucketChange) : Prop :=
  exists change u,
    In change changes /\ In u (updatedAmounts change) /\ Num.geb (deltaPercent u) t = true.

Definition totalAdded (changes : list PriceBucketChange) : nat :=
  List.length (flat_map addedAmounts changes).

Definition totalRemoved (changes : list PriceBucketChange) : nat :=
  List.length (flat_map removedAmounts changes).

Definition totalUpdated (changes : list PriceBucketChange) : nat :=
  List.length (flat_map updatedAmounts changes).

(** "Any custom-pricing-hint change occurred". *)
Definition hintChanged (diff : NormalizedDiff) : Prop :=
  addedHints diff <> [] \/ removedHints diff <> [].

(** "[maxPctΔ ≥ 20] OR ([≥2 added ∧ ≥2 removed])". *)
Definition highRule (diff : NormalizedDiff) : Prop :=
  maxPercentDeltaAtLeast 20 (priceChanges diff)
  \/ (2 <= totalAdded (priceChanges diff) /\ 2 <= totalRemoved (priceChanges diff)).

(** "[maxPctΔ ≥ 10] OR ([total updated+added+removed ≥ 2]) OR any hint change". *)
Definition mediumRule (diff : NormalizedDiff) : Prop :=
  maxPercentDeltaAtLeast 10 (priceChanges diff)
  \/ 2 <= totalUpdated (priceChanges diff) + totalAdded (priceChanges diff)
          + totalRemoved (priceChanges diff)
  \/ hintChanged diff.

(** The severity claim as worded, over every diff the engine returns. *)
Definition severityClaim : Prop :=
  forall (previousPayload currentPayload : Normalize.NormalizedPricingPayload)
         (currentSnapshotVerified : bool) (changedAt : Z) (result : PricingDiffResult),
    generatePricingDiff previousPayload currentPayload currentSnapshotVerified changedAt
    = Some result ->
    let diff := normalizedDiff result in
    (severity result = high <-> highRule diff)
    /\ (severity result = medium <-> ~ highRule diff /\ mediumRule diff)
    /\ (severity result = low <-> ~ highRule diff /\ ~ mediumRule diff).

(** The two rules on the recorded percent deltas. *)
Definition highRuleRecorded (diff : NormalizedDiff) : Prop :=
  maxRecordedDeltaAtLeast 20 (priceChanges diff)
  \/ (2 <= totalAdded (priceChanges diff) /\ 2 <= totalRemoved (priceChanges diff)).

Definition mediumRuleRecorded (diff : NormalizedDiff) : Prop :=
  maxRecordedDeltaAtLeast 10 (priceChanges diff)
  \/ 2 <= totalUpdated (priceChanges diff) + totalAdded (priceChanges diff)
          + totalRemoved (priceChanges diff)
  \/ hintChanged diff.

(** *** Bare numeric tokens

    "1–4 leading digits with optional thousands groups and up to 2
    decimals": the digits in front, the groups of three after commas,
    and the decimals ([[]] for none). *)







(** *** A token in a text

    The token stands in a text, [prose ++ gap ++ token ++ after]: the
    white space [gap], if any, separates it from the [prose] before. *)












End Spec.

(* ================================================================= *)
(** * Part II.  Properties *)
(* ================================================================= *)

Lemma trim_nil : trim [] = [].
Proof. reflexivity. Qed.

(** C10.  With [CRON_SECRET] unset or empty the scheduler entrypoint
    answers 401 Unauthorized to every request, whatever [x-cron-secret]
    or [Authorization] header it carries, and nothing behind the gate
    runs. *)
Theorem cron_secret_missing_rejects_every_request :
  forall (run : CronAuth.NextRequest -> NextResponse) (request : CronAuth.NextRequest),
    (CronAuth.handle None run request = CronAuth.unauthorized
     /\ CronAuth.handle (Some []) run request = CronAuth.unauthorized)
    /\ status CronAuth.unauthorized = 401%Z
    /\ body_field "error" CronAuth.unauthorized = Some (JString (str "Unauthorized")).
Proof.
  intros run request. repeat split; reflexivity.
Qed.

(** ** The crawl-now trigger *)

Section CrawlNowProperties.

Import CrawlNow.

Variable env : Env.
Variable db : list Company.
Variable user : ObjectId.
Variable company : Company.

(** The request reaches the scheduling step. *)
Hypothesis signed_in : sessionUserId env = Some user.
Hypothesis id_valid : companyIdValid env = true.
Hypothesis no_fault : storeFault env = false.
Hypothesis within_rate : rateLimitAllowed env = true.
Hypothesis found : findOne db (companyId env) user = Some company.
Hypothesis is_competitor : companyType company = competitor.

Lemma POST_reaches_schedule :
  POST env db = (snd (schedule company (now env)), save db (fst (schedule company (now env)))).
Proof.
  unfold POST. rewrite signed_in, id_valid, no_fault, within_rate, found, is_competitor.
  simpl. destruct (schedule company (now env)); reflexivity.
Qed.

(** C8 (as amended).  crawl-now sets [nextCrawlAt = now]; it clears
    [crawlLeaseUntil] exactly when a lease exists and is stale
    ([<= now]); an active lease is left untouched, and the request is
    still answered 200 with [scheduled: true], [leaseState: "active"]
    and [leaseCleared: false]. *)
Theorem crawl_now_schedules_and_reports_lease :
  let saved := fst (schedule company (now env)) in
  let response := fst (POST env db) in
  snd (POST env db) = save db saved
  /\ nextCrawlAt saved = Some (now env)
  /\ (forall t, crawlLeaseUntil company = Some t -> (t <= now env)%Z ->
        crawlLeaseUntil saved = None
        /\ body_field "leaseCleared" response = Some (JBool true))
  /\ (forall t, crawlLeaseUntil company = Some t -> (now env < t)%Z ->
        crawlLeaseUntil saved = Some t
        /\ status response = 200%Z
        /\ body_field "scheduled" response = Some (JBool true)
        /\ body_field "leaseState" response = Some (JString (str "active"))
        /\ body_field "leaseCleared" response = Some (JBool false))
  /\ (crawlLeaseUntil company = None -> crawlLeaseUntil saved = None).
Proof.
  cbv zeta. rewrite POST_reaches_schedule. cbn [fst snd].
  split; [reflexivity|]. split; [reflexivity|].
  split; [|split].
  - intros t Ht Hle. unfold schedule. rewrite Ht. cbn.
    assert (E : (now env <? t)%Z = false) by (apply Z.ltb_ge; exact Hle).
    rewrite E. cbn. split; reflexivity.
  - intros t Ht Hlt. unfold schedule. rewrite Ht. cbn.
    assert (E : (now env <? t)%Z = true) by (apply Z.ltb_lt; exact Hlt).
    rewrite E. cbn. repeat split; reflexivity.
  - intros Hn. unfold schedule. rewrite Hn. reflexivity.
Qed.

End CrawlNowProperties.

(** A competitor whose lease runs until 2000, asked to crawl at 1000. *)
Definition leased_company : Company :=
  mkCompany 7%N 1%N competitor (str "acme.example") None
    (Some (str "https://acme.example/pricing")) []
    (Some 5000%Z) (Some 2000%Z) None ok None None None.

Definition crawl_now_env : CrawlNow.Env :=
  CrawlNow.mkEnv (Some 1%N) 7%N true true 0%Z 1000%Z false.

Lemma crawl_now_schedules_and_reports_lease_witness :
  let saved := fst (CrawlNow.schedule leased_company 1000%Z) in
  let response := fst (CrawlNow.POST crawl_now_env [leased_company]) in
  snd (CrawlNow.POST crawl_now_env [leased_company]) = CrawlNow.save [leased_company] saved
  /\ nextCrawlAt saved = Some 1000%Z
  /\ (forall t, crawlLeaseUntil leased_company = Some t -> (t <= 1000)%Z ->
        crawlLeaseUntil saved = None
        /\ body_field "leaseCleared" response = Some (JBool true))
  /\ (forall t, crawlLeaseUntil leased_company = Some t -> (1000 < t)%Z ->
        crawlLeaseUntil saved = Some t
        /\ status response = 200%Z
        /\ body_field "scheduled" response = Some (JBool true)
        /\ body_field "leaseState" response = Some (JString (str "active"))
        /\ body_field "leaseCleared" response = Some (JBool false))
  /\ (crawlLeaseUntil leased_company = None -> crawlLeaseUntil saved = None).
Proof.
  apply (crawl_now_schedules_and_reports_lease crawl_now_env [leased_company] 1%N leased_company);
    reflexivity.
Defined.

(** C8 as the specification words it fails: with an active lease the
    crawl-now request is not reported as a conflict (409); the handler
    answers 200. *)
Lemma crawl_now_active_lease_is_not_a_conflict :
  ~ (forall (env : CrawlNow.Env) (db : list Company) (user : ObjectId) (c : Company) (t : Z),
        CrawlNow.sessionUserId env = Some user ->
        CrawlNow.companyIdValid env = true ->
        CrawlNow.storeFault env = false ->
        CrawlNow.rateLimitAllowed env = true ->
        CrawlNow.findOne db (CrawlNow.companyId env) user = Some c ->
        companyType c = competitor ->
        crawlLeaseUntil c = Some t -> (CrawlNow.now env < t)%Z ->
        status (fst (CrawlNow.POST env db)) = 409%Z).
Proof.
  intro H.
  specialize (H crawl_now_env [leased_company] 1%N leased_company 2000%Z
                eq_refl eq_refl eq_refl eq_refl eq_refl eq_refl eq_refl eq_refl).
  vm_compute in H. discriminate H.
Qed.

(** ** Facts about binary64 comparison and rounding

    The order of [SFcompare] on the specification floats, carried to the
    primitive comparisons through their specifications. *)

Ltac compare_cases :=
  repeat match goal with
  | H : context [Pos.compare_cont Eq ?a ?b] |- _ =>
      change (Pos.compare_cont Eq a b) with (Pos.compare a b) in H
  | |- context [Pos.compare_cont Eq ?a ?b] =>
      change (Pos.compare_cont Eq a b) with (Pos.compare a b)
  end;
  repeat match goal with
  | H : context [Z.compare ?a ?b] |- _ => destruct (Z.compare_spec a b); simpl in H
  | H : context [Pos.compare ?a ?b] |- _ => destruct (Pos.compare_spec a b); simpl in H
  | |- context [Z.compare ?a ?b] => destruct (Z.compare_spec a b); simpl
  | |- context [Pos.compare ?a ?b] => destruct (Pos.compare_spec a b); simpl
  end.

Lemma SFcompare_antisym x y :
  SFcompare y x = option_map CompOpp (SFcompare x y).
Proof.
  destruct x as [[]|[]| |[] mx ex], y as [[]|[]| |[] my ey]; simpl; try reflexivity;
    compare_cases; subst; try reflexivity; try lia.
Qed.

Lemma SFcompare_trans x y z c1 c2 :
  SFcompare x y = Some c1 -> SFcompare y z = Some c2 -> c1 <> Gt -> c2 <> Gt ->
  SFcompare x z = Some (match c1, c2 with Eq, Eq => Eq | _, _ => Lt end).
Proof.
  destruct x as [[]|[]| |[] mx ex], y as [[]|[]| |[] my ey], z as [[]|[]| |[] mz ez];
    simpl; intros H1 H2 N1 N2; try discriminate;
    injection H1 as <-; injection H2 as <-; try congruence; try reflexivity;
    compare_cases; subst; try congruence; try reflexivity; try lia.
Qed.

Definition fcmp (a b : float) : option comparison := SFcompare (Prim2SF a) (Prim2SF b).

Lemma leb_fcmp a b :
  (a <=? b)%float = match fcmp a b with Some Lt | Some Eq => true | _ => false end.
Proof. rewrite FloatAxioms.leb_spec. reflexivity. Qed.

Lemma ltb_fcmp a b :
  (a <? b)%float = match fcmp a b with Some Lt => true | _ => false end.
Proof. rewrite FloatAxioms.ltb_spec. reflexivity. Qed.

Lemma eqb_fcmp a b :
  (a =? b)%float = match fcmp a b with Some Eq => true | _ => false end.
Proof. rewrite FloatAxioms.eqb_spec. reflexivity. Qed.

Lemma SFcompare_refl x : x <> S754_nan -> SFcompare x x = Some Eq.
Proof.
  destruct x as [[]|[]| |[] m e]; simpl; intros H; try reflexivity; try congruence;
    rewrite Z.compare_refl, Pos.compare_cont_refl; reflexivity.
Qed.

Lemma SFcompare_None x y : SFcompare x y = None <-> x = S754_nan \/ y = S754_nan.
Proof.
  destruct x as [[]|[]| |[] mx ex], y as [[]|[]| |[] my ey]; simpl; split;
    intros H; try discriminate; auto; destruct H; discriminate.
Qed.

Lemma is_nan_spec a : is_nan a = true <-> Prim2SF a = S754_nan.
Proof.
  unfold is_nan. rewrite eqb_fcmp. unfold fcmp. split.
  - intros H. destruct (Prim2SF a) eqn:E; try reflexivity;
      rewrite SFcompare_refl in H by discriminate; discriminate.
  - intros ->. reflexivity.
Qed.

Lemma not_nan_spec a : is_nan a = false <-> Prim2SF a <> S754_nan.
Proof.
  rewrite <- is_nan_spec. destruct (is_nan a); split; congruence.
Qed.

Lemma fcmp_Some a b : is_nan a = false -> is_nan b = false -> exists c, fcmp a b = Some c.
Proof.
  intros Ha Hb. apply not_nan_spec in Ha, Hb. unfold fcmp.
  destruct (SFcompare (Prim2SF a) (Prim2SF b)) eqn:E; [eauto|].
  apply SFcompare_None in E. tauto.
Qed.

Lemma fcmp_not_nan a b c : fcmp a b = Some c -> is_nan a = false /\ is_nan b = false.
Proof.
  unfold fcmp. intros H. split; apply not_nan_spec; intros E; rewrite E in H;
    [|destruct (Prim2SF a)]; discriminate.
Qed.

Lemma leb_not_nan a b : (a <=? b)%float = true -> is_nan a = false /\ is_nan b = false.
Proof.
  rewrite leb_fcmp. destruct (fcmp a b) eqn:E; [|discriminate].
  intros _. eapply fcmp_not_nan; eassumption.
Qed.

Lemma fcmp_antisym a b : fcmp b a = option_map CompOpp (fcmp a b).
Proof. apply SFcompare_antisym. Qed.

Lemma leb_trans a b c : (a <=? b)%float = true -> (b <=? c)%float = true -> (a <=? c)%float = true.
Proof.
  rewrite !leb_fcmp. unfold fcmp.
  destruct (SFcompare (Prim2SF a) (Prim2SF b)) as [c1|] eqn:E1; [|discriminate].
  destruct (SFcompare (Prim2SF b) (Prim2SF c)) as [c2|] eqn:E2; [|destruct c1; discriminate].
  intros H1 H2.
  rewrite (SFcompare_trans _ _ _ _ _ E1 E2) by (destruct c1, c2; discriminate).
  destruct c1, c2; reflexivity.
Qed.

Lemma ltb_leb a b : (a <? b)%float = true -> (a <=? b)%float = true.
Proof. rewrite ltb_fcmp, leb_fcmp. destruct (fcmp a b) as [[]|]; congruence. Qed.

(** Without NaN the order is total. *)
Lemma not_ltb_leb a b :
  is_nan a = false -> is_nan b = false -> (a <? b)%float = false -> (b <=? a)%float = true.
Proof.
  intros Ha Hb. destruct (fcmp_Some a b Ha Hb) as [c E].
  rewrite ltb_fcmp, leb_fcmp, (fcmp_antisym a b), E. destruct c; simpl; congruence.
Qed.

Ltac bool_cases :=
  try reflexivity;
  repeat match goal with H : true = true -> _ |- _ => specialize (H eq_refl) end;
  congruence.

Lemma geb_mathMax t a b :
  is_nan a = false -> is_nan b = false ->
  Num.geb (Num.mathMax a b) t = Num.geb a t || Num.geb b t.
Proof.
  intros Ha Hb. unfold Num.geb, Num.mathMax. rewrite Ha, Hb. cbn [orb].
  destruct (a <? b)%float eqn:Hab.
  - assert (I : (t <=? a)%float = true -> (t <=? b)%float = true).
    { intros Hta. eapply leb_trans; [exact Hta|]. apply ltb_leb. exact Hab. }
    destruct (t <=? a)%float, (t <=? b)%float; bool_cases.
  - assert (Lba : (b <=? a)%float = true) by (apply not_ltb_leb; assumption).
    assert (I : (t <=? b)%float = true -> (t <=? a)%float = true).
    { intros Htb. eapply leb_trans; eassumption. }
    destruct (b <? a)%float eqn:Hba.
    + destruct (t <=? a)%float, (t <=? b)%float; bool_cases.
    + assert (Lab : (a <=? b)%float = true) by (apply not_ltb_leb; assumption).
      assert (J : (t <=? a)%float = true -> (t <=? b)%float = true).
      { intros Hta. eapply leb_trans; eassumption. }
      destruct (is_zero a && get_sign a);
        destruct (t <=? a)%float, (t <=? b)%float; bool_cases.
Qed.

Lemma mathMax_not_nan a b :
  is_nan a = false -> is_nan b = false -> is_nan (Num.mathMax a b) = false.
Proof.
  intros Ha Hb. unfold Num.mathMax. rewrite Ha, Hb. simpl.
  destruct (a <? b)%float; [assumption|].
  destruct (b <? a)%float; [assumption|].
  destruct (is_zero a && get_sign a); assumption.
Qed.

Lemma nonneg_ltb_eqb p :
  (0 <=? p)%float = true -> (0 <? p)%float = negb (p =? 0)%float.
Proof.
  rewrite leb_fcmp, ltb_fcmp, eqb_fcmp, (fcmp_antisym 0 p).
  destruct (fcmp 0 p) as [[]|]; simpl; congruence.
Qed.

(** Rounding a non-negative mantissa never yields NaN. *)
Lemma shr_1_nonneg mrs : (0 <= shr_m mrs)%Z -> (0 <= shr_m (shr_1 mrs))%Z.
Proof.
  destruct mrs as [m r s]. destruct m as [|[p|p|]|p]; simpl; lia.
Qed.

Lemma iter_shr_1_nonneg p : forall mrs,
  (0 <= shr_m mrs)%Z -> (0 <= shr_m (iter_pos shr_1 p mrs))%Z.
Proof.
  induction p as [p IH|p IH|]; intros mrs H; simpl.
  - apply IH, IH, shr_1_nonneg, H.
  - apply IH, IH, H.
  - apply shr_1_nonneg, H.
Qed.

Lemma shr_fexp_nonneg m e l :
  (0 <= m)%Z -> (0 <= shr_m (fst (shr_fexp prec emax m e l)))%Z.
Proof.
  intros H. unfold shr_fexp, shr.
  assert (H0 : (0 <= shr_m (shr_record_of_loc m l))%Z) by (destruct l as [|[]]; exact H).
  destruct (fexp prec emax (Zdigits2 m + e) - e)%Z; simpl; try exact H0.
  apply iter_shr_1_nonneg, H0.
Qed.

Lemma round_nearest_even_nonneg m l : (0 <= m)%Z -> (0 <= round_nearest_even m l)%Z.
Proof.
  intros H. destruct l as [|[]]; simpl; try destruct (Z.even m); lia.
Qed.

Lemma binary_round_aux_not_nan s m e l :
  (0 <= m)%Z -> binary_round_aux prec emax s m e l <> S754_nan.
Proof.
  intros H. unfold binary_round_aux.
  pose proof (shr_fexp_nonneg m e l H) as H1.
  destruct (shr_fexp prec emax m e l) as [mrs' e']. simpl in H1.
  pose proof (shr_fexp_nonneg _ e' loc_Exact
                (round_nearest_even_nonneg _ (loc_of_shr_record mrs') H1)) as H2.
  destruct (shr_fexp prec emax (round_nearest_even (shr_m mrs') (loc_of_shr_record mrs')) e' loc_Exact)
    as [mrs'' e''].
  simpl in H2. destruct (shr_m mrs''); try lia; try discriminate.
  destruct (e'' <=? emax - prec)%Z; discriminate.
Qed.

Lemma binary_round_not_nan s m e : binary_round prec emax s m e <> S754_nan.
Proof.
  unfold binary_round. destruct (shl_align m e _) as [mz ez].
  apply binary_round_aux_not_nan. lia.
Qed.

Lemma opp_not_nan x : is_nan x = false -> is_nan (- x)%float = false.
Proof.
  rewrite !not_nan_spec, opp_spec. destruct (Prim2SF x); simpl; congruence.
Qed.

Lemma SF2Prim_not_nan y : y <> S754_nan -> is_nan (SF2Prim y) = false.
Proof.
  intros H. destruct y as [[]|[]| |s m e]; try reflexivity; try congruence.
  unfold SF2Prim.
  assert (F : is_nan (Z.ldexp (of_uint63 (Uint63.of_Z (Z.pos m))) e) = false).
  { apply not_nan_spec. unfold Z.ldexp. rewrite ldshiftexp_spec, of_uint63_spec.
    unfold SFldexp, binary_normalize.
    pose proof (Uint63.to_Z_bounded (Uint63.of_Z (Z.pos m))) as B.
    destruct (Uint63.to_Z (Uint63.of_Z (Z.pos m))) as [|n|n]; try lia.
    - discriminate.
    - destruct (binary_round prec emax false n 0) eqn:E; try discriminate.
      + exfalso. exact (binary_round_not_nan _ _ _ E).
      + apply binary_round_not_nan. }
  destruct s; [apply opp_not_nan|]; exact F.
Qed.

Lemma roundQ_not_nan a b : (0 <= a)%Z -> (0 < b)%Z -> is_nan (Num.roundQ a b) = false.
Proof.
  intros Ha Hb. unfold Num.roundQ. destruct (a =? 0)%Z; [reflexivity|].
  apply SF2Prim_not_nan, binary_round_aux_not_nan.
  apply Z.div_pos; [|exact Hb]. apply Z.mul_nonneg_nonneg; [exact Ha|].
  apply Z.pow_nonneg. lia.
Qed.

Lemma fixed2_nonneg x s n : Num.fixed2 x = Some (s, n) -> (0 <= n)%Z.
Proof.
  unfold Num.fixed2. destruct (Prim2SF x) as [| | |s' m e]; try discriminate.
  - intros H. injection H as _ <-. lia.
  - set (n0 := if (0 <=? e)%Z then (Z.pos m * 2 ^ e * 100)%Z
               else ((Z.pos m * 200 + 2 ^ (- e)) / 2 ^ (- e + 1))%Z).
    assert (N0 : (0 <= n0)%Z).
    { unfold n0. destruct (0 <=? e)%Z eqn:He.
      - apply Z.leb_le in He.
        assert (0 <= 2 ^ e)%Z by (apply Z.pow_nonneg; lia). nia.
      - apply Z.leb_gt in He. apply Z.div_pos.
        + assert (0 <= 2 ^ (- e))%Z by (apply Z.pow_nonneg; lia). lia.
        + apply Z.pow_pos_nonneg; lia. }
    cbv zeta. fold n0. destruct (10 ^ 23 <=? n0)%Z; [discriminate|].
    intros H. injection H as _ <-. exact N0.
Qed.

Lemma toFixed2_not_nan x : is_nan x = false -> is_nan (Num.toFixed2 x) = false.
Proof.
  intros H. unfold Num.toFixed2. destruct (Num.fixed2 x) as [[s n]|] eqn:E; [|exact H].
  pose proof (roundQ_not_nan n 100 (fixed2_nonneg _ _ _ E) ltac:(lia)) as R.
  cbv zeta. destruct s; [apply opp_not_nan|]; exact R.
Qed.


(** ** The diff engine *)

Section ListFacts.
Context {A B : Type}.

Lemma firstn_snoc (l : list A) (n : nat) (x : A) :
  nth_error l n = Some x -> firstn (S n) l = firstn n l ++ [x].
Proof.
  revert n. induction l as [|a l IH]; intros [|n] H; simpl in *; try discriminate.
  - injection H as ->. reflexivity.
  - f_equal. apply IH. exact H.
Qed.

Lemma firstn_past (l : list A) (n : nat) :
  nth_error l n = None -> firstn (S n) l = l /\ firstn n l = l.
Proof.
  intros H. apply nth_error_None in H. split; apply firstn_all2; lia.
Qed.

Lemma combine_snoc (l : list A) (m : list B) (x : A) (y : B) :
  List.length l = List.length m ->
  combine (l ++ [x]) (m ++ [y]) = combine l m ++ [(x, y)].
Proof.
  revert m. induction l as [|a l IH]; intros [|b m] H; simpl in *; try discriminate.
  - reflexivity.
  - f_equal. apply IH. lia.
Qed.

Lemma combine_longer_l (l : list A) (m : list B) (x : A) :
  List.length m <= List.length l -> combine (l ++ [x]) m = combine l m.
Proof.
  revert m. induction l as [|a l IH]; intros [|b m] H; simpl in *; try reflexivity; try lia.
  f_equal. apply IH. lia.
Qed.

Lemma combine_longer_r (l : list A) (m : list B) (y : B) :
  List.length l <= List.length m -> combine l (m ++ [y]) = combine l m.
Proof.
  revert m. induction l as [|a l IH]; intros [|b m] H; simpl in *; try reflexivity; try lia.
  f_equal. apply IH. lia.
Qed.

End ListFacts.

Section DiffEngine.

Import Normalize Diff.

Definition updatesOf (pairs : list (float * float)) : list UpdatedAmount :=
  map (fun pc => mkUpdated (fst pc) (snd pc)
                   (Num.toFixed2 (rawDeltaPercent (fst pc) (snd pc))))
      (filter (fun pc => significant (fst pc) (snd pc)) pairs).

Lemma updatesOf_app a b : updatesOf (a ++ b) = updatesOf a ++ updatesOf b.
Proof. unfold updatesOf. rewrite filter_app, map_app. reflexivity. Qed.

Lemma bucketLoop_prefix (prev cur : list float) (n : nat) :
  fold_left (bucketStep prev cur) (seq 0 n) (mkArrays [] [] []) =
  mkArrays (skipn (List.length prev) (firstn n cur))
           (skipn (List.length cur) (firstn n prev))
           (updatesOf (combine (firstn n prev) (firstn n cur))).
Proof.
  induction n as [|n IH].
  - simpl. rewrite !skipn_nil. reflexivity.
  - rewrite seq_S, fold_left_app, IH. simpl fold_left. unfold bucketStep. cbn [added removed updated].
    destruct (nth_error prev n) as [p|] eqn:Hp; destruct (nth_error cur n) as [c|] eqn:Hc.
    + assert (Lp : n < List.length prev) by (apply nth_error_Some; congruence).
      assert (Lc : n < List.length cur) by (apply nth_error_Some; congruence).
      rewrite (firstn_snoc _ _ _ Hp), (firstn_snoc _ _ _ Hc).
      rewrite combine_snoc by (rewrite !length_firstn; lia).
      rewrite updatesOf_app.
      rewrite !skipn_all2 by (rewrite ?length_app, !length_firstn; simpl; lia).
      assert (E : updatesOf [(p, c)] =
                  if significant p c
                  then [mkUpdated p c (Num.toFixed2 (rawDeltaPercent p c))] else []).
      { unfold updatesOf. simpl. destruct (significant p c); reflexivity. }
      rewrite E. destruct (significant p c); rewrite ?app_nil_r; reflexivity.
    + assert (Lp : n < List.length prev) by (apply nth_error_Some; congruence).
      destruct (firstn_past _ _ Hc) as [E1 E2]. rewrite E1, E2.
      apply nth_error_None in Hc.
      rewrite (firstn_snoc _ _ _ Hp).
      rewrite combine_longer_l by (rewrite length_firstn; lia).
      rewrite skipn_app.
      replace (List.length cur - List.length (firstn n prev)) with 0
        by (rewrite length_firstn; lia).
      reflexivity.
    + assert (Lc : n < List.length cur) by (apply nth_error_Some; congruence).
      destruct (firstn_past _ _ Hp) as [E1 E2]. rewrite E1, E2.
      apply nth_error_None in Hp.
      rewrite (firstn_snoc _ _ _ Hc).
      rewrite combine_longer_r by (rewrite length_firstn; lia).
      rewrite skipn_app.
      replace (List.length prev - List.length (firstn n cur)) with 0
        by (rewrite length_firstn; lia).
      reflexivity.
    + destruct (firstn_past _ _ Hp) as [E1 E2]. rewrite E1, E2.
      destruct (firstn_past _ _ Hc) as [E3 E4]. rewrite E3, E4. reflexivity.
Qed.

Lemma bucketLoop_spec (prev cur : list float) :
  bucketLoop prev cur =
  mkArrays (skipn (List.length prev) cur) (skipn (List.length cur) prev)
           (updatesOf (combine prev cur)).
Proof.
  unfold bucketLoop. rewrite bucketLoop_prefix.
  rewrite !firstn_all2 by lia. reflexivity.
Qed.


Lemma createBucketChange_updated (key : jsstring) (prev cur : list float) :
  match createBucketChange key prev cur with
  | Some change =>
      updatedAmounts change = updatesOf (combine prev cur)
      /\ addedAmounts change = skipn (List.length prev) cur
      /\ removedAmounts change = skipn (List.length cur) prev
  | None =>
      updatesOf (combine prev cur) = []
      /\ skipn (List.length prev) cur = [] /\ skipn (List.length cur) prev = []
  end.
Proof.
  unfold createBucketChange. rewrite bucketLoop_spec. cbn [added removed updated].
  destruct (skipn (List.length prev) cur), (skipn (List.length cur) prev),
    (updatesOf (combine prev cur)); cbn; auto.
Qed.

(** *** The thresholds *)

(** A plan at 3.85 a month that moves to 4.35: half a dollar, 13 percent. *)
Definition plan_at (amount : float) : NormalizedPricingPayload :=
  mkPayload (str "https://acme.example/pricing") None None []
    [mkPrice amount (str "USD") month] [].

(** C5.  A move of exactly 0.50 is lost.  The page texts [$3.85/month]
    and [$4.35/month] give the amounts 3.85 and 4.35, which print as
    such; the two prices are 0.50 and 13 percent apart, so the
    thresholds are met; but the loop of [createBucketChange] subtracts
    the two binary64 numbers, finds less than 0.5, and records nothing:
    the bucket is unchanged and no diff is returned. *)
Theorem half_dollar_move_is_not_recorded :
  PriceScan.extractPriceMentions (str "$3.85/month") = [mkPrice 3.85 (str "USD") month]
  /\ PriceScan.extractPriceMentions (str "$4.35/month") = [mkPrice 4.35 (str "USD") month]
  /\ Spec.hundredths 3.85 = Some 385%Z
  /\ Spec.hundredths 4.35 = Some 435%Z
  /\ Spec.meetsThresholds 385 435 = true
  /\ Num.geb (absoluteDelta 3.85 4.35) 0.5 = false
  /\ createBucketChange (str "USD|month") [3.85%float] [4.35%float] = None
  /\ generatePricingDiff (plan_at 3.85) (plan_at 4.35) true 0 = None.
Proof. repeat split; vm_compute; reflexivity. Qed.

(** *** Severity *)

Definition notNaN (x : float) : Prop := is_nan x = false.

Definition cleanChange (change : PriceBucketChange) : Prop :=
  Forall (fun u => notNaN (deltaPercent u)) (updatedAmounts change).

Lemma updatesOf_clean (pairs : list (float * float)) :
  Forall (fun u => notNaN (deltaPercent u)) (updatesOf pairs).
Proof.
  unfold updatesOf. apply Forall_forall. intros u Hin.
  apply in_map_iff in Hin. destruct Hin as ([p c] & <- & Hin).
  apply filter_In in Hin. destruct Hin as (_ & Hs). cbn in *.
  unfold significant in Hs. apply andb_true_iff in Hs. destruct Hs as (_ & Hs).
  unfold Num.geb in Hs. apply leb_not_nan in Hs.
  apply toFixed2_not_nan. tauto.
Qed.

Lemma createBucketChange_clean key prev cur change :
  createBucketChange key prev cur = Some change -> cleanChange change.
Proof.
  intros H. pose proof (createBucketChange_updated key prev cur) as Hc.
  rewrite H in Hc. destruct Hc as (Hu & _). unfold cleanChange. rewrite Hu.
  apply updatesOf_clean.
Qed.

Lemma insertSorted_Forall {A : Type} (P : A -> Prop) cmp (x : A) (l : list A) :
  P x -> Forall P l -> Forall P (Num.insertSorted cmp x l).
Proof.
  intros Hx Hl. induction Hl as [|y l Hy Hl IH]; simpl.
  - constructor; [exact Hx|constructor].
  - destruct (cmp x y); repeat constructor; assumption.
Qed.

Lemma sort_Forall {A : Type} (P : A -> Prop) cmp (l : list A) :
  Forall P l -> Forall P (Num.sort cmp l).
Proof.
  intros H. induction H as [|x l Hx Hl IH]; simpl.
  - constructor.
  - apply insertSorted_Forall; assumption.
Qed.

(** The sums of [determineSeverity] are the numbers of entries. *)
Lemma fold_left_count {A B : Type} (f : A -> list B) (l : list A) (n : nat) :
  fold_left (fun sum x => sum + List.length (f x)) l n = n + List.length (flat_map f l).
Proof.
  revert n. induction l as [|x l IH]; intros n; simpl.
  - lia.
  - rewrite IH, length_app. lia.
Qed.

(** The running maximum crosses a threshold exactly when its start or
    one of the entries does. *)
Lemma innerMax_geb (t : float) (updates : list UpdatedAmount) : forall start,
  notNaN start -> Forall (fun u => notNaN (deltaPercent u)) updates ->
  let result := fold_left (fun innerMax u => Num.mathMax innerMax (deltaPercent u)) updates start in
  notNaN result
  /\ Num.geb result t = Num.geb start t || existsb (fun u => Num.geb (deltaPercent u) t) updates.
Proof.
  induction updates as [|u updates IH]; intros start Hs Hall; simpl.
  - split; [exact Hs|]. rewrite orb_false_r. reflexivity.
  - inversion Hall as [|? ? Hu Hrest]; subst.
    destruct (IH (Num.mathMax start (deltaPercent u))
                (mathMax_not_nan _ _ Hs Hu) Hrest) as (Hn & Hg).
    split; [exact Hn|]. rewrite Hg, geb_mathMax by assumption.
    rewrite orb_assoc. reflexivity.
Qed.

Definition bucketMaxOf (change : PriceBucketChange) : float :=
  fold_left (fun innerMax u => Num.mathMax innerMax (deltaPercent u))
    (updatedAmounts change) 0%float.

Lemma outerMax_geb (t : float) (changes : list PriceBucketChange) : forall start,
  Num.geb 0 t = false ->
  notNaN start -> Forall cleanChange changes ->
  let result := fold_left (fun maxDelta change => Num.mathMax maxDelta (bucketMaxOf change))
                  changes start in
  notNaN result
  /\ Num.geb result t
     = Num.geb start t
       || existsb (fun change => existsb (fun u => Num.geb (deltaPercent u) t)
                                   (updatedAmounts change)) changes.
Proof.
  intros start Hzero. revert start.
  induction changes as [|change changes IH]; intros start Hs Hall; simpl.
  - split; [exact Hs|]. rewrite orb_false_r. reflexivity.
  - inversion Hall as [|? ? Hc Hrest]; subst.
    destruct (innerMax_geb t (updatedAmounts change) 0%float eq_refl Hc) as (Hbn & Hbg).
    fold (bucketMaxOf change) in Hbn, Hbg. rewrite Hzero in Hbg. cbn [orb] in Hbg.
    destruct (IH (Num.mathMax start (bucketMaxOf change))
                (mathMax_not_nan _ _ Hs Hbn) Hrest) as (Hn & Hg).
    split; [exact Hn|]. rewrite Hg, geb_mathMax, Hbg by assumption.
    rewrite orb_assoc. reflexivity.
Qed.

Definition anyAtLeast (t : float) (changes : list PriceBucketChange) : bool :=
  existsb (fun change => existsb (fun u => Num.geb (deltaPercent u) t) (updatedAmounts change))
    changes.

Lemma anyAtLeast_spec t changes :
  anyAtLeast t changes = true <-> Spec.maxRecordedDeltaAtLeast t changes.
Proof.
  unfold anyAtLeast, Spec.maxRecordedDeltaAtLeast. rewrite existsb_exists. split.
  - intros (change & Hin & Hex). apply existsb_exists in Hex.
    destruct Hex as (u & Hu & Hg). eauto.
  - intros (change & u & Hin & Hu & Hg). exists change. split; [exact Hin|].
    apply existsb_exists. eauto.
Qed.

Lemma determineSeverity_rules (changes : list PriceBucketChange) (customHintChanged : bool) :
  Forall cleanChange changes ->
  determineSeverity changes customHintChanged =
  if anyAtLeast 20 changes
     || ((2 <=? Spec.totalAdded changes) && (2 <=? Spec.totalRemoved changes))
  then high
  else if anyAtLeast 10 changes
          || (2 <=? Spec.totalUpdated changes + Spec.totalAdded changes
                    + Spec.totalRemoved changes)
          || customHintChanged
       then medium
       else low.
Proof.
  intros Hclean. unfold determineSeverity.
  rewrite !fold_left_count. cbn [Nat.add].
  fold (Spec.totalAdded changes) (Spec.totalRemoved changes) (Spec.totalUpdated changes).
  destruct (outerMax_geb 20 changes 0%float eq_refl eq_refl Hclean) as (_ & H20).
  destruct (outerMax_geb 10 changes 0%float eq_refl eq_refl Hclean) as (_ & H10).
  unfold bucketMaxOf in H20, H10. cbv zeta in H20, H10.
  rewrite H20, H10. reflexivity.
Qed.

Lemma bucketChanges_clean (previousBuckets currentBuckets : BucketMap) (keys : list jsstring) :
  forall start, Forall cleanChange start ->
  Forall cleanChange
    (fold_left
       (fun bucketChanges key =>
          match createBucketChange key
                  (match bucket_get key previousBuckets with Some v => v | None => [] end)
                  (match bucket_get key currentBuckets with Some v => v | None => [] end)
          with
          | Some nextChange => bucketChanges ++ [nextChange]
          | None => bucketChanges
          end)
       keys start).
Proof.
  induction keys as [|key keys IH]; intros start Hs; simpl; [exact Hs|].
  apply IH. destruct (createBucketChange key _ _) as [change|] eqn:E; [|exact Hs].
  apply Forall_app. split; [exact Hs|]. constructor; [|constructor].
  eapply createBucketChange_clean. exact E.
Qed.

Lemma length_pos_iff {A : Type} (l : list A) : (0 <? List.length l) = true <-> l <> [].
Proof.
  destruct l; simpl; split; intros H; try congruence; try discriminate; reflexivity.
Qed.

(** C4 (as amended).  Every diff the engine returns carries the
    severity the rules give it on the percent deltas it records, each
    rounded to two decimals: high iff some updated pair has a recorded
    delta of at least 20 percent or at least two amounts were added and
    at least two removed; otherwise medium iff some updated pair has a
    recorded delta of at least 10 percent, or the updated, added and
    removed amounts number at least two, or a custom-pricing hint
    changed; otherwise low. *)
Theorem severity_follows_rules :
  forall (previousPayload currentPayload : NormalizedPricingPayload)
         (currentSnapshotVerified : bool) (changedAt : Z) (result : PricingDiffResult),
    generatePricingDiff previousPayload currentPayload currentSnapshotVerified changedAt
    = Some result ->
    let diff := normalizedDiff result in
    (severity result = high <-> Spec.highRuleRecorded diff)
    /\ (severity result = medium <->
        ~ Spec.highRuleRecorded diff /\ Spec.mediumRuleRecorded diff)
    /\ (severity result = low <->
        ~ Spec.highRuleRecorded diff /\ ~ Spec.mediumRuleRecorded diff).
Proof.
  intros prev cur v t result H diff. subst diff.
  unfold generatePricingDiff in H.
  set (previousBuckets := toBucketMap prev) in *.
  set (currentBuckets := toBucketMap cur) in *.
  set (keys := dedupe JS.eqb [] (map fst previousBuckets ++ map fst currentBuckets)) in *.
  set (bucketChanges := fold_left _ keys []) in *.
  set (added := filter _ (toCustomHintSet cur)) in *.
  set (removed := filter _ (toCustomHintSet prev)) in *.
  assert (Hclean : Forall cleanChange (sortBucketChanges bucketChanges)).
  { apply sort_Forall. apply bucketChanges_clean. constructor. }
  destruct ((List.length bucketChanges =? 0)
            && negb ((0 <? List.length added) || (0 <? List.length removed)));
    [discriminate|].
  injection H as <-. cbn [severity normalizedDiff].
  rewrite (determineSeverity_rules _ _ Hclean).
  set (changes := sortBucketChanges bucketChanges) in *.
  unfold Spec.highRuleRecorded, Spec.mediumRuleRecorded, Spec.hintChanged.
  cbn [priceChanges addedHints removedHints].
  rewrite <- !anyAtLeast_spec, <- !length_pos_iff.
  destruct (anyAtLeast 20 changes), (anyAtLeast 10 changes);
    destruct (Nat.leb_spec 2 (Spec.totalAdded changes));
    destruct (Nat.leb_spec 2 (Spec.totalRemoved changes));
    destruct (Nat.leb_spec 2 (Spec.totalUpdated changes + Spec.totalAdded changes
                              + Spec.totalRemoved changes));
    destruct (0 <? List.length added), (0 <? List.length removed);
    cbn; repeat split; intros; try discriminate; try tauto; try lia;
    try (intuition (try discriminate; try lia)).
Qed.

(** Scenario S3: [19.00, 49.00] per month becomes [19.00, 59.00]. *)
Definition s3_previous : NormalizedPricingPayload :=
  mkPayload (str "https://acme.example/pricing") None None []
    [mkPrice 19 (str "USD") month; mkPrice 49 (str "USD") month] [].

Definition s3_current : NormalizedPricingPayload :=
  mkPayload (str "https://acme.example/pricing") None None []
    [mkPrice 19 (str "USD") month; mkPrice 59 (str "USD") month] [].

Lemma severity_follows_rules_witness :
  exists result,
    generatePricingDiff s3_previous s3_current true 0 = Some result
    /\ severity result = high
    /\ (severity result = high <-> Spec.highRuleRecorded (normalizedDiff result)).
Proof.
  eexists. split; [vm_compute; reflexivity|]. split; [reflexivity|].
  exact (proj1 (severity_follows_rules s3_previous s3_current true 0 _
                  ltac:(vm_compute; reflexivity))).
Defined.

(** A plan at 1000.00 a month that moves to 1199.96: by 19.996 percent,
    which the diff records as 20. *)
Lemma just_below_twenty_percent :
  exists result,
    generatePricingDiff (plan_at 1000) (plan_at 1199.96) true 0 = Some result
    /\ severity result = high
    /\ priceChanges (normalizedDiff result)
       = [mkBucketChange (str "USD") (Some (str "month")) [] []
            [mkUpdated 1000 1199.96 20]].
Proof.
  eexists. split; [vm_compute; reflexivity|]. split; vm_compute; reflexivity.
Qed.

(** C4 as worded fails: the one updated pair of that diff moved by
    less than 20 percent and nothing was added or removed, yet the
    severity is high. *)
Lemma severity_claim_fails_below_twenty_percent : ~ Spec.severityClaim.
Proof.
  intros Hclaim.
  destruct just_below_twenty_percent as (result & Hdiff & Hhigh & Hchanges).
  destruct (Hclaim _ _ _ _ _ Hdiff) as (Hrule & _).
  apply Hrule in Hhigh. unfold Spec.highRule in Hhigh. rewrite Hchanges in Hhigh.
  destruct Hhigh as [(change & u & previous & current & Hc & Hu & Hp & Hcur & Hmoved)
                    | (Hadded & _)].
  - destruct Hc as [<- | []]. cbn [updatedAmounts] in Hu. destruct Hu as [<- | []].
    cbn [previousAmount currentAmount] in Hp, Hcur.
    assert (E1 : Spec.hundredths 1000 = Some 100000%Z) by (vm_compute; reflexivity).
    assert (E2 : Spec.hundredths 1199.96 = Some 119996%Z) by (vm_compute; reflexivity).
    rewrite E1 in Hp. rewrite E2 in Hcur.
    assert (previous = 100000%Z) by congruence.
    assert (current = 119996%Z) by congruence. subst previous current.
    vm_compute in Hmoved. discriminate Hmoved.
  - vm_compute in Hadded. lia.
Qed.

End DiffEngine.

(** ** The canonicalizer *)

Section Canonicalizer.

Import Normalize.

(** Two mentions of one price, the currency written in two cases. *)
Definition mixed_case_payload : NormalizedPricingPayload :=
  mkPayload (str "https://acme.example/pricing") None None []
    [mkPrice 1 (str "usd") month; mkPrice 1 (str "USD") month] [].

Lemma canonicalize_mixed_case_once :
  priceMentions (canonicalizePricingPayload mixed_case_payload)
  = [mkPrice 1 (str "USD") month; mkPrice 1 (str "USD") month].
Proof. vm_compute. reflexivity. Qed.

Lemma canonicalize_mixed_case_twice :
  priceMentions (canonicalizePricingPayload (canonicalizePricingPayload mixed_case_payload))
  = [mkPrice 1 (str "USD") month].
Proof. vm_compute. reflexivity. Qed.

(** C6, evaluated.  [uniquePrices] keys the mentions by the currency as
    written and stores it upper-cased, so the first pass keeps both
    mentions of [mixed_case_payload] and only the second merges them:
    canonicalizing twice differs from canonicalizing once. *)
Theorem canonicalize_twice_differs_on_mixed_case :
  canonicalizePricingPayload (canonicalizePricingPayload mixed_case_payload)
  <> canonicalizePricingPayload mixed_case_payload.
Proof.
  intros H. apply (f_equal (fun p => List.length (priceMentions p))) in H.
  rewrite canonicalize_mixed_case_once, canonicalize_mixed_case_twice in H.
  discriminate H.
Qed.

(** A title of white space alone: truthy, so it is normalized to the
    empty string on the first pass; the empty string is falsy, so the
    second pass turns it into [null]. *)
Definition blank_title_payload : NormalizedPricingPayload :=
  mkPayload (str "https://acme.example/pricing") (Some (str " ")) None [] [] [].

Lemma canonicalize_twice_differs_on_blank_title :
  pageTitle (canonicalizePricingPayload blank_title_payload) = Some []
  /\ pageTitle (canonicalizePricingPayload (canonicalizePricingPayload blank_title_payload))
     = None.
Proof. split; reflexivity. Qed.

End Canonicalizer.

(** ** Code units *)

Ltac unit_cases :=
  repeat match goal with
         | |- context [N.leb ?a ?b] => destruct (N.leb_spec a b)
         | |- context [N.eqb ?a ?b] => destruct (N.eqb_spec a b)
         end;
  cbn [andb negb orb]; try discriminate; try reflexivity; try lia.

Lemma isWhiteSpace_cases (c : N) :
  isWhiteSpace c = true ->
  In c [9; 10; 11; 12; 13; 32; 160; 5760; 8232; 8233; 8239; 8287; 12288; 65279]%N
  \/ (8192 <= c <= 8202)%N.
Proof.
  unfold isWhiteSpace. intros H. apply orb_true_iff in H as [H | H].
  - left. apply existsb_exists in H as (x & Hin & Heq). apply N.eqb_eq in Heq. now subst.
  - right. apply andb_true_iff in H as [H1 H2]. apply N.leb_le in H1, H2. lia.
Qed.

Lemma eqb_refl (s : jsstring) : JS.eqb s s = true.
Proof.
  induction s as [|c s IH]; cbn [JS.eqb]; [reflexivity|].
  rewrite N.eqb_refl. exact IH.
Qed.

Lemma eqb_eq (a b : jsstring) : JS.eqb a b = true -> a = b.
Proof.
  revert b. induction a as [|x a IH]; intros [|y b]; cbn [JS.eqb];
    try reflexivity; try discriminate.
  intros H. apply andb_true_iff in H as [Hx Hab].
  apply N.eqb_eq in Hx. apply IH in Hab. congruence.
Qed.


(** ** The price-mention scan *)

Section PriceScanFacts.

Import Normalize RegExp PriceScan Spec.


















End PriceScanFacts.
(** ** The price-mention scan inside a text *)

Section PriceScanInText.

Import Normalize RegExp PriceScan Spec.

(** *** Code units under the [i] flag *)














(** *** Runs of white space *)





(** *** Optional parts *)


(** *** The parts of the pattern *)








(** *** In front of the token *)



(** *** The token and what follows it *)












(** *** The pattern at the token *)






(** *** What a pattern can match

    The words a pattern spells, whatever stands around them: every
    match of the pattern is over one of them. *)







(** *** The words of the price pattern *)






(** Letters, and the dash of [one-time]. *)






























(** *** No match runs from the prose into the token *)















(** *** The scan reaches the token *)














(** What follows a token may give it a period the text does not mean:
    the letter d of [developer] reads as a day. *)
Lemma per_developer_reads_as_per_day :
  extractPriceMentions (str "10 per developer") = [mkPrice 10 (str "USD") day].
Proof. vm_compute. reflexivity. Qed.

End PriceScanInText.

(** ** The runner: hash gate and insight gating *)

Section RunnerProperties.

Import Normalize Diff Entitlements Insight Extract Constants Discovery Runner.

Variable createContentHash : jsstring -> jsstring.
Variable config : Config.
Variable settings : Settings.
Variable env : Env.

(** The store a [finally] block leaves when its writes go through. *)
Definition writtenStore (company : Company) (now : Z) (l : Locals.Locals) (store : Store)
  : Store :=
  mkStore (users store)
    (map (fun stored => if N.eqb (Models._id stored) (Models._id company)
                        then finalUpdate settings company now l stored else stored)
       (companies store))
    (snapshots store) (diffs store) (insights store)
    (auditEvents store
     ++ match auditEventTypeByStatus (Locals.finalStatus l) with
        | Some eventType =>
            [mkAuditEvent eventType (Models.userId company) (Models._id company)
               (Locals.finalStatus l)
               (option_map sanitizeString (Locals.finalErrorMessage l))
               (now + statusToNextDelayMs settings (Locals.finalStatus l))%Z]
        | None => []
        end)
    (nextObjectId store).

Lemma finallyBlock_written (company : Company) (now : Z) (l : Locals.Locals) (store : Store) :
  fst (finallyBlock settings writesGoThrough company now l store)
  = writtenStore company now l store.
Proof.
  unfold finallyBlock, writesGoThrough, logCrawlFailure, updateCompany, writtenStore.
  cbn [updateError auditWriteFails fst].
  destruct (auditEventTypeByStatus (Locals.finalStatus l));
    cbn [users companies snapshots diffs insights auditEvents nextObjectId];
    rewrite ?app_nil_r; reflexivity.
Qed.

Lemma shouldCreate_iff (input : InsightBuildInput) :
  shouldCreate (buildInsightFromDiff config input)
  = match insightSeverityGate (resolveEntitlements config (user input) (now input)) with
    | None => false
    | Some _ =>
        canGenerateInsight (resolveEntitlements config (user input) (now input))
          (inputSeverity input)
    end.
Proof.
  unfold buildInsightFromDiff.
  destruct (insightSeverityGate _); [|reflexivity].
  destruct (canGenerateInsight _ _); reflexivity.
Qed.

Lemma InsightSeverity_eqb_eq (a b : InsightSeverity) :
  InsightSeverity_eqb a b = true -> a = b.
Proof. destruct a, b; cbn; congruence. Qed.

Lemma canGenerateInsight_In (entitlements : ResolvedEntitlements) (severity : InsightSeverity) :
  canGenerateInsight entitlements severity = true ->
  In severity (allowedInsightSeverities entitlements).
Proof.
  unfold canGenerateInsight. intros H.
  apply andb_true_iff in H as [_ H].
  apply existsb_exists in H as [s [Hin Heq]].
  apply InsightSeverity_eqb_eq in Heq. now subst.
Qed.

Lemma Some_eq {A : Type} (a b : A) : Some a = Some b -> a = b.
Proof. congruence. Qed.

Lemma createInput_fields (input : InsightBuildInput) (fields : CreateInput) :
  createInput (buildInsightFromDiff config input) = Some fields ->
  insightDiffId fields = diffId input /\ generatedAt fields = now input.
Proof.
  unfold buildInsightFromDiff.
  destruct (insightSeverityGate _); [|discriminate].
  destruct (canGenerateInsight _ _); cbn [negb createInput shouldCreate]; [|discriminate].
  intros H. apply Some_eq in H. subst fields.
  cbn [insightDiffId generatedAt]. split; reflexivity.
Qed.

(** What a run adds to the insight collection when it adds anything:
    one record, generated at [now] for a stored diff of the run, for
    which [buildInsightFromDiff] answered [shouldCreate: true] and
    whose severity the owner's entitlements allow at [now]. *)
Definition insightWritten (company : Company) (now : Z) (owner : User)
  (before after : Store) : Prop :=
  exists record diffRecord,
    insights after = insights before ++ [record]
    /\ In diffRecord (diffs after)
    /\ insightDiffId (insightFields record) = diffRecordId diffRecord
    /\ generatedAt (insightFields record) = now
    /\ shouldCreate
         (buildInsightFromDiff config
            (mkInput owner (Models._id company) (diffRecordId diffRecord)
               (recordedSeverity diffRecord) (recordedVerificationState diffRecord)
               (recordedDiff diffRecord) now)) = true
    /\ In (recordedSeverity diffRecord)
         (allowedInsightSeverities (resolveEntitlements config owner now)).

Ltac leave_block := intros [= <- <- <-]; auto.

Lemma recordChange_insights company now owner hash payload confidence pageVerified l store
  l' store' thrown :
  recordChange config env company now owner hash payload confidence pageVerified l store
  = (l', store', thrown) ->
  insights store' = insights store \/ insightWritten company now owner store store'.
Proof.
  unfold recordChange. cbv zeta.
  destruct (storeFault env FindPreviousSnapshot); [leave_block|].
  destruct (storeFault env CreateSnapshot); [leave_block|].
  destruct (latestSnapshot store (_id company)) as [previous|]; [|leave_block].
  destruct (toNormalizedPayload (pricingPayload previous)) as [previousPayload|];
    [|leave_block].
  destruct (generatePricingDiff _ _ _ _) as [diff|]; [|leave_block].
  destruct (storeFault env CreateDiff); [leave_block|].
  match goal with
  | |- context [buildInsightFromDiff config ?i] =>
      pose proof (createInput_fields i) as Hfields;
      destruct (shouldCreate (buildInsightFromDiff config i)) eqn:Hshould;
      [destruct (createInput (buildInsightFromDiff config i)) as [input|]|]
  end; try (leave_block; fail).
  destruct (storeFault env CreateInsight); [leave_block|].
  intros [= <- <- <-].
  right. destruct (Hfields input eq_refl) as (Hd & Hg).
  eexists _, _. cbn [insights diffs insightFields].
  split; [reflexivity|]. split; [apply in_or_app; right; left; reflexivity|].
  cbn [diffRecordId recordedSeverity recordedVerificationState recordedDiff].
  cbn [diffId Insight.now] in Hd, Hg. repeat split; try assumption.
  rewrite shouldCreate_iff in Hshould. cbn [user Insight.now inputSeverity] in Hshould.
  destruct (insightSeverityGate _); [|discriminate].
  now apply canGenerateInsight_In.
Qed.

Lemma crawlSource_insights company now source l store l' store' thrown :
  crawlSource createContentHash config settings env company now source l store
  = (l', store', thrown) ->
  insights store' = insights store
  \/ exists owner,
       findUserById store (userId company) = Some owner
       /\ insightWritten company now owner store store'.
Proof.
  unfold crawlSource.
  destruct (storeFault env FindUser); [leave_block|].
  destruct (findUserById store (userId company)) as [owner|]; [|leave_block].
  destruct (negb (hasAccess _)); [leave_block|].
  destruct (fetchAndExtractPricing _ _ _ _); [|leave_block].
  destruct (_ && _); [leave_block|].
  intros H. apply recordChange_insights in H as [H|H]; eauto.
Qed.

Lemma tryBlock_insights company now store l' store' thrown :
  tryBlock createContentHash config settings env company now store = (l', store', thrown) ->
  insights store' = insights store
  \/ exists owner,
       findUserById store (userId company) = Some owner
       /\ insightWritten company now owner store store'.
Proof.
  unfold tryBlock. cbv zeta.
  destruct (_ && _).
  - destruct (discoverPricingUrlsFromHomepage _ _ _) as [discovery|]; [|leave_block].
    destruct (if truthy_opt (recommendedPrimaryUrl discovery) then _ else _) as [source|];
      [|leave_block].
    destruct (truthy source); [|leave_block].
    apply crawlSource_insights.
  - destruct (primaryPricingUrl company) as [source|]; [|leave_block].
    destruct (truthy source); [|leave_block].
    apply crawlSource_insights.
Qed.

(** C3.  An Insight is created only for a Diff whose severity is in the
    owner's allowed-severity set when it is generated.
    [buildInsightFromDiff] answers [shouldCreate: true] exactly when
    the user resolves to an insight severity gate and
    [canGenerateInsight] holds of the entitlements and the severity, so
    it answers [false] whenever there is no gate or
    [canGenerateInsight] is false.  A run of [processCompany] leaves
    the insight collection as it was, or appends one record, generated
    at [now] for a stored diff of the company's owner for which
    [shouldCreate] was [true] and whose severity is among the
    severities allowed to the owner at [now]. *)
Theorem insight_only_for_allowed_severity :
  (forall input : InsightBuildInput,
     let entitlements := resolveEntitlements config (user input) (now input) in
     (insightSeverityGate entitlements = None
      \/ canGenerateInsight entitlements (inputSeverity input) = false ->
      shouldCreate (buildInsightFromDiff config input) = false)
     /\ (shouldCreate (buildInsightFromDiff config input) = true ->
         In (inputSeverity input) (allowedInsightSeverities entitlements)))
  /\ (forall (company : Company) (now : Z) (store : Store),
        let run := processCompanyRun createContentHash config settings env company now store in
        insights (storeAfter run) = insights store
        \/ exists owner,
             findUserById store (userId company) = Some owner
             /\ insightWritten company now owner store (storeAfter run)).
Proof.
  split.
  - intros input entitlements. subst entitlements. rewrite shouldCreate_iff. split.
    + intros [-> | H]; [reflexivity|]. now destruct (insightSeverityGate _).
    + destruct (insightSeverityGate _); [|discriminate]. apply canGenerateInsight_In.
  - intros company now store run. subst run. unfold processCompanyRun.
    destruct (tryBlock _ _ _ _ _ _ _) as [[l store'] thrown] eqn:Htry.
    cbn [storeAfter]. apply tryBlock_insights in Htry.
    rewrite finallyBlock_written. unfold writtenStore. cbn [insights].
    destruct Htry as [H | (owner & Howner & record & diffRecord & H)]; [now left|].
    right. exists owner. split; [assumption|]. exists record, diffRecord.
    cbn [insights diffs]. exact H.
Qed.

(** *** The hash gate *)

Definition hashOf (extraction : CrawlExtractionResult) : option jsstring :=
  match extraction with
  | CrawlExtractionSuccess hash _ _ _ => Some hash
  | CrawlExtractionFailure _ _ => None
  end.

Lemma extraction_hash sourceUrl hash payload confidence pageVerified :
  fetchAndExtractPricing createContentHash (fetch env) settings sourceUrl
  = CrawlExtractionSuccess hash payload confidence pageVerified ->
  exists text, hash = createContentHash text.
Proof.
  unfold fetchAndExtractPricing.
  destruct (NormalizeUrl.normalizeUrl sourceUrl) as [normalized|]; [|discriminate].
  destruct (negb (truthy normalized)); [discriminate|].
  destruct (fetchStaticHtml settings _) as [status html contentType|status reason].
  - destruct (negb _); [discriminate|]. cbv zeta.
    destruct (0 <? _); [discriminate|].
    destruct (_ && _); [discriminate|].
    intros H. apply (f_equal hashOf) in H. cbn [hashOf] in H.
    apply Some_eq in H. eauto.
  - unfold classifyFetchFailure.
    destruct (existsb _ _); [discriminate|]. destruct (_ && _); discriminate.
Qed.

Lemma recordChange_hash company now owner hash payload confidence pageVerified l store
  l' store' thrown :
  recordChange config env company now owner hash payload confidence pageVerified l store
  = (l', store', thrown) ->
  Locals.latestContentHash l' = Locals.latestContentHash l /\ Locals.skippedByHash l' = Locals.skippedByHash l.
Proof.
  unfold recordChange. cbv zeta.
  repeat match goal with
         | |- (match ?x with _ => _ end) = _ -> _ => destruct x
         | |- (if ?x then _ else _) = _ -> _ => destruct x
         end; intros [= <- <- <-]; cbn; auto.
Qed.

(** The locals of a run that stops at the hash gate. *)
Definition gateLocals (l : Locals.Locals) (hash : jsstring) (confidence : float)
  : Locals.Locals :=
  Locals.mk ok None (Some hash) (Some confidence)
    (Locals.discoveredPrimaryPricingUrl l) (Locals.discoveredCandidates l)
    (Locals.attemptedDiscovery l) (Locals.changed l) (Locals.snapshotCreated l)
    (Locals.diffCreated l) (Locals.insightCreated l) true.

Hypothesis digest_length : forall text, List.length (createContentHash text) = 64%nat.

Lemma crawlSource_gate company now source l store l' store' thrown hash :
  Locals.latestContentHash l = None ->
  Models.latestContentHash company = Some hash ->
  crawlSource createContentHash config settings env company now source l store
  = (l', store', thrown) ->
  Locals.latestContentHash l' = Some hash ->
  store' = store /\ thrown = None /\ exists confidence, l' = gateLocals l hash confidence.
Proof.
  intros Hl Hc. unfold crawlSource.
  destruct (storeFault env FindUser); [intros [= <- <- <-]; congruence|].
  destruct (findUserById store (userId company)) as [owner|];
    [|intros [= <- <- <-]; cbn; congruence].
  destruct (negb (hasAccess _)); [intros [= <- <- <-]; cbn; congruence|].
  destruct (fetchAndExtractPricing _ _ _ _)
    as [found payload confidence pageVerified|failureStatus failureError] eqn:Hx;
    [|intros [= <- <- <-]; cbn; congruence].
  apply extraction_hash in Hx as [text ->].
  rewrite Hc. cbn [truthy_opt CronAuth.strict_eq].
  destruct (truthy hash && JS.eqb hash (createContentHash text)) eqn:Hgate.
  - intros [= <- <- <-] [= <-]. repeat split. now exists confidence.
  - intros H Hh. apply recordChange_hash in H as [H _]. rewrite H in Hh.
    cbn [Locals.latestContentHash] in Hh. injection Hh as <-.
    rewrite eqb_refl, andb_true_r in Hgate.
    pose proof (digest_length text) as Hlen.
    destruct (createContentHash text); cbn in Hgate, Hlen; congruence.
Qed.

Lemma tryBlock_gate company now store l' store' thrown hash :
  Models.latestContentHash company = Some hash ->
  tryBlock createContentHash config settings env company now store = (l', store', thrown) ->
  Locals.latestContentHash l' = Some hash ->
  store' = store /\ thrown = None
  /\ Locals.finalStatus l' = ok /\ Locals.finalErrorMessage l' = None
  /\ Locals.changed l' = false /\ Locals.snapshotCreated l' = false
  /\ Locals.diffCreated l' = false /\ Locals.insightCreated l' = false
  /\ Locals.skippedByHash l' = true.
Proof.
  intros Hc. unfold tryBlock. cbv zeta.
  destruct (_ && _).
  - destruct (discoverPricingUrlsFromHomepage _ _ _) as [discovery|];
      [|intros [= <- <- <-]; cbn; congruence].
    destruct (if truthy_opt (recommendedPrimaryUrl discovery) then _ else _) as [source|];
      [|intros [= <- <- <-]; cbn; congruence].
    destruct (truthy source); [|intros [= <- <- <-]; cbn; congruence].
    intros H Hh. apply (crawlSource_gate _ _ _ _ _ _ _ _ hash) in H; auto.
    destruct H as (-> & -> & confidence & ->). cbn. repeat split.
  - destruct (primaryPricingUrl company) as [source|];
      [|intros [= <- <- <-]; cbn; congruence].
    destruct (truthy source); [|intros [= <- <- <-]; cbn; congruence].
    intros H Hh. apply (crawlSource_gate _ _ _ _ _ _ _ _ hash) in H; auto.
    destruct H as (-> & -> & confidence & ->). cbn. repeat split.
Qed.

(** C1.  A run whose extraction yields the content hash already stored
    on the claimed company stops at the hash gate.  The local
    [latestContentHash] of [processCompany] is assigned from the
    extraction only, so that it holds [hash] at the end of the run says
    the page was extracted with that hash.  [createContentHash] gives
    hexadecimal SHA-256 digests, of 64 characters.  Then the run leaves
    the snapshot, diff and insight collections as they were, returns
    status [ok] with [skippedByHash] set and nothing created, writes no
    audit event, and its final update leaves the company's document
    with last status [ok], no error, no lease, the hash, and the next
    crawl one success delay after [now]. *)
Theorem hash_gate_short_circuits (company : Company) (now : Z) (store : Store)
  (hash : jsstring) :
  Models.latestContentHash company = Some hash ->
  Locals.latestContentHash
    (locals (processCompanyRun createContentHash config settings env company now store))
  = Some hash ->
  let run := processCompanyRun createContentHash config settings env company now store in
  snapshots (storeAfter run) = snapshots store
  /\ diffs (storeAfter run) = diffs store
  /\ insights (storeAfter run) = insights store
  /\ auditEvents (storeAfter run) = auditEvents store
  /\ result run = mkResult (Models._id company) ok false false false false true None
  /\ Forall (fun stored =>
               Models._id stored = Models._id company ->
               lastCrawlStatus stored = ok
               /\ lastCrawlError stored = None
               /\ crawlLeaseUntil stored = None
               /\ lastCrawlAt stored = Some now
               /\ nextCrawlAt stored = Some (now + SUCCESS_CRAWL_DELAY_MS settings)%Z
               /\ Models.latestContentHash stored = Some hash)
       (companies (storeAfter run)).
Proof.
  intros Hc Hh run. subst run. revert Hh. unfold processCompanyRun.
  destruct (tryBlock _ _ _ _ _ _ _) as [[l store'] thrown] eqn:Htry.
  cbn [locals storeAfter result]. intros Hh.
  assert (Hl : Locals.latestContentHash l = Some hash)
    by (destruct thrown; [exact Hh | exact Hh]).
  destruct (tryBlock_gate _ _ _ _ _ _ _ Hc Htry Hl)
    as (-> & -> & Hs & He & H1 & H2 & H3 & H4 & H5).
  rewrite finallyBlock_written. unfold writtenStore.
  cbn [snapshots diffs insights auditEvents companies].
  rewrite Hs, He, H1, H2, H3, H4, H5. cbn [auditEventTypeByStatus].
  rewrite app_nil_r. repeat split.
  apply Forall_forall. intros stored Hin Hid.
  apply in_map_iff in Hin as (before & Hstored & _).
  destruct (N.eqb (_id before) (_id company)) eqn:Hsame.
  - subst stored. unfold finalUpdate.
    cbn [lastCrawlStatus lastCrawlError crawlLeaseUntil lastCrawlAt nextCrawlAt
         Models.latestContentHash].
    rewrite Hs, He, Hl. cbn [truthy_opt statusToNextDelayMs]. repeat split.
  - subst stored. apply N.eqb_neq in Hsame. contradiction.
Qed.

End RunnerProperties.

(** *** A run at the gate, and the two runs before it *)

Section RunnerExamples.

Import Normalize Diff Entitlements Insight Extract Constants Discovery Runner PageText.

(** A stand-in for the digest, of the right length: the first 64 code
    units of the text, padded with the digit zero. *)
Definition paddedDigest (text : jsstring) : jsstring :=
  firstn 64 (text ++ repeat 48%N 64).

Lemma paddedDigest_length (text : jsstring) : List.length (paddedDigest text) = 64%nat.
Proof.
  unfold paddedDigest. rewrite length_firstn, length_app, repeat_length. lia.
Qed.

Definition acme_page (price : string) : jsstring :=
  str "<html><head><title>Acme pricing</title></head><body><h2>Pro plan</h2><p>$"
  ++ str price ++ str " per month</p></body></html>".

Definition acme (stored : option jsstring) : Company :=
  mkCompany 7%N 1%N competitor (str "acme.example") (Some (str "https://acme.example"))
    (Some (str "https://acme.example/pricing")) [] (Some 0%Z) (Some 360000%Z) None idle None
    stored None.

Definition acme_store (company : Company) : Store :=
  mkStore [UserLike.mkUser 1%N true None not_started None None] [company] [] [] [] [] 100%N.

Definition acme_env (page : jsstring) : Env :=
  mkEnv (fun _ _ => Threw None)
    (fun _ => Responded 200 (Some (str "text/html; charset=utf-8")) page)
    1000%Z (fun _ => None).

Definition acme_run (page : jsstring) (company : Company) (now : Z) (store : Store) : Run :=
  processCompanyRun paddedDigest specConfig defaults (acme_env page) company now store.

Definition acme_unchanged : Company :=
  acme (Some (paddedDigest (normalizeHtmlForHash (acme_page "49")))).

Lemma hash_gate_short_circuits_witness :
  let run := acme_run (acme_page "49") acme_unchanged 1000 (acme_store acme_unchanged) in
  Locals.latestContentHash (locals run) = Models.latestContentHash acme_unchanged
  /\ snapshots (storeAfter run) = []
  /\ status (result run) = ok
  /\ skippedByHash (result run) = true.
Proof.
  pose proof
    (hash_gate_short_circuits paddedDigest specConfig defaults (acme_env (acme_page "49"))
       paddedDigest_length acme_unchanged 1000 (acme_store acme_unchanged)
       (paddedDigest (normalizeHtmlForHash (acme_page "49")))
       eq_refl ltac:(vm_compute; reflexivity))
    as (Hsnapshots & _ & _ & _ & Hresult & _).
  cbv zeta. unfold acme_run.
  split; [vm_compute; reflexivity|].
  split; [exact Hsnapshots|].
  rewrite Hresult. split; reflexivity.
Defined.

(** Scenarios S1 and S3 in sequence: a first crawl stores the baseline
    snapshot and nothing else; a crawl of the page with 59 for 49 stores
    a second snapshot, a diff of severity [high] and, for an owner on
    Starter, one insight. *)
Lemma baseline_then_price_change :
  let first := acme_run (acme_page "49") (acme None) 1000 (acme_store (acme None)) in
  let second :=
    acme_run (acme_page "59") (hd (acme None) (companies (storeAfter first))) 2000
      (storeAfter first) in
  result first = mkResult 7%N ok true true false false false None
  /\ result second = mkResult 7%N ok true true true true false None
  /\ map recordedSeverity (diffs (storeAfter second)) = [high]
  /\ List.length (snapshots (storeAfter second)) = 2%nat
  /\ List.length (insights (storeAfter second)) = 1%nat.
Proof. vm_compute. repeat split; reflexivity. Qed.

End RunnerExamples.

(** ** Fetch failures *)

Section FetchFailures.

Import Extract Constants.

Variable createContentHash : jsstring -> jsstring.
Variable fetch : jsstring -> FetchOutcome.
Variable settings : Settings.

Lemma href_truthy (url : URL.URLRecord) : truthy (URL.href url) = true.
Proof. unfold URL.href. destruct (URL.scheme url); reflexivity. Qed.

Lemma normalizeUrl_truthy (value normalized : jsstring) :
  NormalizeUrl.normalizeUrl value = Some normalized -> truthy normalized = true.
Proof.
  unfold NormalizeUrl.normalizeUrl. cbv zeta.
  destruct (URL.parse _) as [url|]; [|discriminate].
  destruct (_ && _); [discriminate|].
  intros H. apply Some_eq in H. subst normalized. apply href_truthy.
Qed.

(** C2, evaluated.  When the request for the normalized pricing URL is
    aborted by the timeout, [fetchStaticHtml] answers with status 408
    and error "Request timed out", and [classifyFetchFailure] takes 408
    for a client error: the extraction fails with status
    [manual_needed], not [error], and reason "Request timed out". *)
Theorem timed_out_fetch_is_manual_needed (sourceUrl normalized : jsstring) :
  NormalizeUrl.normalizeUrl sourceUrl = Some normalized ->
  fetch normalized = Aborted ->
  fetchAndExtractPricing createContentHash fetch settings sourceUrl
  = CrawlExtractionFailure manual_needed (str "Request timed out").
Proof.
  intros Hurl Hfetch. unfold fetchAndExtractPricing.
  rewrite Hurl, (normalizeUrl_truthy _ _ Hurl), Hfetch. reflexivity.
Qed.

(** The sibling failure of the transport, a rejected request, is
    classified [error]. *)
Lemma failed_fetch_is_error (sourceUrl normalized : jsstring) (message : option jsstring) :
  NormalizeUrl.normalizeUrl sourceUrl = Some normalized ->
  fetch normalized = Failed message ->
  exists reason,
    fetchAndExtractPricing createContentHash fetch settings sourceUrl
    = CrawlExtractionFailure error reason.
Proof.
  intros Hurl Hfetch. unfold fetchAndExtractPricing.
  rewrite Hurl, (normalizeUrl_truthy _ _ Hurl), Hfetch.
  destruct message; eexists; reflexivity.
Qed.

End FetchFailures.

Lemma timed_out_fetch_is_manual_needed_witness :
  Extract.fetchAndExtractPricing (fun text => text) (fun _ => Extract.Aborted)
    Constants.defaults (str "https://acme.example/pricing")
  = Extract.CrawlExtractionFailure manual_needed (str "Request timed out").
Proof.
  apply (timed_out_fetch_is_manual_needed (fun text => text) (fun _ => Extract.Aborted)
           Constants.defaults (str "https://acme.example/pricing")
           (str "https://acme.example/pricing")).
  - vm_compute. reflexivity.
  - reflexivity.
Defined.

(** ** URL normalization *)

Section UrlNormalization.

Import NormalizeUrl.

(** C7, evaluated.  [normalizeHostname] removes one leading [www.]
    label, so a host that starts with two keeps one after the first
    pass and loses it on the second: normalizing the result of
    [normalizeUrl] changes it again. *)
Theorem normalizeUrl_strips_one_www_per_pass :
  normalizeUrl (str "www.www.example.com") = Some (str "https://www.example.com/")
  /\ normalizeUrl (str "https://www.example.com/") = Some (str "https://example.com/").
Proof. split; vm_compute; reflexivity. Qed.

Lemma normalizeUrl_is_not_idempotent :
  ~ (forall x y : jsstring, normalizeUrl x = Some y -> normalizeUrl y = Some y).
Proof.
  intros H.
  specialize (H (str "www.www.example.com") (str "https://www.example.com/")
                ltac:(vm_compute; reflexivity)).
  vm_compute in H. discriminate H.
Qed.

End UrlNormalization.

(** ** The runner: what every run does *)

Section RunnerEffects.

Import Normalize Diff Entitlements Insight Extract Constants Discovery Runner.

Variable createContentHash : jsstring -> jsstring.
Variable config : Config.
Variable settings : Settings.
Variable env : Env.

Definition b2n (b : bool) : nat := if b then 1%nat else 0%nat.

(** The flags as they stand before the store is written to. *)
Definition nothingCreated (l : Locals.Locals) : Prop :=
  Locals.changed l = false /\ Locals.snapshotCreated l = false
  /\ Locals.diffCreated l = false /\ Locals.insightCreated l = false
  /\ Locals.skippedByHash l = false.

(** What the [try] block does to the store, told by the flags it leaves. *)
Definition blockEffects (store : Store) (l : Locals.Locals) (store' : Store)
  (thrown : option (option jsstring)) : Prop :=
  users store' = users store
  /\ companies store' = companies store
  /\ auditEvents store' = auditEvents store
  /\ (exists added, snapshots store' = snapshots store ++ added
                    /\ List.length added = b2n (Locals.snapshotCreated l))
  /\ (exists added, diffs store' = diffs store ++ added
                    /\ List.length added = b2n (Locals.diffCreated l))
  /\ (exists added, insights store' = insights store ++ added
                    /\ List.length added = b2n (Locals.insightCreated l))
  /\ Locals.changed l = Locals.snapshotCreated l
  /\ (Locals.insightCreated l = true -> Locals.diffCreated l = true)
  /\ (Locals.diffCreated l = true -> Locals.snapshotCreated l = true)
  /\ (Locals.skippedByHash l = true ->
      Locals.snapshotCreated l = false /\ Locals.finalStatus l = ok /\ thrown = None).

Ltac grown :=
  first [ exists []; split; [symmetry; apply app_nil_r | reflexivity]
        | eexists [_]; split; reflexivity ].

Ltac effects :=
  unfold blockEffects;
  cbn [users companies auditEvents snapshots diffs insights
       Locals.changed Locals.snapshotCreated Locals.diffCreated Locals.insightCreated
       Locals.skippedByHash Locals.finalStatus Locals.finish];
  repeat match goal with
         | |- _ /\ _ => split
         | |- exists _, _ => grown
         | |- _ -> _ => intros
         end;
  try reflexivity; try congruence.

Lemma untouched_effects (l : Locals.Locals) (store : Store) :
  nothingCreated l -> forall thrown, blockEffects store l store thrown.
Proof.
  destruct l. unfold nothingCreated.
  cbn [Locals.changed Locals.snapshotCreated Locals.diffCreated Locals.insightCreated
       Locals.skippedByHash].
  intros (-> & -> & -> & -> & ->) thrown. effects.
Qed.

Lemma finish_effects status message l store store' thrown :
  blockEffects store l store' thrown ->
  Locals.skippedByHash l = false ->
  blockEffects store (Locals.finish status message l) store' thrown.
Proof.
  unfold blockEffects.
  cbn [Locals.changed Locals.snapshotCreated Locals.diffCreated Locals.insightCreated
       Locals.skippedByHash Locals.finalStatus Locals.finish].
  intros H Hs. rewrite Hs. intuition congruence.
Qed.

Lemma recordChange_effects company now owner hash payload confidence pageVerified l store
  l' store' thrown :
  nothingCreated l ->
  recordChange config env company now owner hash payload confidence pageVerified l store
  = (l', store', thrown) ->
  blockEffects store l' store' thrown.
Proof.
  destruct l. unfold nothingCreated.
  cbn [Locals.changed Locals.snapshotCreated Locals.diffCreated Locals.insightCreated
       Locals.skippedByHash].
  intros (-> & -> & -> & -> & ->). unfold recordChange. cbv zeta.
  destruct (storeFault env FindPreviousSnapshot); [intros [= <- <- <-]; effects|].
  destruct (storeFault env CreateSnapshot); [intros [= <- <- <-]; effects|].
  destruct (latestSnapshot store (_id company)) as [previous|];
    [|intros [= <- <- <-]; effects].
  destruct (toNormalizedPayload (pricingPayload previous)) as [previousPayload|];
    [|intros [= <- <- <-]; effects].
  destruct (generatePricingDiff _ _ _ _) as [diff|]; [|intros [= <- <- <-]; effects].
  destruct (storeFault env CreateDiff); [intros [= <- <- <-]; effects|].
  destruct (shouldCreate _); [destruct (createInput _)|];
    try (intros [= <- <- <-]; effects; fail).
  destruct (storeFault env CreateInsight); intros [= <- <- <-]; effects.
Qed.

Lemma crawlSource_effects company now source l store l' store' thrown :
  nothingCreated l ->
  crawlSource createContentHash config settings env company now source l store
  = (l', store', thrown) ->
  blockEffects store l' store' thrown.
Proof.
  intros Hl. unfold crawlSource.
  destruct (storeFault env FindUser);
    [intros [= <- <- <-]; now apply untouched_effects|].
  destruct (findUserById store (userId company)) as [owner|];
    [|intros [= <- <- <-]; apply finish_effects;
      [now apply untouched_effects | apply Hl]].
  destruct (negb (hasAccess _));
    [intros [= <- <- <-]; apply finish_effects;
     [now apply untouched_effects | apply Hl]|].
  destruct (fetchAndExtractPricing _ _ _ _)
    as [hash payload confidence pageVerified|failureStatus failureError];
    [|intros [= <- <- <-]; apply finish_effects;
      [now apply untouched_effects | apply Hl]].
  destruct l. unfold nothingCreated in Hl.
  cbn [Locals.changed Locals.snapshotCreated Locals.diffCreated Locals.insightCreated
       Locals.skippedByHash] in Hl.
  destruct Hl as (-> & -> & -> & -> & ->).
  destruct (_ && _).
  - intros [= <- <- <-]. effects.
  - apply recordChange_effects. repeat split.
Qed.

Lemma initial_nothingCreated : nothingCreated Locals.initial.
Proof. repeat split. Qed.

Lemma tryBlock_effects company now store l' store' thrown :
  tryBlock createContentHash config settings env company now store = (l', store', thrown) ->
  blockEffects store l' store' thrown.
Proof.
  unfold tryBlock. cbv zeta.
  destruct (_ && _).
  - destruct (discoverPricingUrlsFromHomepage _ _ _) as [discovery|];
      [|intros [= <- <- <-]; apply untouched_effects; repeat split].
    destruct (if truthy_opt (recommendedPrimaryUrl discovery) then _ else _) as [source|];
      [|intros [= <- <- <-]; apply finish_effects;
        [apply untouched_effects; repeat split | reflexivity]].
    destruct (truthy source);
      [|intros [= <- <- <-]; apply finish_effects;
        [apply untouched_effects; repeat split | reflexivity]].
    apply crawlSource_effects. repeat split.
  - destruct (primaryPricingUrl company) as [source|];
      [|intros [= <- <- <-]; apply finish_effects;
        [apply untouched_effects; repeat split | reflexivity]].
    destruct (truthy source);
      [|intros [= <- <- <-]; apply finish_effects;
        [apply untouched_effects; repeat split | reflexivity]].
    apply crawlSource_effects. repeat split.
Qed.

(** The locals with which the [finally] block runs. *)
Definition finalLocals (company : Company) (now : Z) (store : Store) : Locals.Locals :=
  locals (processCompanyRun createContentHash config settings env company now store).

(** The run, split at the end of the [try] block. *)
Lemma run_split company now store :
  exists l store' thrown,
    tryBlock createContentHash config settings env company now store = (l, store', thrown)
    /\ processCompanyRun createContentHash config settings env company now store
       = let l1 := match thrown with Some t => catchClause t l | None => l end in
         mkRun l1
           (mkResult (Models._id company) (Locals.finalStatus l1) (Locals.changed l1)
              (Locals.snapshotCreated l1) (Locals.diffCreated l1) (Locals.insightCreated l1)
              (Locals.skippedByHash l1) (Locals.finalErrorMessage l1))
           (writtenStore settings company now l1 store').
Proof.
  unfold processCompanyRun.
  destruct (tryBlock _ _ _ _ _ _ _) as [[l store'] thrown].
  exists l, store', thrown. split; [reflexivity|].
  cbv zeta. now rewrite finallyBlock_written.
Qed.

Lemma run_effects (company : Company) (now : Z) (store : Store) :
  let run := processCompanyRun createContentHash config settings env company now store in
  users (storeAfter run) = users store
  /\ (exists added, snapshots (storeAfter run) = snapshots store ++ added
                    /\ List.length added = b2n (snapshotCreated (result run)))
  /\ (exists added, diffs (storeAfter run) = diffs store ++ added
                    /\ List.length added = b2n (diffCreated (result run)))
  /\ (exists added, insights (storeAfter run) = insights store ++ added
                    /\ List.length added = b2n (insightCreated (result run)))
  /\ changed (result run) = snapshotCreated (result run)
  /\ (insightCreated (result run) = true -> diffCreated (result run) = true)
  /\ (diffCreated (result run) = true -> snapshotCreated (result run) = true)
  /\ (skippedByHash (result run) = true ->
      snapshotCreated (result run) = false /\ status (result run) = ok).
Proof.
  intros run. subst run.
  destruct (run_split company now store) as (l & store' & thrown & Htry & ->).
  apply tryBlock_effects in Htry.
  destruct Htry as (Hu & Hc & Ha & Hs & Hd & Hi & H1 & H2 & H3 & H4).
  cbv zeta.
  cbn [storeAfter result users snapshots diffs insights writtenStore changed snapshotCreated
       diffCreated insightCreated skippedByHash status].
  assert (Hflags : forall f : Locals.Locals -> bool,
             (f = Locals.changed \/ f = Locals.snapshotCreated \/ f = Locals.diffCreated
              \/ f = Locals.insightCreated \/ f = Locals.skippedByHash) ->
             f (match thrown with Some t => catchClause t l | None => l end) = f l).
  { intros f Hf. destruct thrown; [|reflexivity].
    destruct Hf as [-> | [-> | [-> | [-> | ->]]]]; reflexivity. }
  rewrite !Hflags by tauto.
  repeat split; try assumption.
  - apply H4. assumption.
  - destruct (H4 H) as (_ & Hok & ->). exact Hok.
Qed.


(** X1.  The flags of the result tell what the run wrote, also when it
    failed midway: the snapshot, diff and insight collections only grow,
    each by one record exactly when its flag is set; [changed] is
    [snapshotCreated]; an insight comes with a diff and a diff with a
    snapshot; a run skipped by the hash gate wrote no snapshot and
    ended [ok]; the users are not written to. *)
Theorem run_flags_tell_what_was_written (company : Company) (now : Z) (store : Store) :
  let run := processCompanyRun createContentHash config settings env company now store in
  users (storeAfter run) = users store
  /\ (exists added, snapshots (storeAfter run) = snapshots store ++ added
                    /\ List.length added = b2n (snapshotCreated (result run)))
  /\ (exists added, diffs (storeAfter run) = diffs store ++ added
                    /\ List.length added = b2n (diffCreated (result run)))
  /\ (exists added, insights (storeAfter run) = insights store ++ added
                    /\ List.length added = b2n (insightCreated (result run)))
  /\ changed (result run) = snapshotCreated (result run)
  /\ (insightCreated (result run) = true -> diffCreated (result run) = true)
  /\ (diffCreated (result run) = true -> snapshotCreated (result run) = true)
  /\ (skippedByHash (result run) = true ->
      snapshotCreated (result run) = false /\ status (result run) = ok).
Proof. exact (run_effects company now store). Qed.

Lemma run_companies (company : Company) (now : Z) (store : Store) :
  let run := processCompanyRun createContentHash config settings env company now store in
  companies (storeAfter run)
  = map (fun stored =>
           if N.eqb (Models._id stored) (Models._id company)
           then finalUpdate settings company now (locals run) stored else stored)
      (companies store).
Proof.
  intros run. subst run.
  destruct (run_split company now store) as (l & store' & thrown & Htry & ->).
  apply tryBlock_effects in Htry. destruct Htry as (_ & Hc & _).
  cbv zeta. cbn [storeAfter locals writtenStore companies]. now rewrite Hc.
Qed.

(** *** The final update *)

Lemma truncateError_length (value : jsstring) :
  (List.length (truncateError value) <= 400)%nat.
Proof.
  unfold truncateError. destruct (Nat.leb_spec (List.length value) 400) as [H|H]; [exact H|].
  rewrite length_app, length_firstn. change (List.length (str "...")) with 3%nat. lia.
Qed.

Lemma truncateError_short (value : jsstring) :
  (List.length value <= 400)%nat -> truncateError value = value.
Proof.
  intros H. unfold truncateError. apply Nat.leb_le in H. now rewrite H.
Qed.

Lemma extraction_failure_status sourceUrl failureStatus failureError :
  fetchAndExtractPricing createContentHash (fetch env) settings sourceUrl
  = CrawlExtractionFailure failureStatus failureError ->
  failureStatus = blocked \/ failureStatus = manual_needed \/ failureStatus = error.
Proof.
  unfold fetchAndExtractPricing.
  assert (Hs : forall a b c d,
             CrawlExtractionFailure a b = CrawlExtractionFailure c d -> a = c).
  { intros a b c d H.
    exact (f_equal (fun r => match r with
                             | CrawlExtractionFailure x _ => x
                             | CrawlExtractionSuccess _ _ _ _ => a
                             end) H). }
  destruct (NormalizeUrl.normalizeUrl sourceUrl) as [normalized|];
    [|intros H; apply Hs in H; auto].
  destruct (negb (truthy normalized)); [intros H; apply Hs in H; auto|].
  destruct (fetchStaticHtml settings _) as [status html contentType|status reason].
  - destruct (negb _); [intros H; apply Hs in H; auto|]. cbv zeta.
    destruct (0 <? _); [intros H; apply Hs in H; auto|].
    destruct (_ && _); [intros H; apply Hs in H; auto|discriminate].
  - unfold classifyFetchFailure.
    destruct (existsb _ _); [intros H; apply Hs in H; auto|].
    destruct (_ && _); intros H; apply Hs in H; auto.
Qed.

(** A block that ends [ok] has cleared the message and did not throw. *)
Definition okIsClean (l : Locals.Locals) (thrown : option (option jsstring)) : Prop :=
  thrown = None -> Locals.finalStatus l = ok -> Locals.finalErrorMessage l = None.

Lemma recordChange_ok company now owner hash payload confidence pageVerified l store
  l' store' thrown :
  Locals.finalStatus l = error ->
  recordChange config env company now owner hash payload confidence pageVerified l store
  = (l', store', thrown) ->
  okIsClean l' thrown.
Proof.
  intros Hl. unfold recordChange, okIsClean. cbv zeta.
  repeat match goal with
         | |- (match ?x with _ => _ end) = _ -> _ => destruct x
         | |- (if ?x then _ else _) = _ -> _ => destruct x
         end;
    intros [= <- <- <-];
    cbn [Locals.finalStatus Locals.finalErrorMessage Locals.finish];
    congruence.
Qed.

Lemma crawlSource_ok company now source l store l' store' thrown :
  Locals.finalStatus l = error ->
  crawlSource createContentHash config settings env company now source l store
  = (l', store', thrown) ->
  okIsClean l' thrown.
Proof.
  intros Hl. unfold crawlSource.
  destruct (storeFault env FindUser); [intros [= <- <- <-]; unfold okIsClean; congruence|].
  destruct (findUserById store (userId company)) as [owner|];
    [|intros [= <- <- <-]; unfold okIsClean; cbn; congruence].
  destruct (negb (hasAccess _)); [intros [= <- <- <-]; unfold okIsClean; cbn; congruence|].
  destruct (fetchAndExtractPricing _ _ _ _)
    as [hash payload confidence pageVerified|failureStatus failureError] eqn:Hx.
  - destruct (_ && _).
    + intros [= <- <- <-]. unfold okIsClean. reflexivity.
    + apply recordChange_ok. exact Hl.
  - apply extraction_failure_status in Hx.
    intros [= <- <- <-]. unfold okIsClean.
    cbn [Locals.finalStatus Locals.finalErrorMessage Locals.finish].
    destruct Hx as [-> | [-> | ->]]; discriminate.
Qed.

Lemma tryBlock_ok company now store l' store' thrown :
  tryBlock createContentHash config settings env company now store = (l', store', thrown) ->
  okIsClean l' thrown.
Proof.
  unfold tryBlock. cbv zeta.
  destruct (_ && _).
  - destruct (discoverPricingUrlsFromHomepage _ _ _) as [discovery|];
      [|intros [= <- <- <-]; unfold okIsClean; discriminate].
    destruct (if truthy_opt (recommendedPrimaryUrl discovery) then _ else _) as [source|];
      [|intros [= <- <- <-]; unfold okIsClean; cbn; discriminate].
    destruct (truthy source); [|intros [= <- <- <-]; unfold okIsClean; cbn; discriminate].
    apply crawlSource_ok. reflexivity.
  - destruct (primaryPricingUrl company) as [source|];
      [|intros [= <- <- <-]; unfold okIsClean; cbn; discriminate].
    destruct (truthy source); [|intros [= <- <- <-]; unfold okIsClean; cbn; discriminate].
    apply crawlSource_ok. reflexivity.
Qed.

Lemma Forall2_map_r {A B : Type} (P : A -> B -> Prop) (f : A -> B) (l : list A) :
  (forall x, In x l -> P x (f x)) -> Forall2 P l (map f l).
Proof.
  induction l as [|x l IH]; intros H; cbn [map]; constructor.
  - apply H. now left.
  - apply IH. intros y Hy. apply H. now right.
Qed.

(** The update of a run whose final writes go through. *)
Lemma run_final_update (company : Company) (now : Z) (store : Store) :
  let run := processCompanyRun createContentHash config settings env company now store in
  Forall2
    (fun before after =>
       if N.eqb (Models._id before) (Models._id company)
       then Models._id after = Models._id before
            /\ crawlLeaseUntil after = None
            /\ lastCrawlAt after = Some now
            /\ lastCrawlStatus after = status (result run)
            /\ nextCrawlAt after
               = Some (now + statusToNextDelayMs settings (status (result run)))%Z
            /\ (status (result run) = ok -> lastCrawlError after = None)
            /\ (forall text, lastCrawlError after = Some text ->
                             (List.length text <= 400)%nat)
       else after = before)
    (companies store) (companies (storeAfter run)).
Proof.
  intros run. subst run.
  destruct (run_split company now store) as (l & store' & thrown & Htry & ->).
  pose proof (tryBlock_ok _ _ _ _ _ _ Htry) as Hok.
  apply tryBlock_effects in Htry. destruct Htry as (_ & Hc & _).
  cbv zeta. cbn [storeAfter result status writtenStore companies]. rewrite Hc.
  apply Forall2_map_r. intros before _.
  destruct (N.eqb (_id before) (_id company)); [|reflexivity].
  unfold finalUpdate.
  cbn [Models._id crawlLeaseUntil lastCrawlAt lastCrawlStatus nextCrawlAt lastCrawlError].
  repeat split.
  - intros Hstatus. destruct thrown as [t|]; [discriminate Hstatus|].
    now rewrite (Hok eq_refl Hstatus).
  - intros text.
    destruct (truthy_opt _); [|discriminate].
    destruct (Locals.finalErrorMessage _) as [message|]; [|discriminate].
    cbn [option_map]. intros H. apply Some_eq in H. subst text.
    apply truncateError_length.
Qed.

(** [processCompany] against the run whose final writes go through:
    it returns the result of that run, having written the update and,
    unless the write of the event fails, the event; or it rejects with
    what the update threw, the store being as the [try] block left
    it. *)
Lemma processCompany_outcome (writes : FinalWrites) (company : Company) (now : Z)
  (store : Store) :
  let run := processCompanyRun createContentHash config settings env company now store in
  exists tried,
    users tried = users store /\ companies tried = companies store
    /\ auditEvents tried = auditEvents store
    /\ storeAfter run = writtenStore settings company now (locals run) tried
    /\ processCompany createContentHash config settings env writes company now store
       = match updateError writes with
         | Some rejected => (Threw rejected, tried)
         | None =>
             (Returned (result run),
              logCrawlFailure settings writes company now (locals run)
                (updateCompany settings company now (locals run) tried))
         end.
Proof.
  intros run. subst run.
  destruct (run_split company now store) as (l & store' & thrown & Htry & Hrun).
  rewrite Hrun. cbv zeta. cbn [storeAfter locals result].
  exists store'.
  pose proof (tryBlock_effects _ _ _ _ _ _ Htry) as (Hu & Hc & Ha & _).
  repeat split; try assumption.
  unfold processCompany, beforeFinally. rewrite Htry. unfold finallyBlock, resultOf.
  destruct (updateError writes); reflexivity.
Qed.

Lemma processCompany_goes_through (company : Company) (now : Z) (store : Store) :
  let run := processCompanyRun createContentHash config settings env company now store in
  processCompany createContentHash config settings env writesGoThrough company now store
  = (Returned (result run), storeAfter run).
Proof.
  cbv zeta. unfold processCompany, beforeFinally, processCompanyRun.
  destruct (tryBlock _ _ _ _ _ _ _) as [[l store'] thrown].
  unfold finallyBlock, writesGoThrough, resultOf. reflexivity.
Qed.

Lemma sanitizeString_length (value : jsstring) :
  (List.length (sanitizeString value) <= 500)%nat.
Proof.
  unfold sanitizeString, MAX_STRING_LENGTH.
  destruct (Nat.leb_spec (List.length value) 500) as [H|H]; [exact H|].
  rewrite length_app, length_firstn. change (List.length (str "...")) with 3%nat. lia.
Qed.

(** X2.  [processCompany] releases the lease unless its final update
    rejects.  When [Company.updateOne] goes through, [processCompany]
    returns, whatever happened before, and the company's document is
    left released and rescheduled: no lease, [lastCrawlAt] at [now],
    the status of the result, the next crawl one status-dependent delay
    after [now], and an error text of at most 400 code units, absent
    when the run ended [ok]; every other document is left as it was.
    When the update rejects, [processCompany] rejects with the same
    error, and no company document and no audit event is written: the
    lease stays until it runs out. *)
Theorem run_releases_lease_unless_update_rejects (writes : FinalWrites) (company : Company)
  (now : Z) (store : Store) :
  let '(outcome, store') :=
    processCompany createContentHash config settings env writes company now store in
  match updateError writes with
  | None =>
      exists result,
        outcome = Returned result
        /\ Forall2
             (fun before after =>
                if N.eqb (Models._id before) (Models._id company)
                then Models._id after = Models._id before
                     /\ crawlLeaseUntil after = None
                     /\ lastCrawlAt after = Some now
                     /\ lastCrawlStatus after = status result
                     /\ nextCrawlAt after
                        = Some (now + statusToNextDelayMs settings (status result))%Z
                     /\ (status result = ok -> lastCrawlError after = None)
                     /\ (forall text, lastCrawlError after = Some text ->
                                      (List.length text <= 400)%nat)
                else after = before)
             (companies store) (companies store')
  | Some rejected =>
      outcome = Threw rejected
      /\ companies store' = companies store
      /\ auditEvents store' = auditEvents store
  end.
Proof.
  destruct (processCompany_outcome writes company now store)
    as (tried & Hu & Hc & Ha & Hafter & Hp).
  rewrite Hp. pose proof (run_final_update company now store) as Hfinal.
  cbv zeta in Hfinal. rewrite Hafter in Hfinal.
  destruct (updateError writes) as [rejected|].
  - repeat split; assumption.
  - eexists. split; [reflexivity|].
    replace (companies (logCrawlFailure _ _ _ _ _ _))
      with (companies (writtenStore settings company now
                         (locals (processCompanyRun createContentHash config settings env
                                    company now store)) tried)); [exact Hfinal|].
    unfold logCrawlFailure, updateCompany, writtenStore.
    destruct (auditEventTypeByStatus _); [destruct (auditWriteFails writes)|]; reflexivity.
Qed.

(** X3.  [processCompany] writes to the audit trail only for a run
    that ends [blocked], [manual_needed] or [error], and then only when
    the final update and the write of the event go through: one event
    of the matching type, carrying the owner, the company, the status,
    the time of the next crawl, and the reason of the result, cut to
    500 code units.  In every other case, a run that ends [ok] or
    [idle] among them, the audit trail is left as it was. *)
Theorem run_audits_failures_only (writes : FinalWrites) (company : Company) (now : Z)
  (store : Store) :
  let run := processCompanyRun createContentHash config settings env company now store in
  let store' :=
    snd (processCompany createContentHash config settings env writes company now store) in
  let event (type : CrawlErrorAuditEventType) :=
    mkAuditEvent type (userId company) (Models._id company) (status (result run))
      (option_map sanitizeString (reason (result run)))
      (now + statusToNextDelayMs settings (status (result run)))%Z in
  auditEvents store'
  = auditEvents store
    ++ match updateError writes, auditWriteFails writes with
       | None, false =>
           match status (result run) with
           | blocked => [event crawl_blocked]
           | manual_needed => [event crawl_manual_needed]
           | error => [event crawl_error]
           | ok | idle => []
           end
       | _, _ => []
       end
  /\ forall type text,
       auditReason (event type) = Some text -> (List.length text <= 500)%nat.
Proof.
  intros run store' event. subst store' event.
  destruct (processCompany_outcome writes company now store)
    as (tried & Hu & Hc & Ha & Hafter & Hp).
  rewrite Hp. fold run. split.
  - destruct (updateError writes) as [rejected|]; cbn [snd].
    + now rewrite app_nil_r.
    + unfold logCrawlFailure, updateCompany. cbn [auditEvents].
      subst run. destruct (run_split company now store) as (l & s1 & thrown & _ & ->).
      cbv zeta. cbn [locals result status reason].
      destruct (Locals.finalStatus _); cbn [auditEventTypeByStatus];
        try (destruct (auditWriteFails writes));
        cbn [auditEvents]; rewrite ?Ha, ?app_nil_r; reflexivity.
  - intros type text. cbn [auditReason].
    destruct (reason (result run)) as [message|]; [|discriminate].
    cbn [option_map]. intros H. apply Some_eq in H. subst text.
    apply sanitizeString_length.
Qed.

(** *** Runs that stop early *)

(** X4.  A company whose owner has neither paid access nor a running
    trial is not crawled: with a pricing URL on file and the owner
    found, the run ends [idle] with the reason below whatever the
    network would answer, writes no snapshot, diff, insight or audit
    event, and (by the final update) comes up again one success delay
    later. *)
Theorem ineligible_owner_is_not_crawled (company : Company) (now : Z) (store : Store)
  (source : jsstring) (owner : User) :
  primaryPricingUrl company = Some source ->
  truthy source = true ->
  storeFault env FindUser = None ->
  findUserById store (userId company) = Some owner ->
  hasAccess (resolveEntitlements config owner now) = false ->
  let run := processCompanyRun createContentHash config settings env company now store in
  result run
  = mkResult (Models._id company) idle false false false false false
      (Some (str "User is not eligible for competitor crawling"))
  /\ snapshots (storeAfter run) = snapshots store
  /\ diffs (storeAfter run) = diffs store
  /\ insights (storeAfter run) = insights store
  /\ auditEvents (storeAfter run) = auditEvents store
  /\ Forall (fun stored =>
               Models._id stored = Models._id company ->
               lastCrawlStatus stored = idle
               /\ nextCrawlAt stored = Some (now + SUCCESS_CRAWL_DELAY_MS settings)%Z)
        (companies (storeAfter run)).
Proof.
  intros Hprimary Htruthy Hfault Hfind Haccess run. subst run.
  unfold processCompanyRun, tryBlock. cbv zeta.
  rewrite Hprimary. cbn [truthy_opt]. rewrite Htruthy. cbn [negb andb].
  unfold crawlSource. rewrite Hfault, Hfind, Haccess. cbn [negb]. rewrite Htruthy.
  rewrite finallyBlock_written.
  cbn [result storeAfter writtenStore snapshots diffs insights auditEvents companies
       Locals.finish Locals.initial Locals.finalStatus Locals.changed Locals.snapshotCreated
       Locals.diffCreated Locals.insightCreated Locals.skippedByHash
       Locals.finalErrorMessage auditEventTypeByStatus].
  rewrite app_nil_r. repeat split.
  apply Forall_forall. intros stored Hin Hid.
  apply in_map_iff in Hin as (before & Hstored & _).
  destruct (N.eqb (_id before) (_id company)) eqn:Hsame.
  - subst stored. unfold finalUpdate.
    cbn [lastCrawlStatus nextCrawlAt Locals.finalStatus statusToNextDelayMs]. split; reflexivity.
  - subst stored. apply N.eqb_neq in Hsame. contradiction.
Qed.

(** With no earlier snapshot of the company there is nothing to
    compare with. *)
Definition noComparison (store : Store) (l : Locals.Locals) (store' : Store) : Prop :=
  diffs store' = diffs store /\ insights store' = insights store
  /\ Locals.diffCreated l = false /\ Locals.insightCreated l = false.

Lemma recordChange_baseline company now owner hash payload confidence pageVerified l store
  l' store' thrown :
  latestSnapshot store (Models._id company) = None ->
  Locals.diffCreated l = false -> Locals.insightCreated l = false ->
  recordChange config env company now owner hash payload confidence pageVerified l store
  = (l', store', thrown) ->
  noComparison store l' store'.
Proof.
  intros Hnone Hd Hi. unfold recordChange, noComparison. cbv zeta. rewrite Hnone.
  destruct (storeFault env FindPreviousSnapshot); [intros [= <- <- <-]; auto|].
  destruct (storeFault env CreateSnapshot); intros [= <- <- <-];
    cbn [diffs insights Locals.diffCreated Locals.insightCreated Locals.finish]; auto.
Qed.

Lemma tryBlock_baseline company now store l' store' thrown :
  latestSnapshot store (Models._id company) = None ->
  tryBlock createContentHash config settings env company now store = (l', store', thrown) ->
  noComparison store l' store'.
Proof.
  intros Hnone.
  assert (Hsource : forall source l,
             Locals.diffCreated l = false -> Locals.insightCreated l = false ->
             crawlSource createContentHash config settings env company now source l store
             = (l', store', thrown) ->
             noComparison store l' store').
  { intros source l Hd Hi. unfold crawlSource.
    destruct (storeFault env FindUser); [intros [= <- <- <-]; repeat split; assumption|].
    destruct (findUserById store (userId company)) as [owner|];
      [|intros [= <- <- <-]; repeat split; assumption].
    destruct (negb (hasAccess _)); [intros [= <- <- <-]; repeat split; assumption|].
    destruct (fetchAndExtractPricing _ _ _ _); [|intros [= <- <- <-]; repeat split; assumption].
    destruct (_ && _); [intros [= <- <- <-]; repeat split; assumption|].
    apply recordChange_baseline; assumption. }
  unfold tryBlock. cbv zeta.
  destruct (_ && _).
  - destruct (discoverPricingUrlsFromHomepage _ _ _) as [discovery|];
      [|intros [= <- <- <-]; repeat split].
    destruct (if truthy_opt (recommendedPrimaryUrl discovery) then _ else _) as [source|];
      [|intros [= <- <- <-]; repeat split].
    destruct (truthy source); [|intros [= <- <- <-]; repeat split].
    apply Hsource; reflexivity.
  - destruct (primaryPricingUrl company) as [source|]; [|intros [= <- <- <-]; repeat split].
    destruct (truthy source); [|intros [= <- <- <-]; repeat split].
    apply Hsource; reflexivity.
Qed.

(** X5.  The first crawl of a company only lays the baseline: while the
    store holds no snapshot of the company, a run creates no diff and no
    insight, whatever the page says. *)
Theorem first_crawl_creates_no_diff (company : Company) (now : Z) (store : Store) :
  latestSnapshot store (Models._id company) = None ->
  let run := processCompanyRun createContentHash config settings env company now store in
  diffs (storeAfter run) = diffs store
  /\ insights (storeAfter run) = insights store
  /\ diffCreated (result run) = false
  /\ insightCreated (result run) = false.
Proof.
  intros Hnone run. subst run.
  destruct (run_split company now store) as (l & store' & thrown & Htry & ->).
  apply (tryBlock_baseline _ _ _ _ _ _ Hnone) in Htry.
  destruct Htry as (Hd & Hi & Hfd & Hfi).
  cbv zeta. cbn [storeAfter result writtenStore diffs insights diffCreated insightCreated].
  destruct thrown; cbn [catchClause Locals.finish Locals.diffCreated Locals.insightCreated];
    auto.
Qed.

End RunnerEffects.

Section RunnerEffectsExamples.

Import Entitlements Extract Constants Runner PageText.

(** The store of [acme_store], its owner without access. *)
Definition lapsed_store (company : Company) : Store :=
  mkStore [UserLike.mkUser 1%N false None expired (Some 0%Z) (Some 500%Z)] [company]
    [] [] [] [] 100%N.

Lemma ineligible_owner_is_not_crawled_witness :
  status (result (acme_run (acme_page "49") (acme None) 1000 (lapsed_store (acme None))))
  = idle.
Proof.
  pose proof
    (ineligible_owner_is_not_crawled paddedDigest specConfig defaults (acme_env (acme_page "49"))
       (acme None) 1000 (lapsed_store (acme None)) (str "https://acme.example/pricing")
       (UserLike.mkUser 1%N false None expired (Some 0%Z) (Some 500%Z))
       eq_refl eq_refl eq_refl eq_refl eq_refl) as (Hresult & _).
  unfold acme_run. rewrite Hresult. reflexivity.
Defined.

Lemma first_crawl_creates_no_diff_witness :
  let run := acme_run (acme_page "49") (acme None) 1000 (acme_store (acme None)) in
  snapshotCreated (result run) = true /\ diffCreated (result run) = false.
Proof.
  cbv zeta. split; [vm_compute; reflexivity|].
  exact (proj1 (proj2 (proj2
           (first_crawl_creates_no_diff paddedDigest specConfig defaults
              (acme_env (acme_page "49")) (acme None) 1000 (acme_store (acme None))
              eq_refl)))).
Defined.

End RunnerEffectsExamples.

(** ** The extractor: outcomes *)

Section ExtractorOutcomes.

Import Normalize RegExp PriceScan PageText Extract Constants.

(** X6.  Every price mention the scan returns, on any text, has a
    finite amount above zero: a match whose digits parse to zero or
    overflow is dropped. *)
Theorem extracted_amounts_are_finite_and_positive (text : jsstring) :
  Forall (fun mention =>
            Num.isFinite (amount mention) = true /\ Num.gtb (amount mention) 0 = true)
    (extractPriceMentions text).
Proof.
  unfold extractPriceMentions. apply Forall_forall. intros mention Hin.
  apply in_flat_map in Hin as (m & _ & Hin). revert Hin. unfold priceOfMatch. cbv zeta.
  destruct (Num.isFinite _ && Num.gtb _ 0) eqn:Hguard; [|intros []].
  intros [<- | []]. cbn [amount]. now apply andb_true_iff in Hguard.
Qed.

Variable createContentHash : jsstring -> jsstring.
Variable settings : Settings.

Definition payloadOf (extraction : CrawlExtractionResult) : option NormalizedPricingPayload :=
  match extraction with
  | CrawlExtractionSuccess _ payload _ _ => Some payload
  | CrawlExtractionFailure _ _ => None
  end.

Definition confidenceOf (extraction : CrawlExtractionResult) : option float :=
  match extraction with
  | CrawlExtractionSuccess _ _ confidence _ => Some confidence
  | CrawlExtractionFailure _ _ => None
  end.

Definition verifiedOf (extraction : CrawlExtractionResult) : option bool :=
  match extraction with
  | CrawlExtractionSuccess _ _ _ pageVerified => Some pageVerified
  | CrawlExtractionFailure _ _ => None
  end.

(** X7.  A response outside 200..299 fails the extraction with the
    reason ["HTTP " + status]: as [blocked] on 401, 403 and 429, as
    [manual_needed] on every other status from 400 to 499, as [error]
    on all others; the body is not looked at. *)
Theorem http_failure_is_classified_by_status (fetch : jsstring -> FetchOutcome)
  (sourceUrl normalized : jsstring) (status : Z) (contentType : option jsstring)
  (body : jsstring) :
  NormalizeUrl.normalizeUrl sourceUrl = Some normalized ->
  fetch normalized = Responded status contentType body ->
  (status < 200 \/ 299 < status)%Z ->
  let outcome := fetchAndExtractPricing createContentHash fetch settings sourceUrl in
  (In status [401; 403; 429]%Z ->
   outcome = CrawlExtractionFailure blocked (httpStatusText status))
  /\ ((400 <= status < 500)%Z -> ~ In status [401; 403; 429]%Z ->
      outcome = CrawlExtractionFailure manual_needed (httpStatusText status))
  /\ ((status < 400 \/ 500 <= status)%Z ->
      outcome = CrawlExtractionFailure error (httpStatusText status)).
Proof.
  intros Hurl Hfetch Hstatus outcome. subst outcome. unfold fetchAndExtractPricing.
  rewrite Hurl, (normalizeUrl_truthy _ _ Hurl), Hfetch. cbn [negb fetchStaticHtml].
  assert (Hok : responseOk status = false) by (unfold responseOk; lia).
  rewrite Hok. cbn [negb]. unfold classifyFetchFailure, BLOCKED_HTTP_STATUSES.
  cbn [existsb In].
  repeat split.
  - intros [<- | [<- | [<- | []]]]; reflexivity.
  - intros Hrange Hnot.
    destruct (Z.eqb_spec status 401); [subst; exfalso; apply Hnot; auto|].
    destruct (Z.eqb_spec status 403); [subst; exfalso; apply Hnot; auto|].
    destruct (Z.eqb_spec status 429); [subst; exfalso; apply Hnot; auto|].
    cbn [orb]. replace ((400 <=? status) && (status <? 500))%Z with true by lia.
    reflexivity.
  - intros Hrange.
    destruct (Z.eqb_spec status 401); [lia|].
    destruct (Z.eqb_spec status 403); [lia|].
    destruct (Z.eqb_spec status 429); [lia|].
    cbn [orb]. replace ((400 <=? status) && (status <? 500))%Z with false by lia.
    reflexivity.
Qed.

(** X8.  The extractor reads no more than [MAX_HTML_LENGTH] code units
    of a body: two answers with the same status and content type whose
    bodies agree up to that length give the same result, hash,
    payload, confidence and all. *)
Theorem extraction_reads_a_bounded_prefix (fetch1 fetch2 : jsstring -> FetchOutcome)
  (sourceUrl normalized : jsstring) (status : Z) (contentType : option jsstring)
  (body1 body2 : jsstring) :
  NormalizeUrl.normalizeUrl sourceUrl = Some normalized ->
  fetch1 normalized = Responded status contentType body1 ->
  fetch2 normalized = Responded status contentType body2 ->
  firstn (N.to_nat (MAX_HTML_LENGTH settings)) body1
  = firstn (N.to_nat (MAX_HTML_LENGTH settings)) body2 ->
  fetchAndExtractPricing createContentHash fetch1 settings sourceUrl
  = fetchAndExtractPricing createContentHash fetch2 settings sourceUrl.
Proof.
  intros Hurl H1 H2 Hbody. unfold fetchAndExtractPricing.
  rewrite Hurl, H1, H2. unfold fetchStaticHtml. rewrite Hbody. reflexivity.
Qed.

Lemma signal_found (text : jsstring) (signals : list string) (signal : string) :
  In signal signals ->
  includes (toLowerCase text) (str signal) = true ->
  (0 <? List.length (extractSignalMentions text signals)) = true.
Proof.
  intros Hin Hinc. unfold extractSignalMentions. cbv zeta. rewrite length_map.
  apply Nat.ltb_lt.
  assert (Hf : In signal (filter (fun s => includes (toLowerCase text) (str s)) signals))
    by (apply filter_In; split; assumption).
  destruct (filter _ signals); [destruct Hf | cbn; lia].
Qed.

(** X9.  Bot-protection wording wins over everything else on the page:
    when an HTML answer in 200..299 has, in its visible text,
    lower-cased, one of the blocked signals, the extraction fails as
    [blocked], whatever prices the page shows. *)
Theorem blocked_wording_blocks_the_page (fetch : jsstring -> FetchOutcome)
  (sourceUrl normalized : jsstring) (status : Z) (contentType body : jsstring)
  (signal : string) :
  NormalizeUrl.normalizeUrl sourceUrl = Some normalized ->
  fetch normalized = Responded status (Some contentType) body ->
  (200 <= status <= 299)%Z ->
  includes (toLowerCase contentType) (str "text/html") = true ->
  In signal BLOCKED_TEXT_SIGNALS ->
  includes
    (toLowerCase (stripHtmlToText (firstn (N.to_nat (MAX_HTML_LENGTH settings)) body)))
    (str signal) = true ->
  exists reason,
    fetchAndExtractPricing createContentHash fetch settings sourceUrl
    = CrawlExtractionFailure blocked (str "Bot protection detected: " ++ reason).
Proof.
  intros Hurl Hfetch Hstatus Htype Hin Hinc. unfold fetchAndExtractPricing.
  rewrite Hurl, (normalizeUrl_truthy _ _ Hurl), Hfetch. cbn [negb fetchStaticHtml].
  assert (Hok : responseOk status = true) by (unfold responseOk; lia).
  rewrite Hok. cbn [negb]. rewrite Htype. cbn [negb]. cbv zeta.
  rewrite (signal_found _ _ _ Hin Hinc). eexists. reflexivity.
Qed.

Variable fetch : jsstring -> FetchOutcome.

(** X10.  What a successful extraction stands for.  The page answered in
    200..299; the hash is the digest of the normalized text of the
    bounded body; the payload carries the normalized URL; the
    confidence is one of five levels, 0.4 at least; and the page is
    verified exactly when the confidence is 0.9 or 0.78 and the payload
    holds a price mention. *)
Theorem successful_extraction_facts (sourceUrl hash : jsstring)
  (payload : NormalizedPricingPayload) (confidence : float) (pageVerified : bool) :
  fetchAndExtractPricing createContentHash fetch settings sourceUrl
  = CrawlExtractionSuccess hash payload confidence pageVerified ->
  exists normalized status contentType body,
    NormalizeUrl.normalizeUrl sourceUrl = Some normalized
    /\ fetch normalized = Responded status contentType body
    /\ (200 <= status <= 299)%Z
    /\ hash = createContentHash
                (normalizeHtmlForHash (firstn (N.to_nat (MAX_HTML_LENGTH settings)) body))
    /\ Normalize.sourceUrl payload = normalized
    /\ In confidence [0.9; 0.78; 0.72; 0.45; 0.4]%float
    /\ (pageVerified = true <->
        (confidence = 0.9%float \/ confidence = 0.78%float)
        /\ priceMentions payload <> []).
Proof.
  unfold fetchAndExtractPricing.
  destruct (NormalizeUrl.normalizeUrl sourceUrl) as [normalized|]; [|discriminate].
  destruct (negb (truthy normalized)); [discriminate|].
  unfold fetchStaticHtml.
  destruct (fetch normalized) as [status contentType body| |[message|]] eqn:Hfetch;
    try (unfold classifyFetchFailure;
         destruct (existsb _ _); [discriminate|]; destruct (_ && _); discriminate).
  destruct (responseOk status) eqn:Hok; cbn [negb];
    [|unfold classifyFetchFailure;
      destruct (existsb _ _); [discriminate|]; destruct (_ && _); discriminate].
  destruct (negb _); [discriminate|]. cbv zeta.
  destruct (0 <? _); [discriminate|].
  remember (firstn (N.to_nat (MAX_HTML_LENGTH settings)) body) as html eqn:Hhtml.
  generalize (extractPriceMentions (stripHtmlToText html)).
  generalize (extractSignalMentions (stripHtmlToText html) PRICING_TEXT_SIGNALS).
  generalize (extractSignalMentions (stripHtmlToText html) CUSTOM_PRICING_SIGNALS).
  intros hints pricingSignals mentions.
  destruct (_ && _) eqn:Hnone; [discriminate|].
  intros H.
  pose proof (f_equal hashOf H) as Hh. cbn [hashOf] in Hh. apply Some_eq in Hh.
  pose proof (f_equal payloadOf H) as Hp. cbn [payloadOf] in Hp. apply Some_eq in Hp.
  pose proof (f_equal confidenceOf H) as Hc. cbn [confidenceOf] in Hc. apply Some_eq in Hc.
  pose proof (f_equal verifiedOf H) as Hv. cbn [verifiedOf] in Hv. apply Some_eq in Hv.
  clear H.
  exists normalized, status, contentType, body.
  split; [reflexivity|]. split; [exact Hfetch|].
  split; [unfold responseOk in Hok; lia|].
  split; [now subst hash html|].
  split; [subst payload; reflexivity|].
  assert (Hlen : (0 <? List.length (priceMentions payload))
                 = negb (List.length mentions =? 0)).
  { subst payload. cbn [priceMentions canonicalizePricingPayload].
    unfold uniquePrices. cbv zeta.
    destruct mentions as [|first more]; [reflexivity|].
    cbn [fold_left existsb app List.length Nat.eqb negb].
    match goal with
    | |- context [fold_left ?f more ?init] =>
        assert (Hgrow : forall prices acc, acc <> [] -> fold_left f prices acc <> [])
    end.
    { induction prices as [|p prices IH]; intros acc Hacc; cbn [fold_left]; [exact Hacc|].
      apply IH. destruct (existsb _ acc); [exact Hacc|]. now destruct acc. }
    match goal with
    | |- context [fold_left ?f more ?init] =>
        specialize (Hgrow more init ltac:(discriminate));
        destruct (fold_left f more init) as [|entry entries]; [contradiction|]
    end.
    cbn [map Num.sort fold_right].
    destruct (fold_right _ _ _);
      [reflexivity | cbn [Num.insertSorted]; destruct (comparePrices _ _); reflexivity]. }
  rewrite Hp in Hv. rewrite <- Hv, <- Hc, Hlen. unfold getConfidence.
  assert (Hneq : forall q : NormalizedPricingPayload, (priceMentions q <> [])
                   <-> (0 <? List.length (priceMentions q)) = true).
  { intros q. destruct (priceMentions q); cbn; split; congruence. }
  rewrite Hneq, Hlen.
  destruct (List.length mentions) as [|[|[|n]]];
    cbn [Nat.leb Nat.eqb negb andb] in *;
    destruct (List.length pricingSignals); destruct (List.length hints);
    cbn [Nat.ltb Nat.leb Nat.eqb andb] in *; try discriminate Hnone;
    (split; [vm_compute; tauto|]);
    vm_compute;
    (split;
     [ intros Hx; first [discriminate Hx | split; [auto | reflexivity]]
     | intros [[Hx|Hx] Hy]; try discriminate Hy; try reflexivity;
       apply (f_equal (fun x => PrimFloat.eqb x 0.9 || PrimFloat.eqb x 0.78)) in Hx;
       vm_compute in Hx; discriminate Hx ]).
Qed.

End ExtractorOutcomes.
Section ExtractorExamples.

Import Normalize PageText Extract Constants.

Definition pricing_url : jsstring := str "https://acme.example/pricing".

Lemma http_failure_is_classified_by_status_witness :
  fetchAndExtractPricing (fun text => text) (fun _ => Responded 503 None []) defaults
    pricing_url
  = CrawlExtractionFailure error (str "HTTP 503").
Proof.
  apply (http_failure_is_classified_by_status (fun text => text) defaults
           (fun _ => Responded 503 None []) pricing_url pricing_url 503 None []).
  - vm_compute. reflexivity.
  - reflexivity.
  - lia.
  - lia.
Defined.

(** Settings that bound a body at 24 code units. *)
Definition short_bodies : Settings :=
  mkSettings 3 360000 86400000 21600000 129600000 172800000 24.

Lemma extraction_reads_a_bounded_prefix_witness :
  let answer (tail : string) :=
    fun _ : jsstring =>
      Responded 200 (Some (str "text/html")) (str "<p>Pro plan $49 / mo</p>" ++ str tail) in
  fetchAndExtractPricing (fun text => text) (answer "<p>$99</p>"%string) short_bodies pricing_url
  = fetchAndExtractPricing (fun text => text) (answer "captcha"%string) short_bodies pricing_url.
Proof.
  cbv zeta.
  apply (extraction_reads_a_bounded_prefix (fun text => text) short_bodies _ _
           pricing_url pricing_url 200 (Some (str "text/html"))
           (str "<p>Pro plan $49 / mo</p>" ++ str "<p>$99</p>")
           (str "<p>Pro plan $49 / mo</p>" ++ str "captcha")).
  - vm_compute. reflexivity.
  - reflexivity.
  - reflexivity.
  - vm_compute. reflexivity.
Defined.

Definition guarded_page : jsstring :=
  str "<html><body><h2>Pro plan</h2><p>$49 per month</p><p>Protected by Cloudflare</p></body></html>".

Lemma blocked_wording_blocks_the_page_witness :
  exists reason,
    fetchAndExtractPricing (fun text => text)
      (fun _ => Responded 200 (Some (str "text/html")) guarded_page) defaults pricing_url
    = CrawlExtractionFailure blocked (str "Bot protection detected: " ++ reason).
Proof.
  apply (blocked_wording_blocks_the_page (fun text => text) defaults
           (fun _ => Responded 200 (Some (str "text/html")) guarded_page)
           pricing_url pricing_url 200 (str "text/html") guarded_page "cloudflare"%string).
  - vm_compute. reflexivity.
  - reflexivity.
  - lia.
  - vm_compute. reflexivity.
  - vm_compute. tauto.
  - vm_compute. reflexivity.
Defined.

Definition three_plan_page : jsstring :=
  str "<html><head><title>Pricing</title></head><body><p>$9 / mo</p><p>$29 / mo</p><p>$99 / mo</p></body></html>".

Lemma successful_extraction_facts_witness :
  exists hash payload,
    fetchAndExtractPricing (fun text => text)
      (fun _ => Responded 200 (Some (str "text/html")) three_plan_page) defaults pricing_url
    = CrawlExtractionSuccess hash payload 0.9 true
    /\ sourceUrl payload = pricing_url.
Proof.
  eexists _, _. split; [vm_compute; reflexivity|].
  destruct (successful_extraction_facts (fun text => text) defaults
              (fun _ => Responded 200 (Some (str "text/html")) three_plan_page)
              pricing_url _ _ _ _ ltac:(vm_compute; reflexivity))
    as (normalized & status & contentType & body & Hurl & _ & _ & _ & Hsource & _).
  rewrite Hsource. vm_compute in Hurl. apply Some_eq in Hurl. rewrite <- Hurl.
  vm_compute. reflexivity.
Defined.

End ExtractorExamples.

(** ** The diff engine: null diffs and the shape of a diff *)

Section DiffShape.

Import Normalize Diff.

Lemma sub_self_zero_or_nan (a : float) :
  Prim2SF (a - a) = S754_zero false \/ Prim2SF (a - a) = S754_nan.
Proof.
  rewrite FloatAxioms.sub_spec. unfold SF64sub.
  destruct (Prim2SF a) as [s|s| |s m e]; cbn [SFsub].
  - left. now destruct s.
  - right. now destruct s.
  - now right.
  - left. rewrite Z.sub_diag. reflexivity.
Qed.

Lemma absoluteDelta_self (a : float) : Num.geb (absoluteDelta a a) 0.5 = false.
Proof.
  unfold Num.geb, absoluteDelta.
  rewrite FloatAxioms.leb_spec, FloatAxioms.abs_spec.
  destruct (sub_self_zero_or_nan a) as [-> | ->]; reflexivity.
Qed.

Lemma significant_self (a : float) : significant a a = false.
Proof. unfold significant. now rewrite absoluteDelta_self. Qed.

Lemma updatesOf_diagonal (amounts : list float) : updatesOf (combine amounts amounts) = [].
Proof.
  unfold updatesOf. induction amounts as [|a amounts IH]; [reflexivity|].
  cbn [combine filter fst snd]. rewrite significant_self. exact IH.
Qed.

Lemma createBucketChange_self (key : jsstring) (amounts : list float) :
  createBucketChange key amounts amounts = None.
Proof.
  unfold createBucketChange. rewrite bucketLoop_spec. cbn [added removed updated].
  now rewrite skipn_all, updatesOf_diagonal.
Qed.

Lemma no_bucket_changes_self (buckets : BucketMap) (keys : list jsstring) :
  forall start,
    fold_left
      (fun bucketChanges key =>
         match createBucketChange key
                 (match bucket_get key buckets with Some v => v | None => [] end)
                 (match bucket_get key buckets with Some v => v | None => [] end)
         with
         | Some nextChange => bucketChanges ++ [nextChange]
         | None => bucketChanges
         end)
      keys start = start.
Proof.
  induction keys as [|key keys IH]; intros start; cbn [fold_left]; [reflexivity|].
  now rewrite createBucketChange_self.
Qed.

Lemma no_new_hints (hints : list jsstring) :
  filter (fun hint => negb (existsb (JS.eqb hint) hints)) hints = [].
Proof.
  assert (H : forall seen, (forall h, In h hints -> In h seen) ->
              filter (fun hint => negb (existsb (JS.eqb hint) seen)) hints = []).
  { induction hints as [|h hints IH]; intros seen Hsub; [reflexivity|].
    cbn [filter].
    replace (existsb (JS.eqb h) seen) with true.
    - cbn [negb]. apply IH. intros x Hx. apply Hsub. now right.
    - symmetry. apply existsb_exists. exists h. split; [apply Hsub; now left|].
      apply eqb_refl. }
  apply H. auto.
Qed.

(** X11.  Comparing a payload with itself gives no diff: every pair of
    amounts has delta zero (or is not a number), nothing is added or
    removed, and the hint sets agree, so [generatePricingDiff] returns
    null whatever the verification flag. *)
Theorem diff_of_a_payload_with_itself_is_null (payload : NormalizedPricingPayload)
  (currentSnapshotVerified : bool) (changedAt : Z) :
  generatePricingDiff payload payload currentSnapshotVerified changedAt = None.
Proof.
  unfold generatePricingDiff. cbv zeta.
  rewrite no_bucket_changes_self, no_new_hints. reflexivity.
Qed.

(** A reported bucket holds something, and never both added and
    removed amounts. *)
Definition wellShaped (change : PriceBucketChange) : Prop :=
  (addedAmounts change <> [] \/ removedAmounts change <> [] \/ updatedAmounts change <> [])
  /\ (addedAmounts change = [] \/ removedAmounts change = []).

Lemma skipn_exclusive {A : Type} (l m : list A) :
  skipn (List.length l) m = [] \/ skipn (List.length m) l = [].
Proof.
  destruct (Nat.le_ge_cases (List.length m) (List.length l)) as [H|H].
  - left. now apply skipn_all2.
  - right. now apply skipn_all2.
Qed.

Lemma createBucketChange_wellShaped key prev cur change :
  createBucketChange key prev cur = Some change -> wellShaped change.
Proof.
  intros H. pose proof (createBucketChange_updated key prev cur) as Hc.
  rewrite H in Hc. destruct Hc as (Hu & Ha & Hr). unfold wellShaped. split.
  - unfold createBucketChange in H. rewrite bucketLoop_spec in H. cbn [added removed updated] in H.
    rewrite Ha, Hr, Hu.
    destruct (skipn (List.length prev) cur); [|left; discriminate].
    destruct (skipn (List.length cur) prev); [|right; left; discriminate].
    destruct (updatesOf (combine prev cur)); [discriminate H|right; right; discriminate].
  - rewrite Ha, Hr. apply skipn_exclusive.
Qed.

(** X12.  What [createBucketChange] reports.  It returns null exactly
    when the two lists have the same length and no pair passes the
    thresholds.  Otherwise the change holds at least one amount; its
    added amounts are the current amounts beyond the number of previous
    ones, its removed amounts the previous amounts beyond the number of
    current ones, hence never both; and its updated entries are the
    pairs that pass the thresholds, in order. *)
Theorem unpaired_amounts_are_added_or_removed (key : jsstring)
  (previousAmounts currentAmounts : list float) :
  let passing :=
    filter (fun pair => significant (fst pair) (snd pair))
      (combine previousAmounts currentAmounts) in
  (createBucketChange key previousAmounts currentAmounts = None <->
   List.length previousAmounts = List.length currentAmounts /\ passing = [])
  /\ forall change,
       createBucketChange key previousAmounts currentAmounts = Some change ->
       (addedAmounts change <> [] \/ removedAmounts change <> []
        \/ updatedAmounts change <> [])
       /\ addedAmounts change = skipn (List.length previousAmounts) currentAmounts
       /\ removedAmounts change = skipn (List.length currentAmounts) previousAmounts
       /\ (addedAmounts change = [] \/ removedAmounts change = [])
       /\ map (fun u => (previousAmount u, currentAmount u)) (updatedAmounts change)
          = passing.
Proof.
  intros passing.
  pose proof (createBucketChange_updated key previousAmounts currentAmounts) as H.
  assert (Hpairs : map (fun u => (previousAmount u, currentAmount u))
                     (updatesOf (combine previousAmounts currentAmounts)) = passing).
  { unfold updatesOf, passing. rewrite map_map. cbn [previousAmount currentAmount].
    rewrite <- (map_id (filter _ _)) at 2. apply map_ext. now intros [p c]. }
  split.
  - split.
    + intros Hnone. rewrite Hnone in H. destruct H as (Hu & Ha & Hr). split.
      * assert (H1 : List.length (skipn (List.length previousAmounts) currentAmounts) = 0%nat)
          by now rewrite Ha.
        assert (H2 : List.length (skipn (List.length currentAmounts) previousAmounts) = 0%nat)
          by now rewrite Hr.
        rewrite length_skipn in H1, H2. lia.
      * rewrite <- Hpairs, Hu. reflexivity.
    + intros (Hlen & Hpass).
      destruct (createBucketChange key previousAmounts currentAmounts) as [change|] eqn:E;
        [|reflexivity].
      exfalso. destruct (createBucketChange_wellShaped _ _ _ _ E) as (Hsome & _).
      destruct H as (Hu & Ha & Hr). rewrite Ha, Hr, Hu in Hsome.
      rewrite (skipn_all2 currentAmounts) in Hsome by lia.
      rewrite (skipn_all2 previousAmounts) in Hsome by lia.
      assert (Hnil : updatesOf (combine previousAmounts currentAmounts) = []).
      { apply (map_eq_nil (fun u => (previousAmount u, currentAmount u))).
        now rewrite Hpairs. }
      rewrite Hnil in Hsome. destruct Hsome as [Hs | [Hs | Hs]]; now apply Hs.
  - intros change E. rewrite E in H. destruct H as (Hu & Ha & Hr).
    destruct (createBucketChange_wellShaped _ _ _ _ E) as (Hsome & Hone).
    repeat split; try assumption. now rewrite Hu.
Qed.

Lemma unpaired_amounts_are_added_or_removed_witness :
  exists change,
    createBucketChange (str "USD|month") [19; 49]%float [19; 59; 99]%float = Some change
    /\ addedAmounts change = [99%float]
    /\ removedAmounts change = []
    /\ map (fun u => (previousAmount u, currentAmount u)) (updatedAmounts change)
       = [(49, 59)%float].
Proof.
  destruct (createBucketChange (str "USD|month") [19; 49]%float [19; 59; 99]%float)
    as [change|] eqn:E; [|vm_compute in E; discriminate E].
  exists change. split; [reflexivity|].
  destruct (proj2 (unpaired_amounts_are_added_or_removed (str "USD|month")
                     [19; 49]%float [19; 59; 99]%float) change E)
    as (_ & Ha & Hr & _ & Hu).
  rewrite Ha, Hr, Hu. repeat split; vm_compute; reflexivity.
Defined.

Lemma bucketChanges_wellShaped (previousBuckets currentBuckets : BucketMap)
  (keys : list jsstring) :
  forall start, Forall wellShaped start ->
  Forall wellShaped
    (fold_left
       (fun bucketChanges key =>
          match createBucketChange key
                  (match bucket_get key previousBuckets with Some v => v | None => [] end)
                  (match bucket_get key currentBuckets with Some v => v | None => [] end)
          with
          | Some nextChange => bucketChanges ++ [nextChange]
          | None => bucketChanges
          end)
       keys start).
Proof.
  induction keys as [|key keys IH]; intros start Hs; cbn [fold_left]; [exact Hs|].
  apply IH. destruct (createBucketChange key _ _) as [change|] eqn:E; [|exact Hs].
  apply Forall_app. split; [exact Hs|]. constructor; [|constructor].
  eapply createBucketChange_wellShaped. exact E.
Qed.

Lemma insertSorted_length {A : Type} (cmp : A -> A -> comparison) (x : A) (l : list A) :
  List.length (Num.insertSorted cmp x l) = S (List.length l).
Proof.
  induction l as [|y l IH]; [reflexivity|]. cbn [Num.insertSorted].
  destruct (cmp x y); cbn [List.length]; congruence.
Qed.

Lemma sort_length {A : Type} (cmp : A -> A -> comparison) (l : list A) :
  List.length (Num.sort cmp l) = List.length l.
Proof.
  induction l as [|x l IH]; [reflexivity|]. unfold Num.sort in *. cbn [fold_right].
  rewrite insertSorted_length. cbn [List.length]. now rewrite IH.
Qed.

(** X13.  A diff is never empty.  When [generatePricingDiff] returns a
    result, some bucket changed or a custom-pricing hint was added or
    removed; every bucket it lists holds an added, removed or updated
    amount, and none holds both added and removed amounts; the
    verification state repeats the flag of the current snapshot; and
    the counts are those of the two payloads. *)
Theorem a_diff_is_never_empty (previousPayload currentPayload : NormalizedPricingPayload)
  (currentSnapshotVerified : bool) (changedAt : Z) (result : PricingDiffResult) :
  generatePricingDiff previousPayload currentPayload currentSnapshotVerified changedAt
  = Some result ->
  let diff := normalizedDiff result in
  (priceChanges diff <> [] \/ addedHints diff <> [] \/ removedHints diff <> [])
  /\ Forall (fun change =>
               (addedAmounts change <> [] \/ removedAmounts change <> []
                \/ updatedAmounts change <> [])
               /\ (addedAmounts change = [] \/ removedAmounts change = []))
       (priceChanges diff)
  /\ verificationState result = (if currentSnapshotVerified then verified else unverified)
  /\ previousPriceCount diff = List.length (priceMentions previousPayload)
  /\ currentPriceCount diff = List.length (priceMentions currentPayload)
  /\ Diff.changedAt diff = changedAt.
Proof.
  unfold generatePricingDiff. cbv zeta.
  match goal with
  | |- context [fold_left ?f ?keys []] =>
      pose proof (bucketChanges_wellShaped (toBucketMap previousPayload)
                    (toBucketMap currentPayload) keys [] (Forall_nil _)) as Hshape;
      cbv beta in Hshape;
      generalize dependent (fold_left f keys [])
  end.
  intros bucketChanges Hshape.
  generalize (filter (fun hint => negb (existsb (JS.eqb hint) (toCustomHintSet previousPayload)))
                (toCustomHintSet currentPayload)).
  generalize (filter (fun hint => negb (existsb (JS.eqb hint) (toCustomHintSet currentPayload)))
                (toCustomHintSet previousPayload)).
  intros removed added.
  destruct ((List.length bucketChanges =? 0) && _) eqn:Hnull; [discriminate|].
  intros H. apply Some_eq in H. subst result.
  cbn [normalizedDiff priceChanges addedHints removedHints verificationState
       previousPriceCount currentPriceCount Diff.changedAt].
  repeat split.
  - apply andb_false_iff in Hnull as [Hb | Hh].
    + left. intros Hnil.
      apply (f_equal (@List.length _)) in Hnil. unfold sortBucketChanges in Hnil.
      rewrite sort_length in Hnil. cbn in Hnil. rewrite Hnil in Hb. discriminate Hb.
    + right. apply negb_false_iff, orb_true_iff in Hh as [Hh | Hh];
        apply length_pos_iff in Hh; auto.
  - unfold sortBucketChanges. apply sort_Forall. exact Hshape.
Qed.

End DiffShape.

Section DiffShapeExamples.

Import Normalize Diff.

Definition one_plan (price : float) : NormalizedPricingPayload :=
  mkPayload (str "https://acme.example/pricing") None None []
    [mkPrice price (str "USD") month] [].

Lemma a_diff_is_never_empty_witness :
  exists result,
    generatePricingDiff (one_plan 49) (one_plan 59) false 0 = Some result
    /\ priceChanges (normalizedDiff result) <> []
    /\ verificationState result = unverified.
Proof.
  eexists. split; [vm_compute; reflexivity|].
  destruct (a_diff_is_never_empty (one_plan 49) (one_plan 59) false 0 _
              ltac:(vm_compute; reflexivity)) as (_ & _ & Hstate & _).
  split; [vm_compute; discriminate | exact Hstate].
Defined.

End DiffShapeExamples.

(** ** Entitlements and the trial *)

Section AccessProperties.

Import Diff Entitlements Trial.

Variable config : Config.

(** X14.  Access comes from payment or from a running trial and from
    nothing else, payment first: a user has access exactly when
    [hasAccess] is set on the account or the trial is active at [now];
    the source is [paid] whenever [hasAccess] is set, also during a
    trial; and a user on trial is never entitled to the weekly digest,
    whatever the plan table says. *)
Theorem access_is_paid_or_trial (user : User) (now : Z) :
  let entitlements := resolveEntitlements config user now in
  hasAccess entitlements = UserLike.hasAccess user || isTrialActive user now
  /\ (accessSource entitlements = paid <-> UserLike.hasAccess user = true)
  /\ (accessSource entitlements = trial <->
      UserLike.hasAccess user = false /\ isTrialActive user now = true)
  /\ (accessSource entitlements = trial -> mayReceiveWeeklyDigest entitlements = false).
Proof.
  cbv zeta. unfold resolveEntitlements.
  destruct (UserLike.hasAccess user); [|destruct (isTrialActive user now)];
    cbn [hasAccess accessSource orb]; repeat split;
    try discriminate; try reflexivity; try tauto; intros []; discriminate.
Qed.

(** X15.  Without access nothing is allowed: the competitor limit is 0,
    there is no insight gate and no allowed severity, no competitor
    can be added at any count, no insight generated at any severity,
    and no digest received. *)
Theorem without_access_nothing_is_allowed (user : User) (now : Z) :
  UserLike.hasAccess user = false ->
  isTrialActive user now = false ->
  let entitlements := resolveEntitlements config user now in
  competitorLimit entitlements = 0%Z
  /\ insightSeverityGate entitlements = None
  /\ allowedInsightSeverities entitlements = []
  /\ (forall currentCount, canAddCompetitor entitlements currentCount = false)
  /\ (forall severity, canGenerateInsight entitlements severity = false)
  /\ mayReceiveWeeklyDigest entitlements = false.
Proof.
  intros Hpaid Htrial. cbv zeta. unfold resolveEntitlements. rewrite Hpaid, Htrial.
  repeat split.
Qed.

(** A trial that has run out, or has no end, is not active. *)
Lemma isTrialActive_true (user : User) (now : Z) :
  isTrialActive user now = true <->
  UserLike.trialStatus user = active
  /\ exists ends, UserLike.trialEndsAt user = Some ends /\ (now < ends)%Z.
Proof.
  unfold isTrialActive.
  destruct (UserLike.trialStatus user); cbn [TrialStatus_eqb negb];
    try (split; [discriminate | intros [H _]; discriminate H]).
  destruct (UserLike.trialEndsAt user) as [ends|].
  - rewrite Z.ltb_lt. split.
    + intros H. split; [reflexivity|]. now exists ends.
    + intros [_ (e & [= <-] & H)]. exact H.
  - split; [discriminate | intros [_ (e & H & _)]; discriminate H].
Qed.

(** *** Starting a trial *)

Lemma find_save (users : list User) (found user : User) (userId : ObjectId) :
  find (fun u => N.eqb (UserLike._id u) userId) users = Some found ->
  UserLike._id user = UserLike._id found ->
  find (fun u => N.eqb (UserLike._id u) userId) (save users user) = Some user.
Proof.
  intros Hfind Hid. induction users as [|u users IH]; [discriminate Hfind|].
  cbn [find] in Hfind. cbn [save].
  destruct (N.eqb (UserLike._id u) userId) eqn:Hu.
  - apply Some_eq in Hfind. subst u. rewrite Hid, N.eqb_refl. cbn [find].
    rewrite Hid. now rewrite Hu.
  - destruct (N.eqb (UserLike._id u) (UserLike._id user)) eqn:Hsame.
    + apply find_some in Hfind as [_ Hf]. apply N.eqb_eq in Hf, Hsame.
      apply N.eqb_neq in Hu. congruence.
    + cbn [find]. rewrite Hu. now apply IH.
Qed.

Lemma refresh_keeps (user : User) (now : Z) :
  let user' := fst (refreshTrialStatusIfExpired user now) in
  UserLike._id user' = UserLike._id user
  /\ UserLike.hasAccess user' = UserLike.hasAccess user
  /\ UserLike.trialStartedAt user' = UserLike.trialStartedAt user
  /\ UserLike.trialEndsAt user' = UserLike.trialEndsAt user.
Proof.
  cbv zeta. unfold refreshTrialStatusIfExpired.
  destruct (negb (TrialStatus_eqb (UserLike.trialStatus user) active)); [repeat split|].
  destruct (UserLike.hasAccess user) eqn:Hpaid; [repeat split; exact Hpaid|].
  destruct (negb (isTrialActive user now)); repeat split; exact Hpaid.
Qed.

(** What a started trial leaves on the account. *)
Lemma startTrial_started (found : User) (now : Z) :
  hasStarted (snd (startTrial config found now)) = true ->
  fst (startTrial config found now)
  = UserLike.mkUser (UserLike._id found) false (UserLike.priceId found) active (Some now)
      (Some (now + cfg_trialDays (entitlements config) * MS_PER_DAY)%Z)
  /\ UserLike.hasAccess found = false.
Proof.
  unfold startTrial.
  pose proof (refresh_keeps found now) as Hkeep. cbv zeta in Hkeep.
  assert (Hprice : UserLike.priceId (fst (refreshTrialStatusIfExpired found now))
                   = UserLike.priceId found).
  { unfold refreshTrialStatusIfExpired.
    destruct (negb (TrialStatus_eqb (UserLike.trialStatus found) active)); [reflexivity|].
    destruct (UserLike.hasAccess found) eqn:Hp; [reflexivity|].
    destruct (negb (isTrialActive found now)); reflexivity. }
  destruct (refreshTrialStatusIfExpired found now) as [user refreshResult].
  cbn [fst] in Hkeep, Hprice. destruct Hkeep as (Hid & Haccess & _).
  destruct (UserLike.hasAccess user) eqn:Hpaid; [discriminate|].
  destruct (TrialStatus_eqb (UserLike.trialStatus user) converted); [discriminate|].
  destruct (TrialStatus_eqb (UserLike.trialStatus user) expired); [discriminate|].
  destruct (_ && isTrialActive user now); [discriminate|].
  cbv zeta. destruct (_ && _); [discriminate|].
  cbn [fst snd]. intros _. rewrite Hid, Hprice. split; congruence.
Qed.

(** After a start the account cannot start again. *)
Lemma startTrial_blocked (user : User) (now ends : Z) :
  UserLike.hasAccess user = false ->
  UserLike.trialStatus user = active ->
  UserLike.trialEndsAt user = Some ends ->
  hasStarted (snd (startTrial config user now)) = false.
Proof.
  intros Hpaid Hstatus Hends. unfold startTrial, refreshTrialStatusIfExpired.
  rewrite Hstatus, Hpaid. cbn [TrialStatus_eqb negb].
  destruct (isTrialActive user now) eqn:Hactive; cbn [negb].
  - rewrite Hpaid, Hstatus, Hactive. reflexivity.
  - cbn [withTrialStatus UserLike.hasAccess UserLike.trialStatus]. rewrite Hpaid.
    reflexivity.
Qed.

(** X16.  A trial starts at most once.  When [startTrialForUser] reports
    [started: true] for a user, the account is left on an active trial
    from [now] to [now] + [trialDays] days, and every later call for
    the same user, at any time, reports [started: false]. *)
Theorem a_trial_starts_at_most_once (users users1 : list User) (userId : ObjectId)
  (now later : Z) (result : TrialStartResult) :
  startTrialForUser config users userId now = Some (result, users1) ->
  hasStarted result = true ->
  reason result = started
  /\ resultTrialStartedAt result = Some now
  /\ resultTrialEndsAt result
     = Some (now + cfg_trialDays (entitlements config) * MS_PER_DAY)%Z
  /\ exists result2 users2,
       startTrialForUser config users1 userId later = Some (result2, users2)
       /\ hasStarted result2 = false.
Proof.
  unfold startTrialForUser.
  destruct (find (fun u => N.eqb (UserLike._id u) userId) users) as [found|] eqn:Hfind;
    [|discriminate].
  pose proof (startTrial_started found now) as Hstarted.
  destruct (startTrial config found now) as [user first] eqn:Hstart.
  cbn [fst snd] in Hstarted.
  intros H Hflag. apply Some_eq in H.
  assert (Hr : first = result) by exact (f_equal fst H).
  assert (Hu : save users user = users1) by exact (f_equal snd H).
  clear H. subst first users1.
  destruct (Hstarted Hflag) as (Huser & Hpaid).
  assert (Hresult : result = toTrialStartResult user true true started).
  { revert Hstart Hflag. unfold startTrial.
    destruct (refreshTrialStatusIfExpired found now) as [u r].
    destruct (UserLike.hasAccess u); [intros [= _ <-]; discriminate|].
    destruct (TrialStatus_eqb _ converted); [intros [= _ <-]; discriminate|].
    destruct (TrialStatus_eqb _ expired); [intros [= _ <-]; discriminate|].
    destruct (_ && isTrialActive u now); [intros [= _ <-]; discriminate|].
    cbv zeta. destruct (_ && _); [intros [= _ <-]; discriminate|].
    intros [= <- <-] _. reflexivity. }
  rewrite Hresult, Huser.
  cbn [reason resultTrialStartedAt resultTrialEndsAt toTrialStartResult
       UserLike.trialStartedAt UserLike.trialEndsAt].
  repeat split.
  assert (Hid : UserLike._id user = UserLike._id found) by (rewrite Huser; reflexivity).
  rewrite <- Huser. rewrite (find_save users found user userId Hfind Hid).
  destruct (startTrial config user later) as [user2 result2] eqn:Hnext.
  exists result2, (save (save users user) user2). split; [reflexivity|].
  change result2 with (snd (user2, result2)). rewrite <- Hnext.
  apply (startTrial_blocked user later
           (now + cfg_trialDays (entitlements config) * MS_PER_DAY)%Z);
    rewrite Huser; reflexivity.
Qed.

(** X17.  While a started trial runs, and only then, it gives access:
    for an account left by a start at [now], the entitlements at a
    time [t] show access, from the trial, exactly when [t] is before
    [now] + [trialDays] days. *)
Theorem a_started_trial_gives_access_until_it_ends (found : User) (now t : Z) :
  hasStarted (snd (startTrial config found now)) = true ->
  let user := fst (startTrial config found now) in
  let ends := (now + cfg_trialDays (entitlements config) * MS_PER_DAY)%Z in
  hasAccess (resolveEntitlements config user t) = (t <? ends)%Z
  /\ accessSource (resolveEntitlements config user t)
     = if (t <? ends)%Z then trial else none.
Proof.
  intros Hflag. destruct (startTrial_started found now Hflag) as (-> & _). cbv zeta.
  unfold resolveEntitlements, isTrialActive.
  cbn [UserLike.hasAccess UserLike.trialStatus UserLike.trialEndsAt TrialStatus_eqb negb].
  destruct (t <? _)%Z; split; reflexivity.
Qed.

(** X18.  Refreshing a trial only ever closes it: the status changes
    exactly when it is [active] and the account has paid access (to
    [converted]) or the trial is over at [now] (to [expired]); nothing
    else on the account moves; and a second refresh at the same time
    changes nothing. *)
Theorem refresh_only_closes_a_trial (user : User) (now : Z) :
  let '(user1, result) := refreshTrialStatusIfExpired user now in
  (refreshChanged result = true <->
   UserLike.trialStatus user = active
   /\ (UserLike.hasAccess user = true \/ isTrialActive user now = false))
  /\ refreshedStatus result = UserLike.trialStatus user1
  /\ (refreshChanged result = true ->
      UserLike.trialStatus user1
      = if UserLike.hasAccess user then converted else expired)
  /\ (refreshChanged result = false -> user1 = user)
  /\ refreshTrialStatusIfExpired user1 now
     = (user1, mkRefreshResult false (UserLike.trialStatus user1)).
Proof.
  unfold refreshTrialStatusIfExpired.
  destruct (UserLike.trialStatus user) eqn:Hstatus; cbn [TrialStatus_eqb negb];
    try (rewrite Hstatus; cbn [TrialStatus_eqb negb refreshChanged refreshedStatus];
         repeat split; try discriminate; try (intros [H _]; discriminate H)).
  destruct (UserLike.hasAccess user) eqn:Hpaid.
  - cbn [refreshChanged refreshedStatus withTrialStatus UserLike.trialStatus
         TrialStatus_eqb negb].
    repeat split; auto; discriminate.
  - destruct (isTrialActive user now) eqn:Hactive; cbn [negb].
    + rewrite Hstatus, Hpaid, Hactive.
      cbn [TrialStatus_eqb negb refreshChanged refreshedStatus].
      repeat split; try discriminate. intros [_ [H|H]]; discriminate H.
    + cbn [refreshChanged refreshedStatus withTrialStatus UserLike.trialStatus
           TrialStatus_eqb negb].
      repeat split; auto; discriminate.
Qed.

End AccessProperties.

Section AccessExamples.

Import Diff Entitlements Trial.

Definition newcomer : User := UserLike.mkUser 5%N false None not_started None None.

Lemma without_access_nothing_is_allowed_witness :
  canAddCompetitor (resolveEntitlements specConfig newcomer 1000) 0 = false.
Proof.
  exact (proj1 (proj2 (proj2 (proj2
           (without_access_nothing_is_allowed specConfig newcomer 1000 eq_refl eq_refl))))
           0%Z).
Defined.

Lemma a_trial_starts_at_most_once_witness :
  exists result users1 result2 users2,
    startTrialForUser specConfig [newcomer] 5%N 1000 = Some (result, users1)
    /\ resultTrialEndsAt result = Some 604801000%Z
    /\ startTrialForUser specConfig users1 5%N 2000 = Some (result2, users2)
    /\ reason result2 = already_active.
Proof.
  eexists _, _, _, _. split; [vm_compute; reflexivity|].
  destruct (a_trial_starts_at_most_once specConfig [newcomer] _ 5%N 1000 2000 _
              ltac:(vm_compute; reflexivity) eq_refl) as (_ & _ & Hends & _).
  split; [exact Hends|]. split; vm_compute; reflexivity.
Defined.

Lemma a_started_trial_gives_access_until_it_ends_witness :
  hasAccess (resolveEntitlements specConfig (fst (startTrial specConfig newcomer 1000))
               604800999)
  = true.
Proof.
  rewrite (proj1 (a_started_trial_gives_access_until_it_ends specConfig newcomer 1000
                    604800999 eq_refl)).
  reflexivity.
Defined.

End AccessExamples.

(** ** Claiming and the batch *)

Section Claiming.

Import Constants Runner Batch.

Variable settings : Settings.
Variable now : Z.
Variable writeClock : nat -> Z.

Lemma firstDue_spec (stamps : Stamps) (companies : list Company) :
  forall position best,
    match firstDue stamps now companies position best with
    | Some (p, company) =>
        best = Some (p, company)
        \/ (position <= p /\ nth_error companies (p - position) = Some company
            /\ leaseFilter now company = true)
    | None => best = None /\ Forall (fun c => leaseFilter now c = false) companies
    end.
Proof.
  induction companies as [|c rest IH]; intros position best; cbn [firstDue].
  - destruct best as [[p company]|]; auto.
  - specialize (IH (S position)
                  (if leaseFilter now c then
                     match best with
                     | None => Some (position, c)
                     | Some (_, chosen) =>
                         if sortsBefore stamps c chosen then Some (position, c) else best
                     end
                   else best)).
    destruct (firstDue _ _ rest _ _) as [[p company]|].
    + destruct IH as [Hbest | (Hle & Hnth & Hdue)].
      * destruct (leaseFilter now c) eqn:Hc; [|now left].
        destruct best as [[q chosen]|].
        -- destruct (sortsBefore stamps c chosen); [|now left].
           injection Hbest as <- <-. right. rewrite Nat.sub_diag. auto.
        -- injection Hbest as <- <-. right. rewrite Nat.sub_diag. auto.
      * right. split; [lia|]. split; [|exact Hdue].
        replace (p - position)%nat with (S (p - S position)) by lia. exact Hnth.
    + destruct IH as (Hbest & Hrest).
      destruct (leaseFilter now c) eqn:Hc.
      * destruct best as [[q chosen]|]; [|discriminate].
        destruct (sortsBefore stamps c chosen); discriminate.
      * split; [exact Hbest|]. constructor; assumption.
Qed.

Lemma replaceAt_In (position : nat) (doc : Company) (companies : list Company) (c : Company) :
  In c (replaceAt position doc companies) -> c = doc \/ In c companies.
Proof.
  revert position. induction companies as [|x rest IH]; intros [|position]; cbn; try tauto.
  - intros [<- | H]; auto.
  - intros [<- | H]; auto. apply IH in H. tauto.
Qed.

Lemma replaceAt_keeps (position : nat) (doc old : Company) (companies : list Company)
  (c : Company) :
  nth_error companies position = Some old -> In c companies -> c <> old ->
  In c (replaceAt position doc companies).
Proof.
  revert position. induction companies as [|x rest IH]; intros [|position]; cbn;
    try discriminate.
  - intros [= ->] [-> | H] Hne; [contradiction | now right].
  - intros Hnth [-> | H] Hne; [now left | right; eauto].
Qed.

Lemma replaceAt_has (position : nat) (doc old : Company) (companies : list Company) :
  nth_error companies position = Some old -> In doc (replaceAt position doc companies).
Proof.
  revert position. induction companies as [|x rest IH]; intros [|position]; cbn;
    try discriminate.
  - intros _. now left.
  - intros H. right. eauto.
Qed.

Lemma replaceAt_ids (position : nat) (doc old : Company) (companies : list Company) :
  nth_error companies position = Some old -> _id doc = _id old ->
  map _id (replaceAt position doc companies) = map _id companies.
Proof.
  revert position. induction companies as [|x rest IH]; intros [|position]; cbn;
    try discriminate.
  - intros [= ->] ->. reflexivity.
  - intros Hnth Hid. f_equal. eauto.
Qed.

Lemma same_id_same_doc (companies : list Company) (a b : Company) :
  NoDup (map _id companies) -> In a companies -> In b companies -> _id a = _id b -> a = b.
Proof.
  induction companies as [|x rest IH]; cbn; [tauto|].
  intros Hnd [-> | Ha] [-> | Hb] Hid; try reflexivity.
  - inversion Hnd as [|? ? Hnot _]. exfalso. apply Hnot. rewrite Hid. now apply in_map.
  - inversion Hnd as [|? ? Hnot _]. exfalso. apply Hnot. rewrite <- Hid. now apply in_map.
  - inversion Hnd. eauto.
Qed.

Hypothesis lease_is_positive : (0 < CRAWL_LEASE_MS settings)%Z.

Lemma leased_is_not_due (company : Company) :
  leaseFilter now (withLease company (now + CRAWL_LEASE_MS settings)) = false.
Proof.
  unfold leaseFilter, withLease. cbn [companyType nextCrawlAt crawlLeaseUntil].
  replace (now + CRAWL_LEASE_MS settings <=? now)%Z with false by lia.
  now rewrite andb_false_r.
Qed.

(** What the loop of [claimCompanies] leaves, from any turn on. *)
Definition claimOutcome (remaining : nat) (companies : list Company)
  (outcome : list Company * list Company * Stamps) : Prop :=
  let '(claimedCompanies, companies', _) := outcome in
  (List.length claimedCompanies <= remaining)%nat
  /\ map _id companies' = map _id companies
  /\ NoDup (map _id claimedCompanies)
  /\ Forall (fun doc =>
               exists before,
                 In before companies /\ leaseFilter now before = true
                 /\ doc = withLease before (now + CRAWL_LEASE_MS settings)
                 /\ In doc companies')
       claimedCompanies
  /\ (forall c, In c companies -> leaseFilter now c = false -> In c companies')
  /\ (forall c, In c companies' -> In c companies \/ In c claimedCompanies)
  /\ ((List.length claimedCompanies < remaining)%nat ->
      Forall (fun c => leaseFilter now c = false) companies').

Lemma claimLoop_outcome (remaining : nat) :
  forall index companies stamps,
    NoDup (map _id companies) ->
    claimOutcome remaining companies
      (claimLoop remaining index now (now + CRAWL_LEASE_MS settings) writeClock
         companies stamps).
Proof.
  induction remaining as [|remaining IH]; intros index companies stamps Hnd;
    cbn [claimLoop].
  - unfold claimOutcome. cbn [List.length map].
    repeat split; auto; try constructor; try lia.
  - pose proof (firstDue_spec stamps companies 0 None) as Hfirst.
    destruct (firstDue stamps now companies 0 None) as [[position company]|].
    + destruct Hfirst as [Hbest | (_ & Hnth & Hdue)]; [discriminate|].
      rewrite Nat.sub_0_r in Hnth.
      set (claimedDoc := withLease company (now + CRAWL_LEASE_MS settings)).
      assert (Hids : map _id (replaceAt position claimedDoc companies) = map _id companies)
        by (apply (replaceAt_ids _ _ company); [exact Hnth | reflexivity]).
      assert (Hnd1 : NoDup (map _id (replaceAt position claimedDoc companies)))
        by now rewrite Hids.
      specialize (IH (S index) (replaceAt position claimedDoc companies)
                    (touch stamps (_id company) (writeClock index)) Hnd1).
      destruct (claimLoop remaining _ _ _ _ _ _) as [[more companies'] stamps'].
      unfold claimOutcome in *.
      destruct IH as (Hlen & Hsame & Hdistinct & Hmore & Hstay & Hfrom & Hfull).
      assert (Hin : In company companies) by (eapply nth_error_In; exact Hnth).
      assert (Hclaimed : In claimedDoc (replaceAt position claimedDoc companies))
        by (eapply replaceAt_has; exact Hnth).
      assert (Hundue : leaseFilter now claimedDoc = false) by apply leased_is_not_due.
      assert (Hback : forall before,
                 In before (replaceAt position claimedDoc companies) ->
                 leaseFilter now before = true -> In before companies /\ before <> company).
      { intros before Hb Hdueb. split.
        - apply replaceAt_In in Hb as [-> | Hb]; [congruence | exact Hb].
        - intros ->.
          assert (Heq : company = claimedDoc)
            by (apply (same_id_same_doc (replaceAt position claimedDoc companies)); auto).
          congruence. }
      cbn [List.length map]. repeat split.
      * lia.
      * congruence.
      * constructor; [|exact Hdistinct].
        intros Hdup. apply in_map_iff in Hdup as (doc & Hid & Hdoc).
        rewrite Forall_forall in Hmore.
        destruct (Hmore doc Hdoc) as (before & Hb & Hdueb & -> & _).
        cbn [withLease _id] in Hid.
        assert (Heq : before = claimedDoc)
          by (apply (same_id_same_doc (replaceAt position claimedDoc companies)); auto).
        congruence.
      * constructor.
        -- exists company. repeat split; auto.
        -- rewrite Forall_forall in *. intros doc Hdoc.
           destruct (Hmore doc Hdoc) as (before & Hb & Hdueb & Heq & Hin').
           exists before. destruct (Hback before Hb Hdueb) as (Hb' & _). auto.
      * intros c Hc Hundue'. apply Hstay; [|exact Hundue'].
        apply (replaceAt_keeps _ _ company); auto. congruence.
      * intros c Hc. destruct (Hfrom c Hc) as [H | H]; [|now right; right].
        apply replaceAt_In in H as [-> | H]; [right; now left | now left].
      * intros Hshort. apply Hfull. lia.
    + destruct Hfirst as (_ & Hnone).
      unfold claimOutcome. cbn [List.length map].
      repeat split; auto; try constructor; lia.
Qed.

(** X19.  [claimCompanies] takes each company at most once and only
    when it is due.  On a collection with distinct ids and with a
    positive lease time, it claims at most [limit] documents, all of
    different ids; each was a competitor due at [now] with no lease
    beyond [now], and is returned and stored with the lease [now] +
    [CRAWL_LEASE_MS]; documents that were not due stay as they were;
    and when fewer than [limit] are claimed, nothing due is left. *)
Theorem claimed_companies_are_due_and_distinct (limit : Z) (companies : list Company)
  (stamps : Stamps) :
  NoDup (map _id companies) ->
  let '(claimedCompanies, companies', _) :=
    claimCompanies settings limit now writeClock companies stamps in
  (Z.of_nat (List.length claimedCompanies) <= Z.max 0 limit)%Z
  /\ map _id companies' = map _id companies
  /\ NoDup (map _id claimedCompanies)
  /\ Forall (fun doc =>
               exists before,
                 In before companies /\ leaseFilter now before = true
                 /\ doc = withLease before (now + CRAWL_LEASE_MS settings)
                 /\ In doc companies')
       claimedCompanies
  /\ (forall c, In c companies -> leaseFilter now c = false -> In c companies')
  /\ ((Z.of_nat (List.length claimedCompanies) < limit)%Z ->
      Forall (fun c => leaseFilter now c = false) companies').
Proof.
  intros Hnd. unfold claimCompanies.
  pose proof (claimLoop_outcome (Z.to_nat limit) 0 companies stamps Hnd) as H.
  destruct (claimLoop _ _ _ _ _ _ _) as [[claimedCompanies companies'] stamps'].
  unfold claimOutcome in H.
  destruct H as (Hlen & Hsame & Hdistinct & Hmore & Hstay & _ & Hfull).
  repeat split; auto; try lia.
  intros Hshort. apply Hfull. lia.
Qed.

End Claiming.

Section BatchRun.

Import Constants Runner Batch.

Variable createContentHash : jsstring -> jsstring.
Variable config : Entitlements.Config.
Variable settings : Settings.
Variable envAt : nat -> Env.
Variable itemTime : nat -> Z.

(** X20.  The claim filter honours the delay a run sets.  After a run
    at [now], the company's document passes [leaseFilter] at a time
    [t] exactly when it is a competitor and [t] has reached [now]
    plus the delay of the run's status: it cannot be claimed earlier,
    and no lease stands in the way afterwards. *)
Theorem processed_company_is_due_after_its_delay (env : Env) (company : Company) (now : Z)
  (store : Store) :
  let run := processCompanyRun createContentHash config settings env company now store in
  Forall (fun stored =>
            Models._id stored = Models._id company ->
            forall t,
              leaseFilter t stored
              = CompanyType_eqb (companyType stored) competitor
                && (now + statusToNextDelayMs settings (status (result run)) <=? t)%Z)
    (companies (storeAfter run)).
Proof.
  intros run. subst run. rewrite run_companies.
  apply Forall_forall. intros stored Hin Hid t.
  apply in_map_iff in Hin as (before & Hstored & _).
  destruct (N.eqb (_id before) (_id company)) eqn:Hsame.
  - subst stored. unfold leaseFilter, finalUpdate.
    cbn [companyType nextCrawlAt crawlLeaseUntil].
    destruct (run_split createContentHash config settings env company now store)
      as (l & store' & thrown & _ & ->).
    cbv zeta. cbn [locals result status]. now rewrite andb_true_r.
  - subst stored. apply N.eqb_neq in Hsame. contradiction.
Qed.

(** The variables of the loop agree with the items so far. *)
Definition talliesAgree (t : Tallies.Tallies) : Prop :=
  (Tallies.changed t + Tallies.unchanged t = List.length (Tallies.items t))%nat
  /\ Tallies.snapshotsCreated t = Tallies.changed t
  /\ (Tallies.diffsCreated t <= Tallies.snapshotsCreated t)%nat
  /\ (Tallies.insightsCreated t <= Tallies.diffsCreated t)%nat
  /\ (Tallies.blocked t + Tallies.manualNeeded t + Tallies.errored t
      <= List.length (Tallies.items t))%nat.

Lemma tally_agrees (env : Env) (company : Company) (now : Z) (store : Store)
  (t : Tallies.Tallies) :
  talliesAgree t ->
  talliesAgree
    (tally t (result (processCompanyRun createContentHash config settings env company now
                        store))).
Proof.
  pose proof (run_effects createContentHash config settings env company now store) as H.
  cbv zeta in H. destruct H as (_ & _ & _ & _ & Hc & Hi & Hd & _).
  destruct (result _) as [id st ch sn di ins sk rs].
  cbn [Runner.changed snapshotCreated diffCreated insightCreated] in Hc, Hi, Hd.
  unfold talliesAgree, tally.
  cbn [Tallies.changed Tallies.unchanged Tallies.items Tallies.snapshotsCreated
       Tallies.diffsCreated Tallies.insightsCreated Tallies.blocked Tallies.manualNeeded
       Tallies.errored Runner.changed snapshotCreated diffCreated insightCreated status].
  rewrite length_app. cbn [List.length].
  intros (H1 & H2 & H3 & H4 & H5). subst ch.
  destruct sn, di, ins, st; cbn [count negb CompanyCrawlStatus_eqb];
    try (specialize (Hi eq_refl)); try (specialize (Hd eq_refl)); try discriminate;
    repeat split; lia.
Qed.

Lemma processClaimed_tallies (claimedCompanies : list Company) :
  forall index t store,
    talliesAgree t ->
    let '(t', _) :=
      processClaimed createContentHash config settings envAt itemTime claimedCompanies index
        t store in
    talliesAgree t'
    /\ List.length (Tallies.items t')
       = (List.length (Tallies.items t) + List.length claimedCompanies)%nat.
Proof.
  induction claimedCompanies as [|company rest IH]; intros index t store Ht;
    cbn [processClaimed].
  - split; [exact Ht | cbn; lia].
  - cbv zeta.
    specialize (IH (S index)
                  (tally t (result (processCompanyRun createContentHash config settings
                                      (envAt index) company (itemTime index) store)))
                  (storeAfter (processCompanyRun createContentHash config settings
                                 (envAt index) company (itemTime index) store))
                  (tally_agrees _ _ _ _ _ Ht)).
    destruct (processClaimed _ _ _ _ _ rest _ _ _) as [t' store'].
    destruct IH as (Hagree & Hlen). split; [exact Hagree|].
    rewrite Hlen. unfold tally. cbn [Tallies.items List.length].
    rewrite length_app. cbn [List.length]. lia.
Qed.

Lemma claimLoop_length (remaining : nat) :
  forall index now leaseUntil writeClock docs stamps,
    (List.length (fst (fst (claimLoop remaining index now leaseUntil writeClock docs
                              stamps)))
     <= remaining)%nat.
Proof.
  induction remaining as [|remaining IH];
    intros index now leaseUntil writeClock docs stamps; cbn [claimLoop]; [cbn; lia|].
  destruct (firstDue _ _ _ _ _) as [[position company]|]; [|cbn; lia].
  specialize (IH (S index) now leaseUntil writeClock
                (replaceAt position (withLease company leaseUntil) docs)
                (touch stamps (_id company) (writeClock index))).
  destruct (claimLoop remaining _ _ _ _ _ _) as [[more docs'] stamps'].
  cbn [fst List.length] in *. lia.
Qed.

Lemma runCrawlBatch_numbers (limitOption : option Z) (startedAtDate finishedAt : Z)
  (writeClock : nat -> Z) (stamps : Stamps) (store : Store) :
  let batch :=
    fst (runCrawlBatch createContentHash config settings envAt itemTime limitOption
           startedAtDate finishedAt writeClock stamps store) in
  processed batch = claimed batch
  /\ List.length (items batch) = processed batch
  /\ (changed batch + unchanged batch = processed batch)%nat
  /\ snapshotsCreated batch = changed batch
  /\ (diffsCreated batch <= snapshotsCreated batch)%nat
  /\ (insightsCreated batch <= diffsCreated batch)%nat
  /\ (blocked batch + manualNeeded batch + errored batch <= processed batch)%nat
  /\ limit batch = clampBatchLimit settings limitOption
  /\ (Z.of_nat (claimed batch) <= Z.max 0 (limit batch))%Z.
Proof.
  cbv zeta. unfold runCrawlBatch, claimCompanies.
  pose proof (claimLoop_length (Z.to_nat (clampBatchLimit settings limitOption)) 0
                startedAtDate (startedAtDate + CRAWL_LEASE_MS settings) writeClock
                (companies store) stamps) as Hbound.
  destruct (claimLoop _ _ _ _ _ _ _) as [[claimedCompanies companies'] stamps'].
  cbn [fst] in Hbound.
  match goal with
  | |- context [processClaimed _ _ _ _ _ _ _ ?t ?s] =>
      pose proof (processClaimed_tallies claimedCompanies 0 t s) as Hloop
  end.
  destruct (processClaimed _ _ _ _ _ _ _ _ _) as [t store2].
  assert (Hinit : talliesAgree Tallies.initial) by (repeat split; cbn; lia).
  destruct (Hloop Hinit) as ((H1 & H2 & H3 & H4 & H5) & Hlen).
  cbn [fst processed claimed items changed unchanged snapshotsCreated diffsCreated
       insightsCreated blocked manualNeeded errored limit].
  cbn [Tallies.items Tallies.initial List.length] in Hlen.
  repeat split; try lia.
Qed.


(** X21.  The numbers a batch reports add up.  Every claimed company is
    processed and listed; each item counts as changed or as unchanged;
    as many snapshots were created as items changed; there are no more
    diffs than snapshots and no more insights than diffs; the blocked,
    manual-needed and errored items are at most all items; and no more
    companies are claimed than the limit in force. *)
Theorem batch_numbers_add_up (limitOption : option Z) (startedAtDate finishedAt : Z)
  (writeClock : nat -> Z) (stamps : Stamps) (store : Store) :
  let batch :=
    fst (runCrawlBatch createContentHash config settings envAt itemTime limitOption
           startedAtDate finishedAt writeClock stamps store) in
  processed batch = claimed batch
  /\ List.length (items batch) = processed batch
  /\ (changed batch + unchanged batch = processed batch)%nat
  /\ snapshotsCreated batch = changed batch
  /\ (diffsCreated batch <= snapshotsCreated batch)%nat
  /\ (insightsCreated batch <= diffsCreated batch)%nat
  /\ (blocked batch + manualNeeded batch + errored batch <= processed batch)%nat
  /\ limit batch = clampBatchLimit settings limitOption
  /\ (Z.of_nat (claimed batch) <= Z.max 0 (limit batch))%Z.
Proof. exact (runCrawlBatch_numbers limitOption startedAtDate finishedAt writeClock stamps store). Qed.

(** *** Leases over a batch *)

Lemma Forall2_of_map {A B C : Type} (P : B -> C -> Prop) (f : A -> B) (l : list A)
  (m : list C) :
  Forall2 P (map f l) m -> Forall2 (fun x y => P (f x) y) l m.
Proof.
  revert m. induction l as [|x l IH]; intros m H; inversion H; subst; constructor; auto.
Qed.

Lemma Forall2_same_ids (l m : list Company) :
  map _id l = map _id m ->
  Forall2 (fun a b => _id a = _id b /\ In a l /\ In b m) l m.
Proof.
  intros H.
  assert (G : forall l0 m0, map _id l0 = map _id m0 ->
              (forall a, In a l0 -> In a l) -> (forall b, In b m0 -> In b m) ->
              Forall2 (fun a b => _id a = _id b /\ In a l /\ In b m) l0 m0).
  { induction l0 as [|a l0 IH]; intros [|b m0] Hm Hl0 Hm0; try discriminate; constructor.
    - injection Hm as Hid _. repeat split; [exact Hid | apply Hl0; now left
                                            | apply Hm0; now left].
    - injection Hm as _ Hm. apply IH; auto; intros x Hx; [apply Hl0 | apply Hm0];
        now right. }
  apply G; auto.
Qed.

Lemma Forall2_chain {A B C : Type} (P : A -> B -> Prop) (Q : B -> C -> Prop)
  (l : list A) (m : list B) (n : list C) :
  Forall2 P l m -> Forall2 Q m n -> Forall2 (fun a c => exists b, P a b /\ Q b c) l n.
Proof.
  intros H. revert n. induction H; intros n Hq; inversion Hq; subst; constructor; eauto.
Qed.

(** A document after the loop: released and stamped when its id is
    among the claimed ones, untouched otherwise. *)
Definition releasedIfClaimed (claimedIds : list ObjectId) (before after : Company) : Prop :=
  if existsb (N.eqb (_id before)) claimedIds
  then _id after = _id before /\ crawlLeaseUntil after = None
       /\ exists turn, lastCrawlAt after = Some (itemTime turn)
  else after = before.

Lemma processClaimed_releases (claimedCompanies : list Company) :
  forall index t store,
    NoDup (map _id claimedCompanies) ->
    Forall2 (releasedIfClaimed (map _id claimedCompanies)) (companies store)
      (companies
         (snd (processClaimed createContentHash config settings envAt itemTime
                 claimedCompanies index t store))).
Proof.
  induction claimedCompanies as [|company rest IH]; intros index t store Hnd;
    cbn [processClaimed map].
  - cbn [snd].
    assert (H : forall l : list Company,
               Forall2 (releasedIfClaimed []) l l).
    { induction l; constructor; [reflexivity | assumption]. }
    apply H.
  - cbv zeta. inversion Hnd as [|? ? Hfresh Hnd']. subst.
    specialize (IH (S index)
                  (tally t (result (processCompanyRun createContentHash config settings
                                      (envAt index) company (itemTime index) store)))
                  (storeAfter (processCompanyRun createContentHash config settings
                                 (envAt index) company (itemTime index) store))
                  Hnd').
    rewrite run_companies in IH. apply Forall2_of_map in IH.
    eapply Forall2_impl; [|exact IH]. cbv beta.
    intros before after. unfold releasedIfClaimed. cbn [existsb].
    destruct (N.eqb (_id before) (_id company)) eqn:Hsame; cbn [orb].
    + apply N.eqb_eq in Hsame.
      replace (existsb (N.eqb (_id (finalUpdate settings company (itemTime index) _ before)))
                 (map _id rest)) with false.
      * intros ->. unfold finalUpdate. cbn [_id crawlLeaseUntil lastCrawlAt].
        repeat split. now exists index.
      * symmetry. apply not_true_is_false. intros Hex.
        apply existsb_exists in Hex as (id & Hid & Heq). apply N.eqb_eq in Heq.
        unfold finalUpdate in Heq. cbn [_id] in Heq. apply Hfresh.
        rewrite <- Hsame, Heq. exact Hid.
    + tauto.
Qed.

(** *** Batches and store calls that reject *)

Lemma claimLoopUnder_noFaults (remaining : nat) :
  forall index now leaseUntil writeClock companies stamps,
    claimLoopUnder noFaults remaining index now leaseUntil writeClock companies stamps
    = (claimLoop remaining index now leaseUntil writeClock companies stamps, None).
Proof.
  induction remaining as [|remaining IH]; intros index now leaseUntil writeClock companies
    stamps; cbn [claimLoopUnder claimLoop noFaults claimError]; [reflexivity|].
  destruct (firstDue stamps now companies 0 None) as [[position company]|]; [|reflexivity].
  rewrite IH.
  destruct (claimLoop remaining (S index) now leaseUntil writeClock _ _) as [[more cs] st].
  reflexivity.
Qed.

Lemma processClaimedUnder_noFaults (claimedCompanies : list Company) :
  forall index t store,
    processClaimedUnder createContentHash config settings envAt itemTime noFaults
      claimedCompanies index t store
    = (Returned (fst (processClaimed createContentHash config settings envAt itemTime
                        claimedCompanies index t store)),
       snd (processClaimed createContentHash config settings envAt itemTime
              claimedCompanies index t store)).
Proof.
  induction claimedCompanies as [|company rest IH]; intros index t store;
    cbn [processClaimedUnder processClaimed]; [reflexivity|].
  cbn [noFaults finalWritesAt].
  pose proof (processCompany_goes_through createContentHash config settings (envAt index)
                company (itemTime index) store) as Hrun.
  cbv zeta in Hrun. rewrite Hrun. apply IH.
Qed.

(** When none of its store calls rejects, the batch returns, and what
    it returns and leaves is what [runCrawlBatch] tells. *)
Lemma batch_without_faults_returns (limitOption : option Z) (startedAtDate finishedAt : Z)
  (writeClock : nat -> Z) (stamps : Stamps) (store : Store) :
  runCrawlBatchUnder createContentHash config settings envAt itemTime noFaults limitOption
    startedAtDate finishedAt writeClock stamps store
  = (Returned (fst (runCrawlBatch createContentHash config settings envAt itemTime
                      limitOption startedAtDate finishedAt writeClock stamps store)),
     snd (runCrawlBatch createContentHash config settings envAt itemTime limitOption
            startedAtDate finishedAt writeClock stamps store)).
Proof.
  unfold runCrawlBatchUnder, runCrawlBatch, claimCompanies. cbv zeta.
  cbn [noFaults connectError]. fold noFaults. rewrite claimLoopUnder_noFaults.
  destruct (claimLoop _ 0 startedAtDate _ writeClock (companies store) stamps)
    as [[claimedCompanies companies'] stamps'].
  rewrite processClaimedUnder_noFaults.
  destruct (processClaimed _ _ _ _ _ claimedCompanies 0 Tallies.initial _) as [t store2].
  reflexivity.
Qed.

End BatchRun.

Section BatchLeases.

Import Constants Runner Batch.

Variable createContentHash : jsstring -> jsstring.
Variable config : Entitlements.Config.
Variable settings : Settings.
Variable envAt : nat -> Env.
Variable itemTime : nat -> Z.

(** X22.  No lease taken by a batch outlives it.  On a collection with
    distinct ids and with a positive lease time, every company's
    document is, when [runCrawlBatch] returns, either as it was before
    the batch (it was not claimed), or one that was due at the start
    and is left with no lease and with [lastCrawlAt] set by its run. *)
Theorem no_lease_outlives_the_batch (limitOption : option Z) (startedAtDate finishedAt : Z)
  (writeClock : nat -> Z) (stamps : Stamps) (store : Store) :
  NoDup (map _id (companies store)) ->
  (0 < CRAWL_LEASE_MS settings)%Z ->
  let store' :=
    snd (runCrawlBatch createContentHash config settings envAt itemTime limitOption
           startedAtDate finishedAt writeClock stamps store) in
  Forall2
    (fun before after =>
       after = before
       \/ (leaseFilter startedAtDate before = true
           /\ _id after = _id before
           /\ crawlLeaseUntil after = None
           /\ exists turn, lastCrawlAt after = Some (itemTime turn)))
    (companies store) (companies store').
Proof.
  intros Hnd Hlease. cbv zeta. unfold runCrawlBatch, claimCompanies.
  pose proof (claimLoop_outcome settings startedAtDate writeClock Hlease
                (Z.to_nat (clampBatchLimit settings limitOption)) 0 (companies store) stamps
                Hnd) as Hclaim.
  destruct (claimLoop _ _ _ _ _ _ _) as [[claimedCompanies companies'] stamps'].
  unfold claimOutcome in Hclaim.
  destruct Hclaim as (_ & Hids & Hdistinct & Hclaimed & _ & Hfrom & _).
  match goal with
  | |- context [processClaimed _ _ _ _ _ _ _ ?t ?s] =>
      pose proof (processClaimed_releases createContentHash config settings envAt itemTime
                    claimedCompanies 0 t s Hdistinct) as Hloop
  end.
  destruct (processClaimed _ _ _ _ _ _ _ _ _) as [t store2].
  cbn [snd companies] in *.
  symmetry in Hids. apply Forall2_same_ids in Hids.
  pose proof (Forall2_chain _ _ _ _ _ Hids Hloop) as Hchain.
  eapply Forall2_impl; [|exact Hchain]. cbv beta.
  intros before after (mid & (Hid & Hbefore & Hmid) & Hrel).
  unfold releasedIfClaimed in Hrel. rewrite Forall_forall in Hclaimed.
  destruct (existsb (N.eqb (_id mid)) (map _id claimedCompanies)) eqn:Hex.
  - right. destruct Hrel as (Hid' & Hnone & Hturn).
    apply existsb_exists in Hex as (id & Hin & Heq). apply N.eqb_eq in Heq. subst id.
    apply in_map_iff in Hin as (doc & Hdoc & Hin).
    destruct (Hclaimed doc Hin) as (origin & Horigin & Hdue & -> & _).
    cbn [withLease _id] in Hdoc.
    assert (origin = before)
      by (apply (same_id_same_doc (companies store)); auto; congruence).
    subst origin. repeat split; auto; congruence.
  - left. subst after.
    destruct (Hfrom mid Hmid) as [Hold | Hnew].
    + apply (same_id_same_doc (companies store)); auto.
    + exfalso. apply not_true_iff_false in Hex. apply Hex.
      apply existsb_exists. exists (_id mid). split; [now apply in_map | apply N.eqb_refl].
Qed.

End BatchLeases.

Section BatchExamples.

Import Constants Runner Batch.

(** Three competitors: one due long ago, one due now, one leased. *)
Definition due_company (id : ObjectId) (dueAt : option Z) (lease : option Z) : Company :=
  mkCompany id 1%N competitor (str "acme.example") None
    (Some (str "https://acme.example/pricing")) [] dueAt lease None idle None None None.

Definition three_companies : list Company :=
  [due_company 7%N (Some 900%Z) None; due_company 8%N (Some 100%Z) None;
   due_company 9%N (Some 50%Z) (Some 5000%Z)].

Definition three_companies_store : Store :=
  mkStore [Entitlements.UserLike.mkUser 1%N true None Entitlements.not_started None None]
    three_companies [] [] [] [] 100%N.

Lemma three_companies_distinct : NoDup (map _id three_companies).
Proof. repeat constructor; cbn; intuition discriminate. Qed.

Lemma claimed_companies_are_due_and_distinct_witness :
  let claimedCompanies :=
    fst (fst (claimCompanies defaults 5 1000 (fun _ => 1000%Z) three_companies
                (fun _ => 0%Z))) in
  map _id claimedCompanies = [8%N; 7%N] /\ NoDup (map _id claimedCompanies).
Proof.
  cbv zeta. split; [vm_compute; reflexivity|].
  pose proof (claimed_companies_are_due_and_distinct defaults 1000 (fun _ => 1000%Z)
                ltac:(reflexivity) 5 three_companies (fun _ => 0%Z)
                three_companies_distinct) as H.
  destruct (claimCompanies _ _ _ _ _ _) as [[claimedCompanies docs] stamps].
  exact (proj1 (proj2 (proj2 H))).
Defined.

Lemma no_lease_outlives_the_batch_witness :
  let store' :=
    snd (runCrawlBatch paddedDigest Entitlements.specConfig defaults
           (fun _ => acme_env (acme_page "49")) (fun _ => 2000%Z) (Some 5%Z) 1000 3000
           (fun _ => 1000%Z) (fun _ => 0%Z) three_companies_store) in
  map crawlLeaseUntil (companies store') = [None; None; Some 5000%Z]
  /\ Forall2
       (fun before after =>
          after = before
          \/ (leaseFilter 1000 before = true
              /\ _id after = _id before
              /\ crawlLeaseUntil after = None
              /\ exists turn, lastCrawlAt after = Some ((fun _ : nat => 2000%Z) turn)))
       three_companies (companies store').
Proof.
  cbv zeta. split; [vm_compute; reflexivity|].
  exact (no_lease_outlives_the_batch paddedDigest Entitlements.specConfig defaults
           (fun _ => acme_env (acme_page "49")) (fun _ => 2000%Z) (Some 5%Z) 1000 3000
           (fun _ => 1000%Z) (fun _ => 0%Z) three_companies_store
           three_companies_distinct ltac:(reflexivity)).
Defined.

End BatchExamples.

(** ** The cron lock *)

Section CronLockProperties.

Import CronLock.

Lemma updateFirst_None (matches : CronRunLock -> bool) (change : CronRunLock -> CronRunLock)
  (locks : list CronRunLock) :
  updateFirst matches change locks = None <-> Forall (fun l => matches l = false) locks.
Proof.
  induction locks as [|lock rest IH]; cbn [updateFirst].
  - split; [constructor | reflexivity].
  - destruct (matches lock) eqn:Hm.
    + split; [discriminate|]. intros H. inversion H. congruence.
    + destruct (updateFirst matches change rest).
      * split; [discriminate|]. intros H. inversion H; subst.
        apply IH in H3. discriminate.
      * split; [|reflexivity]. intros _. constructor; [exact Hm | now apply IH].
Qed.

Lemma updateFirst_Some (matches : CronRunLock -> bool) (change : CronRunLock -> CronRunLock)
  (locks updated : list CronRunLock) :
  updateFirst matches change locks = Some updated ->
  exists before lock after,
    locks = before ++ lock :: after /\ updated = before ++ change lock :: after
    /\ matches lock = true /\ Forall (fun l => matches l = false) before.
Proof.
  revert updated. induction locks as [|lock rest IH]; intros updated; cbn [updateFirst];
    [discriminate|].
  destruct (matches lock) eqn:Hm.
  - intros [= <-]. exists [], lock, rest. repeat split; auto.
  - destruct (updateFirst matches change rest) as [rest'|]; [|discriminate].
    intros [= <-]. destruct (IH rest' eq_refl) as (before & l & after & -> & -> & Hl & Hb).
    exists (lock :: before), l, after. repeat split; auto.
Qed.

Lemma key_found (key : jsstring) (locks : list CronRunLock) (lock : CronRunLock) :
  NoDup (map lockKey locks) -> In lock locks -> lockKey lock = key ->
  find (fun l => JS.eqb (lockKey l) key) locks = Some lock.
Proof.
  intros Hnd Hin Hkey. induction locks as [|l rest IH]; [destruct Hin|].
  cbn [find]. cbn [map] in Hnd. inversion Hnd as [|? ? Hfresh Hnd']. subst.
  destruct Hin as [-> | Hin].
  - now rewrite eqb_refl.
  - destruct (JS.eqb (lockKey l) (lockKey lock)) eqn:Heq; [|now apply IH].
    apply eqb_eq in Heq. exfalso. apply Hfresh. rewrite Heq. now apply in_map.
Qed.

Lemma ceilSeconds_positive (ms : Z) : (0 < ms)%Z -> (1 <= ceilSeconds ms)%Z.
Proof.
  intros H. unfold ceilSeconds.
  apply (Z.div_le_lower_bound (ms + 999) 1000 1); lia.
Qed.

Variable key : jsstring.

(** The key is as the schema stores it. *)
Hypothesis key_is_trimmed : trim key = key.

(** What a call of [acquireCronLock] comes to on a collection that
    honours the unique index. *)
Definition acquireOutcome (locks : list CronRunLock) (ttlMs now : Z) (owner : jsstring)
  (result : AcquireCronLockResult) (locks' : list CronRunLock) : Prop :=
  NoDup (map lockKey locks')
  /\ (acquired result = true ->
      result = mkAcquired true owner (now + ttlMs) 0
      /\ exists lock,
           In lock locks' /\ lockKey lock = key /\ ownerId lock = trim owner
           /\ lockUntil lock = Some (now + ttlMs)%Z)
  /\ (acquired result = false ->
      locks' = locks
      /\ exists lock heldUntil,
           In lock locks /\ lockKey lock = key /\ lockUntil lock = Some heldUntil
           /\ (now < heldUntil)%Z
           /\ result = mkAcquired false (ownerId lock) heldUntil
                         (ceilSeconds (heldUntil - now))).

Lemma acquire_outcome (locks : list CronRunLock) (ttlMs now : Z) (owner : jsstring) :
  NoDup (map lockKey locks) ->
  exists result locks',
    acquireCronLock locks key ttlMs now owner = Some (result, locks')
    /\ acquireOutcome locks ttlMs now owner result locks'.
Proof.
  intros Hnd. unfold acquireCronLock. cbv zeta.
  destruct (updateFirst (claimable key now) _ locks) as [updated|] eqn:Hfirst.
  - apply updateFirst_Some in Hfirst
      as (before & lock & after & -> & -> & Hclaim & _).
    eexists _, _. split; [reflexivity|]. unfold acquireOutcome. cbn [acquired].
    unfold claimable in Hclaim. apply andb_true_iff in Hclaim as [Hkey _].
    apply eqb_eq in Hkey. split; [|split].
    + rewrite map_app in *. cbn [map lockKey] in *. exact Hnd.
    + intros _. split; [reflexivity|].
      eexists. split; [apply in_elt|]. cbn [lockKey ownerId lockUntil]. auto.
    + discriminate.
  - rewrite key_is_trimmed.
    destruct (existsb (fun lock => JS.eqb (lockKey lock) key) locks) eqn:Hdup; cbn [negb].
    + apply existsb_exists in Hdup as (lock & Hin & Hkey). apply eqb_eq in Hkey.
      rewrite (key_found key locks lock Hnd Hin Hkey).
      apply updateFirst_None in Hfirst. rewrite Forall_forall in Hfirst.
      specialize (Hfirst lock Hin). unfold claimable in Hfirst.
      rewrite Hkey, eqb_refl in Hfirst. cbn [andb] in Hfirst.
      destruct (lockUntil lock) as [heldUntil|] eqn:Huntil; [|discriminate].
      apply Z.leb_gt in Hfirst.
      eexists _, _. split; [reflexivity|]. unfold acquireOutcome. cbn [acquired].
      split; [exact Hnd|]. split; [discriminate|]. intros _. split; [reflexivity|].
      exists lock, heldUntil. repeat split; auto.
      now rewrite Z.max_l by lia.
    + eexists _, _. split; [reflexivity|]. unfold acquireOutcome. cbn [acquired].
      split; [|split; [intros _; split; [reflexivity|] | discriminate]].
      * rewrite map_app. cbn [map lockKey]. apply NoDup_app; [exact Hnd | | ].
        -- repeat constructor. intros [].
        -- intros k Hk [<- | []]. apply in_map_iff in Hk as (lock & Hkey & Hin).
           apply not_true_iff_false in Hdup. apply Hdup. apply existsb_exists.
           exists lock. split; [exact Hin|]. rewrite Hkey. apply eqb_refl.
      * eexists. split; [apply in_or_app; right; now left|].
        cbn [lockKey ownerId lockUntil]. auto.
Qed.


(** A held lock turns a caller away. *)
Lemma held_lock_refuses (locks : list CronRunLock) (lock : CronRunLock) (heldUntil : Z)
  (ttlMs now : Z) (owner : jsstring) :
  NoDup (map lockKey locks) -> In lock locks -> lockKey lock = key ->
  lockUntil lock = Some heldUntil -> (now < heldUntil)%Z ->
  acquireCronLock locks key ttlMs now owner
  = Some (mkAcquired false (ownerId lock) heldUntil (ceilSeconds (heldUntil - now)), locks).
Proof.
  intros Hnd Hin Hkey Huntil Hlater.
  destruct (acquire_outcome locks ttlMs now owner Hnd) as (result & locks' & Hcall & Hout).
  rewrite Hcall. destruct Hout as (_ & Hyes & Hno).
  destruct (acquired result) eqn:Hflag.
  - exfalso. destruct (Hyes eq_refl) as (_ & mine & Hmine & Hk & _ & Hu).
    revert Hcall. unfold acquireCronLock. cbv zeta.
    destruct (updateFirst (claimable key now) _ locks) as [updated|] eqn:Hfirst.
    + apply updateFirst_Some in Hfirst as (before & l & after & Hl & _ & Hclaim & _).
      assert (Hsame : l = lock).
      { unfold claimable in Hclaim. apply andb_true_iff in Hclaim as [Hkl _].
        apply eqb_eq in Hkl.
        assert (Hf1 := key_found key locks lock Hnd Hin Hkey).
        assert (Hf2 : find (fun x => JS.eqb (lockKey x) key) locks = Some l)
          by (apply key_found; auto; rewrite Hl; apply in_elt).
        congruence. }
      subst l. unfold claimable in Hclaim. rewrite Huntil in Hclaim.
      apply andb_true_iff in Hclaim as [_ Hc]. apply Z.leb_le in Hc. lia.
    + rewrite key_is_trimmed.
      replace (existsb (fun l => JS.eqb (lockKey l) key) locks) with true.
      * cbn [negb]. rewrite (key_found key locks lock Hnd Hin Hkey), Huntil.
        intros H. apply Some_eq in H. apply (f_equal fst) in H. cbn [fst] in H.
        rewrite <- H in Hflag. discriminate Hflag.
      * symmetry. apply existsb_exists. exists lock. split; [exact Hin|].
        rewrite Hkey. apply eqb_refl.
  - destruct (Hno eq_refl) as (-> & l & u & Hl & Hk & Hu & _ & ->).
    assert (Hf1 := key_found key locks lock Hnd Hin Hkey).
    assert (Hf2 := key_found key locks l Hnd Hl Hk).
    assert (l = lock) by congruence. subst l.
    assert (u = heldUntil) by congruence. subst u. reflexivity.
Qed.

(** X24.  The lock is exclusive while it lasts.  Once a caller has
    acquired the key's lock at [now] for [ttlMs], every call before
    [now] + [ttlMs], by any caller and with any time to live, is
    refused: it leaves the collection as it is and reports the
    holder, the end of its lock and at least one second to wait. *)
Theorem a_held_lock_is_exclusive (locks locks1 : list CronRunLock) (ttlMs now : Z)
  (owner : jsstring) (result : AcquireCronLockResult)
  (later ttlMs2 : Z) (owner2 : jsstring) :
  NoDup (map lockKey locks) ->
  acquireCronLock locks key ttlMs now owner = Some (result, locks1) ->
  acquired result = true ->
  (later < now + ttlMs)%Z ->
  acquireCronLock locks1 key ttlMs2 later owner2
  = Some (mkAcquired false (trim owner) (now + ttlMs)
            (ceilSeconds (now + ttlMs - later)),
          locks1)
  /\ (1 <= ceilSeconds (now + ttlMs - later))%Z.
Proof.
  intros Hnd Hcall Hflag Hlater.
  destruct (acquire_outcome locks ttlMs now owner Hnd) as (r & l1 & Hcall' & Hout).
  rewrite Hcall in Hcall'. apply Some_eq in Hcall'.
  assert (r = result) by (symmetry; exact (f_equal fst Hcall')).
  assert (l1 = locks1) by (symmetry; exact (f_equal snd Hcall')). subst r l1.
  destruct Hout as (Hnd1 & Hyes & _).
  destruct (Hyes Hflag) as (_ & lock & Hin & Hkey & Howner & Huntil).
  split; [|apply ceilSeconds_positive; lia].
  rewrite <- Howner.
  apply (held_lock_refuses locks1 lock (now + ttlMs)); auto.
Qed.



(** *** Releasing *)

Lemma release_by_another (locks : list CronRunLock) (owner : jsstring) (until releasedAt : Z) :
  Forall (fun lock => lockKey lock = key -> ownerId lock <> owner) locks ->
  releaseCronLock locks key owner until releasedAt = locks.
Proof.
  intros H. unfold releaseCronLock.
  replace (updateFirst _ _ locks) with (@None (list CronRunLock)); [reflexivity|].
  symmetry. apply updateFirst_None. rewrite Forall_forall in *. intros lock Hin.
  apply not_true_iff_false. intros Hm. apply andb_true_iff in Hm as [Hk Ho].
  apply eqb_eq in Hk, Ho. exact (H lock Hin Hk Ho).
Qed.

Lemma release_frees_the_lock (locks locks1 : list CronRunLock) (ttlMs now : Z)
  (owner : jsstring) (result : AcquireCronLockResult)
  (until releasedAt later ttlMs2 : Z) (owner2 other : jsstring) :
  NoDup (map lockKey locks) ->
  trim owner = owner ->
  acquireCronLock locks key ttlMs now owner = Some (result, locks1) ->
  acquired result = true ->
  (until <= later)%Z ->
  other <> owner ->
  (exists result2 locks2,
     acquireCronLock (releaseCronLock locks1 key owner until releasedAt) key ttlMs2 later
       owner2
     = Some (result2, locks2)
     /\ acquired result2 = true)
  /\ releaseCronLock locks1 key other until releasedAt = locks1.
Proof.
  intros Hnd Htrim Hcall Hflag Hlater Hother.
  destruct (acquire_outcome locks ttlMs now owner Hnd) as (r & l1 & Hcall' & Hout).
  rewrite Hcall in Hcall'. apply Some_eq in Hcall'.
  assert (r = result) by (symmetry; exact (f_equal fst Hcall')).
  assert (l1 = locks1) by (symmetry; exact (f_equal snd Hcall')). subst r l1.
  destruct Hout as (Hnd1 & Hyes & _).
  destruct (Hyes Hflag) as (_ & lock & Hin & Hkey & Howner & Huntil).
  rewrite Htrim in Howner.
  assert (Honly : forall l, In l locks1 -> lockKey l = key -> l = lock).
  { intros l Hl Hk.
    assert (Hf1 := key_found key locks1 lock Hnd1 Hin Hkey).
    assert (Hf2 := key_found key locks1 l Hnd1 Hl Hk). congruence. }
  split.
  - unfold releaseCronLock.
    destruct (updateFirst _ _ locks1) as [released|] eqn:Hrel.
    + apply updateFirst_Some in Hrel as (before & l & after & Hl & -> & Hm & _).
      assert (Hnd2 : NoDup (map lockKey
                              (before
                               ++ mkLock (lockKey l) (ownerId l) (Some until) (lockedAt l)
                                    (Some releasedAt) :: after))).
      { rewrite Hl in Hnd1. rewrite map_app in *. exact Hnd1. }
      destruct (acquire_outcome _ ttlMs2 later owner2 Hnd2) as (r2 & l2 & Hcall2 & Hout2).
      exists r2, l2. split; [exact Hcall2|].
      destruct (acquired r2) eqn:Hflag2; [reflexivity|]. exfalso.
      destruct Hout2 as (_ & _ & Hno).
      destruct (Hno Hflag2) as (_ & held & heldUntil & Hheld & Hk & Hu & Hnow & _).
      apply andb_true_iff in Hm as [Hkl _]. apply eqb_eq in Hkl.
      assert (Hf1 := key_found key _ held Hnd2 Hheld Hk).
      assert (Hf2 : find (fun x => JS.eqb (lockKey x) key)
                      (before
                       ++ mkLock (lockKey l) (ownerId l) (Some until) (lockedAt l)
                            (Some releasedAt) :: after)
                    = Some (mkLock (lockKey l) (ownerId l) (Some until) (lockedAt l)
                              (Some releasedAt)))
        by (apply key_found; auto; apply in_elt).
      rewrite Hf1 in Hf2. apply Some_eq in Hf2. subst held.
      cbn [lockUntil] in Hu. apply Some_eq in Hu. lia.
    + exfalso. apply updateFirst_None in Hrel. rewrite Forall_forall in Hrel.
      specialize (Hrel lock Hin). cbv beta in Hrel.
      rewrite Hkey, Howner, !eqb_refl in Hrel. discriminate Hrel.
  - apply release_by_another. apply Forall_forall. intros l Hl Hk.
    rewrite (Honly l Hl Hk), Howner. congruence.
Qed.


(** X25.  Releasing gives the lock back, to the owner only.  When the
    holder, whose identifier is as stored, releases the key at a time
    [until], a call at or after [until] acquires the lock; a release
    under any other identifier changes nothing, so the lock stays
    held. *)
Theorem a_released_lock_can_be_acquired (locks locks1 : list CronRunLock) (ttlMs now : Z)
  (owner : jsstring) (result : AcquireCronLockResult)
  (until releasedAt later ttlMs2 : Z) (owner2 other : jsstring) :
  NoDup (map lockKey locks) ->
  trim owner = owner ->
  acquireCronLock locks key ttlMs now owner = Some (result, locks1) ->
  acquired result = true ->
  (until <= later)%Z ->
  other <> owner ->
  (exists result2 locks2,
     acquireCronLock (releaseCronLock locks1 key owner until releasedAt) key ttlMs2 later
       owner2
     = Some (result2, locks2)
     /\ acquired result2 = true)
  /\ releaseCronLock locks1 key other until releasedAt = locks1.
Proof. exact (release_frees_the_lock locks locks1 ttlMs now owner result until releasedAt later ttlMs2 owner2 other). Qed.

End CronLockProperties.

Section CronLockExamples.

Import CronLock.

Definition crawl_key : jsstring := str "cron:crawl".


Lemma a_held_lock_is_exclusive_witness :
  exists locks1,
    acquireCronLock [] crawl_key 480000 1000 (str "owner-1")
    = Some (mkAcquired true (str "owner-1") 481000 0, locks1)
    /\ acquireCronLock locks1 crawl_key 480000 2500 (str "owner-2")
       = Some (mkAcquired false (str "owner-1") 481000 479, locks1).
Proof.
  eexists. split; [vm_compute; reflexivity|].
  exact (proj1 (a_held_lock_is_exclusive crawl_key eq_refl [] _ 480000 1000 (str "owner-1")
                  _ 2500 480000 (str "owner-2") (NoDup_nil _)
                  ltac:(vm_compute; reflexivity) eq_refl ltac:(lia))).
Defined.

Lemma a_released_lock_can_be_acquired_witness :
  exists locks1 result2 locks2,
    acquireCronLock [] crawl_key 480000 1000 (str "owner-1")
    = Some (mkAcquired true (str "owner-1") 481000 0, locks1)
    /\ acquireCronLock (releaseCronLock locks1 crawl_key (str "owner-1") 3000 3000)
         crawl_key 480000 3000 (str "owner-2")
       = Some (result2, locks2)
    /\ acquired result2 = true.
Proof.
  eexists.
  destruct (a_released_lock_can_be_acquired crawl_key eq_refl [] _ 480000 1000
              (str "owner-1") _ 3000 3000 3000 480000 (str "owner-2") (str "owner-3")
              (NoDup_nil _) ltac:(vm_compute; reflexivity)
              ltac:(vm_compute; reflexivity) eq_refl ltac:(lia)
              ltac:(vm_compute; discriminate))
    as ((result2 & locks2 & Hcall & Hflag) & _).
  exists result2, locks2. split; [vm_compute; reflexivity|]. split; assumption.
Defined.

End CronLockExamples.

(** ** The cron route *)

Section CronRouteProperties.

Import CronAuth CronLock Constants Runner Batch CronCrawl.

Variable createContentHash : jsstring -> jsstring.
Variable config : Entitlements.Config.
Variable settings : Settings.
Variable CRON_SECRET : option jsstring.

Lemma parseLimit_positive (raw : option jsstring) :
  (0 < CRAWL_BATCH_LIMIT settings)%Z -> (0 < parseLimit settings raw)%Z.
Proof.
  intros Hpos. unfold parseLimit. cbv zeta.
  replace (CRAWL_BATCH_LIMIT settings =? 0)%Z with false by lia.
  destruct raw as [text|]; [|exact Hpos].
  destruct (negb (truthy text)); [exact Hpos|].
  destruct (parseInt10 text) as [parsed|]; [|exact Hpos].
  destruct (overflows parsed); cbn [orb]; [exact Hpos|].
  destruct (Z.leb_spec parsed 0); [exact Hpos|].
  unfold MAX_CRAWL_BATCH_LIMIT. lia.
Qed.

(** X26.  A request cannot make a batch larger than
    [MAX_CRAWL_BATCH_LIMIT].  With a positive [CRAWL_BATCH_LIMIT], as
    the constants module makes it, the limit a batch of the cron route
    runs with lies between 1 and 20 whatever the [limit] parameter
    reads: absent, empty, not a number, zero, negative, or beyond any
    bound. *)
Theorem route_limit_is_between_1_and_20 (raw : option jsstring) :
  (0 < CRAWL_BATCH_LIMIT settings)%Z ->
  (1 <= clampBatchLimit settings (Some (parseLimit settings raw)) <= 20)%Z.
Proof.
  intros Hpos. pose proof (parseLimit_positive raw Hpos) as Hlimit.
  unfold clampBatchLimit.
  replace (parseLimit settings raw <=? 0)%Z with false by lia.
  unfold MAX_CRAWL_BATCH_LIMIT. lia.
Qed.


End CronRouteProperties.

Section CronRouteExamples.

Import CronAuth CronLock Constants Runner Batch CronCrawl.

Lemma route_limit_is_between_1_and_20_witness :
  clampBatchLimit defaults (Some (parseLimit defaults (Some (str "500")))) = 20%Z.
Proof.
  pose proof (route_limit_is_between_1_and_20 defaults (Some (str "500"))
                ltac:(reflexivity)) as [_ Hupper].
  assert (Hlower : (20 <= clampBatchLimit defaults
                            (Some (parseLimit defaults (Some (str "500")))))%Z)
    by (vm_compute; discriminate).
  lia.
Defined.




End CronRouteExamples.

(** ** The two triggers and the claim filter *)

Section Triggers.

Import CrawlNow Batch.

Variable env : CrawlNow.Env.
Variable db : list Company.
Variable user : ObjectId.
Variable company : Company.

(** The request reaches the step on the loaded document. *)
Hypothesis signed_in : sessionUserId env = Some user.
Hypothesis id_valid : companyIdValid env = true.
Hypothesis no_fault : storeFault env = false.
Hypothesis within_rate : rateLimitAllowed env = true.
Hypothesis found : findOne db (companyId env) user = Some company.
Hypothesis is_competitor : companyType company = competitor.

(** X28.  retry-crawl refuses while a crawl holds the company, and
    otherwise hands it to the next batch.  With an active lease
    ([crawlLeaseUntil] after [now]) the answer is 409 with
    [leaseState: "active"] and nothing is saved.  Otherwise the answer
    is 200 and the saved document has status [idle], no error, no
    lease and [nextCrawlAt = now], so that it passes the runner's
    claim filter at [now] and at every later time. *)
Theorem retry_crawl_refuses_or_hands_over :
  let '(response, db') := RetryCrawl.POST env db in
  match crawlLeaseUntil company with
  | Some leaseUntil =>
      if (now env <? leaseUntil)%Z then
        status response = 409%Z /\ db' = db
        /\ body_field "leaseState" response = Some (JString (str "active"))
      else True
  | None => True
  end
  /\ ((forall leaseUntil, crawlLeaseUntil company = Some leaseUntil ->
                          (leaseUntil <= now env)%Z) ->
      exists saved,
        db' = save db saved
        /\ status response = 200%Z
        /\ Models._id saved = Models._id company
        /\ lastCrawlStatus saved = idle
        /\ lastCrawlError saved = None
        /\ crawlLeaseUntil saved = None
        /\ nextCrawlAt saved = Some (now env)
        /\ forall t, (now env <= t)%Z -> leaseFilter t saved = true).
Proof.
  unfold RetryCrawl.POST.
  rewrite signed_in, id_valid, no_fault, within_rate, found, is_competitor.
  cbn [negb CompanyType_eqb]. unfold RetryCrawl.retry. cbv zeta.
  destruct (crawlLeaseUntil company) as [leaseUntil|] eqn:Hlease.
  - destruct (Z.ltb_spec (now env) leaseUntil) as [Hactive | Hstale].
    + split; [repeat split|]. intros Hall. specialize (Hall leaseUntil eq_refl). lia.
    + split; [exact I|]. intros _. eexists. split; [reflexivity|].
      cbn [status json_response Models._id lastCrawlStatus lastCrawlError crawlLeaseUntil
           nextCrawlAt].
      repeat split. intros t Ht. unfold leaseFilter.
      cbn [companyType nextCrawlAt crawlLeaseUntil]. rewrite is_competitor.
      cbn [CompanyType_eqb andb]. rewrite andb_true_r. now apply Z.leb_le.
  - split; [exact I|]. intros _. eexists. split; [reflexivity|].
    cbn [status json_response Models._id lastCrawlStatus lastCrawlError crawlLeaseUntil
         nextCrawlAt].
    repeat split. intros t Ht. unfold leaseFilter.
    cbn [companyType nextCrawlAt crawlLeaseUntil]. rewrite is_competitor.
    cbn [CompanyType_eqb andb]. rewrite andb_true_r. now apply Z.leb_le.
Qed.

(** X29.  crawl-now makes the company due at once, and a running crawl
    is all that can delay it.  The document crawl-now saves passes
    the runner's claim filter at a time [t], from [now] on, exactly
    when no lease of the company reaches beyond [t]: at once when
    there was no lease or a stale one, and as soon as the active
    lease ends otherwise. *)
Theorem crawl_now_makes_the_company_due :
  let saved := fst (schedule company (now env)) in
  snd (CrawlNow.POST env db) = save db saved
  /\ forall t, (now env <= t)%Z ->
       leaseFilter t saved
       = match crawlLeaseUntil company with
         | Some leaseUntil => (leaseUntil <=? t)%Z
         | None => true
         end.
Proof.
  cbv zeta. split.
  - unfold CrawlNow.POST.
    rewrite signed_in, id_valid, no_fault, within_rate, found, is_competitor.
    cbn [negb CompanyType_eqb]. destruct (schedule company (now env)). reflexivity.
  - intros t Ht. unfold schedule, leaseFilter. cbv zeta.
    cbn [fst companyType nextCrawlAt crawlLeaseUntil]. rewrite is_competitor.
    cbn [CompanyType_eqb andb].
    replace (now env <=? t)%Z with true by lia. cbn [andb].
    destruct (crawlLeaseUntil company) as [leaseUntil|]; [|reflexivity].
    cbn [andb]. destruct (Z.ltb_spec (now env) leaseUntil); cbn [negb]; [reflexivity|].
    symmetry. apply Z.leb_le. lia.
Qed.

End Triggers.

Section TriggerExamples.

Import CrawlNow Batch.

(** The company of [leased_company], its lease run out at 500. *)
Definition stale_company : Company :=
  mkCompany 7%N 1%N competitor (str "acme.example") None
    (Some (str "https://acme.example/pricing")) []
    (Some 5000%Z) (Some 500%Z) None error (Some (str "HTTP 503")) None None.

Lemma retry_crawl_refuses_or_hands_over_witness :
  status (fst (RetryCrawl.POST crawl_now_env [leased_company])) = 409%Z
  /\ snd (RetryCrawl.POST crawl_now_env [leased_company]) = [leased_company].
Proof.
  pose proof (retry_crawl_refuses_or_hands_over crawl_now_env [leased_company] 1%N
                leased_company eq_refl eq_refl eq_refl eq_refl eq_refl eq_refl) as H.
  destruct (RetryCrawl.POST crawl_now_env [leased_company]) as [response db'].
  destruct H as ((Hstatus & Hdb & _) & _). split; assumption.
Defined.

Lemma crawl_now_makes_the_company_due_witness :
  leaseFilter 1000 (fst (schedule stale_company 1000)) = true.
Proof.
  exact (proj2 (crawl_now_makes_the_company_due crawl_now_env [stale_company] 1%N
                  stale_company eq_refl eq_refl eq_refl eq_refl eq_refl eq_refl)
           1000%Z ltac:(cbn; lia)).
Defined.

End TriggerExamples.

(** ** The canonicalizer on text *)

Section TextCanonicalization.

Import Normalize.

(** *** White space *)

(** The shape [collapseWhitespace] leaves: the only white space is the
    space, and no space follows a space. *)
Fixpoint tidy (afterSpace : bool) (value : jsstring) : bool :=
  match value with
  | [] => true
  | c :: rest =>
      if isWhiteSpace c then N.eqb c 32 && negb afterSpace && tidy true rest
      else tidy false rest
  end.

Lemma collapse_tidy (value : jsstring) :
  forall afterSpace, tidy afterSpace (collapseWhitespace afterSpace value) = true.
Proof.
  induction value as [|c rest IH]; intros afterSpace; cbn [collapseWhitespace];
    [reflexivity|].
  destruct (isWhiteSpace c) eqn:Hc.
  - destruct afterSpace; [apply IH|]. cbn [tidy].
    change (isWhiteSpace 32) with true. cbn [N.eqb Pos.eqb negb andb]. apply IH.
  - cbn [tidy]. rewrite Hc. apply IH.
Qed.

Lemma tidy_weaken (value : jsstring) (afterSpace : bool) :
  tidy afterSpace value = true -> tidy false value = true.
Proof.
  destruct value as [|c rest]; [reflexivity|]. cbn [tidy].
  destruct (isWhiteSpace c); [|auto]. destruct afterSpace; [|auto].
  rewrite andb_false_r. discriminate.
Qed.

Lemma tidy_fixed (value : jsstring) :
  forall afterSpace, tidy afterSpace value = true ->
                     collapseWhitespace afterSpace value = value.
Proof.
  induction value as [|c rest IH]; intros afterSpace; cbn [tidy collapseWhitespace];
    [reflexivity|].
  destruct (isWhiteSpace c).
  - intros H. apply andb_true_iff in H as [H Hrest]. apply andb_true_iff in H as [Hc Hb].
    apply N.eqb_eq in Hc. subst c. destruct afterSpace; [discriminate Hb|].
    now rewrite (IH true Hrest).
  - intros H. now rewrite (IH false H).
Qed.

Lemma tidy_prefix (value tail : jsstring) :
  forall afterSpace, tidy afterSpace (value ++ tail) = true -> tidy afterSpace value = true.
Proof.
  induction value as [|c rest IH]; intros afterSpace; cbn [app tidy]; [reflexivity|].
  destruct (isWhiteSpace c).
  - intros H. apply andb_true_iff in H as [H Hrest]. rewrite H. cbn [andb]. eauto.
  - eauto.
Qed.

Lemma tidy_trimStart (value : jsstring) :
  forall afterSpace, tidy afterSpace value = true -> tidy true (trimStart value) = true.
Proof.
  induction value as [|c rest IH]; intros afterSpace; cbn [tidy trimStart]; [reflexivity|].
  destruct (isWhiteSpace c) eqn:Hc.
  - intros H. apply andb_true_iff in H as [_ Hrest]. eauto.
  - intros H. cbn [tidy]. now rewrite Hc.
Qed.

Lemma trimEnd_snoc (value : jsstring) (c : N) :
  trimEnd (value ++ [c]) = if isWhiteSpace c then trimEnd value else value ++ [c].
Proof.
  unfold trimEnd. rewrite rev_app_distr. cbn [rev app trimStart].
  destruct (isWhiteSpace c); [reflexivity|].
  cbn [rev]. now rewrite rev_involutive.
Qed.

Lemma trimEnd_prefix (value : jsstring) : exists tail, value = trimEnd value ++ tail.
Proof.
  induction value as [|c rest IH] using rev_ind; [now exists []|].
  rewrite trimEnd_snoc. destruct (isWhiteSpace c).
  - destruct IH as (tail & Htail). exists (tail ++ [c]).
    rewrite app_assoc. now rewrite <- Htail.
  - exists []. now rewrite app_nil_r.
Qed.

Lemma tidy_trimEnd (value : jsstring) (afterSpace : bool) :
  tidy afterSpace value = true -> tidy afterSpace (trimEnd value) = true.
Proof.
  destruct (trimEnd_prefix value) as (tail & Htail). rewrite Htail at 1. apply tidy_prefix.
Qed.

Lemma trimStart_idempotent (value : jsstring) : trimStart (trimStart value) = trimStart value.
Proof.
  induction value as [|c rest IH]; [reflexivity|]. cbn [trimStart].
  destruct (isWhiteSpace c) eqn:Hc; [exact IH|]. cbn [trimStart]. now rewrite Hc.
Qed.

(** A string that does not begin with white space. *)
Definition startsClean (value : jsstring) : Prop :=
  match value with [] => True | c :: _ => isWhiteSpace c = false end.

Lemma trimStart_startsClean (value : jsstring) : startsClean (trimStart value).
Proof.
  induction value as [|c rest IH]; [exact I|]. cbn [trimStart].
  destruct (isWhiteSpace c) eqn:Hc; [exact IH | exact Hc].
Qed.

Lemma startsClean_fixed (value : jsstring) : startsClean value -> trimStart value = value.
Proof. destruct value as [|c rest]; [reflexivity|]. cbn. now intros ->. Qed.

Lemma trimEnd_startsClean (value : jsstring) : startsClean value -> startsClean (trimEnd value).
Proof.
  destruct (trimEnd_prefix value) as (tail & Htail).
  destruct (trimEnd value) as [|c rest]; [intros _; exact I|].
  rewrite Htail. cbn. auto.
Qed.

Lemma trim_idempotent (value : jsstring) : trim (trim value) = trim value.
Proof.
  unfold trim.
  rewrite (startsClean_fixed (trimEnd (trimStart value)))
    by apply trimEnd_startsClean, trimStart_startsClean.
  unfold trimEnd. now rewrite rev_involutive, trimStart_idempotent.
Qed.

Lemma normalizeWhitespace_idempotent (value : jsstring) :
  normalizeWhitespace (normalizeWhitespace value) = normalizeWhitespace value.
Proof.
  unfold normalizeWhitespace.
  rewrite (tidy_fixed (trim (collapseWhitespace false value)) false).
  - apply trim_idempotent.
  - apply (tidy_weaken _ true). unfold trim.
    apply tidy_trimEnd, (tidy_trimStart _ false), collapse_tidy.
Qed.

(** *** Lower case *)

Lemma lowerUnit_idempotent (c : N) : lowerUnit (lowerUnit c) = lowerUnit c.
Proof.
  unfold lowerUnit at 2 3.
  destruct ((65 <=? c) && (c <=? 90))%N eqn:H1.
  - unfold lowerUnit. revert H1. unit_cases.
  - destruct ((192 <=? c) && (c <=? 222) && negb (c =? 215))%N eqn:H2.
    + unfold lowerUnit. revert H1 H2. unit_cases.
    + unfold lowerUnit. now rewrite H1, H2.
Qed.

Lemma lowerUnit_space (c : N) : isWhiteSpace c = true -> lowerUnit c = c.
Proof.
  intros H. apply isWhiteSpace_cases in H. cbn [In] in H. unfold lowerUnit.
  unit_cases.
Qed.

Lemma lowerUnit_not_space (c : N) : isWhiteSpace c = false -> isWhiteSpace (lowerUnit c) = false.
Proof.
  intros H. destruct (isWhiteSpace (lowerUnit c)) eqn:Hl; [|reflexivity].
  apply isWhiteSpace_cases in Hl. cbn [In] in Hl. exfalso.
  assert (Hsame : lowerUnit c = c).
  { revert Hl. unfold lowerUnit. unit_cases. }
  rewrite Hsame in Hl.
  assert (Hc : isWhiteSpace c = true); [|congruence].
  unfold isWhiteSpace. apply orb_true_iff.
  destruct Hl as [Hl | Hl].
  - left. apply existsb_exists. exists c. split; [cbn [In]; exact Hl | apply N.eqb_refl].
  - right. apply andb_true_iff. split; apply N.leb_le; lia.
Qed.

Lemma isWhiteSpace_lowerUnit (c : N) : isWhiteSpace (lowerUnit c) = isWhiteSpace c.
Proof.
  destruct (isWhiteSpace c) eqn:H.
  - now rewrite (lowerUnit_space c H).
  - now apply lowerUnit_not_space.
Qed.

Lemma collapse_toLowerCase (value : jsstring) :
  forall afterSpace,
    collapseWhitespace afterSpace (toLowerCase value)
    = toLowerCase (collapseWhitespace afterSpace value).
Proof.
  unfold toLowerCase.
  induction value as [|c rest IH]; intros afterSpace; cbn [map collapseWhitespace];
    [reflexivity|].
  rewrite isWhiteSpace_lowerUnit. destruct (isWhiteSpace c).
  - destruct afterSpace; [apply IH|]. cbn [map]. now rewrite IH.
  - cbn [map]. now rewrite IH.
Qed.

Lemma trimStart_toLowerCase (value : jsstring) :
  trimStart (toLowerCase value) = toLowerCase (trimStart value).
Proof.
  unfold toLowerCase. induction value as [|c rest IH]; [reflexivity|].
  cbn [map trimStart]. rewrite isWhiteSpace_lowerUnit.
  destruct (isWhiteSpace c); [exact IH | reflexivity].
Qed.

Lemma trim_toLowerCase (value : jsstring) : trim (toLowerCase value) = toLowerCase (trim value).
Proof.
  unfold trim, trimEnd. rewrite trimStart_toLowerCase.
  unfold toLowerCase at 1. rewrite <- map_rev. fold (toLowerCase (rev (trimStart value))).
  rewrite trimStart_toLowerCase. unfold toLowerCase. now rewrite map_rev.
Qed.

(** The text [uniqueStrings] makes of an item. *)
Definition lowered (item : jsstring) : jsstring := toLowerCase (normalizeWhitespace item).

Lemma lowered_idempotent (item : jsstring) : lowered (lowered item) = lowered item.
Proof.
  unfold lowered, normalizeWhitespace.
  rewrite collapse_toLowerCase, trim_toLowerCase.
  fold (normalizeWhitespace item).
  fold (normalizeWhitespace (normalizeWhitespace item)).
  rewrite normalizeWhitespace_idempotent.
  unfold toLowerCase. rewrite map_map. apply map_ext. apply lowerUnit_idempotent.
Qed.

(** *** Sets and sorting *)

Lemma dedupe_In (seen items : list jsstring) (x : jsstring) :
  In x (dedupe JS.eqb seen items) -> In x items /\ ~ In x seen.
Proof.
  revert seen. induction items as [|y rest IH]; intros seen; cbn [dedupe]; [intros []|].
  destruct (existsb (JS.eqb y) seen) eqn:Hseen.
  - intros H. apply IH in H as [H1 H2]. split; [now right | exact H2].
  - intros [<- | H].
    + split; [now left|]. intros Hin. apply not_true_iff_false in Hseen. apply Hseen.
      apply existsb_exists. exists y. split; [exact Hin | apply eqb_refl].
    + apply IH in H as [H1 H2]. split; [now right|]. intros Hin. apply H2. now right.
Qed.

Lemma dedupe_NoDup (seen items : list jsstring) : NoDup (dedupe JS.eqb seen items).
Proof.
  revert seen. induction items as [|y rest IH]; intros seen; cbn [dedupe]; [constructor|].
  destruct (existsb (JS.eqb y) seen); [apply IH|].
  constructor; [|apply IH]. intros H. apply dedupe_In in H as [_ H]. apply H. now left.
Qed.

Lemma dedupe_fixed (items : list jsstring) :
  forall seen, NoDup items -> (forall x, In x items -> ~ In x seen) ->
               dedupe JS.eqb seen items = items.
Proof.
  induction items as [|y rest IH]; intros seen Hnd Hfresh; cbn [dedupe]; [reflexivity|].
  replace (existsb (JS.eqb y) seen) with false.
  - inversion Hnd as [|? ? Hy Hrest]. subst. f_equal. apply IH; [exact Hrest|].
    intros x Hx [<- | Hin]; [contradiction|]. apply (Hfresh x); [now right | exact Hin].
  - symmetry. apply not_true_iff_false. intros H.
    apply existsb_exists in H as (z & Hz & Heq). apply eqb_eq in Heq. subst z.
    apply (Hfresh y); [now left | exact Hz].
Qed.

Lemma insertSorted_In {A : Type} (cmp : A -> A -> comparison) (x z : A) (l : list A) :
  In z (Num.insertSorted cmp x l) <-> z = x \/ In z l.
Proof.
  induction l as [|y l IH]; cbn [Num.insertSorted In]; [intuition|].
  destruct (cmp x y); cbn [In]; rewrite ?IH; intuition.
Qed.

Lemma sort_In {A : Type} (cmp : A -> A -> comparison) (z : A) (l : list A) :
  In z (Num.sort cmp l) <-> In z l.
Proof.
  unfold Num.sort. induction l as [|x l IH]; cbn [fold_right In]; [tauto|].
  rewrite insertSorted_In, IH. intuition.
Qed.

Lemma insertSorted_NoDup {A : Type} (cmp : A -> A -> comparison) (x : A) (l : list A) :
  NoDup l -> ~ In x l -> NoDup (Num.insertSorted cmp x l).
Proof.
  induction l as [|y l IH]; cbn [Num.insertSorted]; intros Hnd Hx.
  - constructor; [exact Hx | constructor].
  - destruct (cmp x y); try (constructor; assumption).
    inversion Hnd as [|? ? Hy Hl]. subst. constructor.
    + rewrite insertSorted_In. intros [-> | H]; [apply Hx; now left | contradiction].
    + apply IH; [exact Hl|]. intros H. apply Hx. now right.
Qed.

Lemma sort_NoDup {A : Type} (cmp : A -> A -> comparison) (l : list A) :
  NoDup l -> NoDup (Num.sort cmp l).
Proof.
  unfold Num.sort. induction l as [|x l IH]; cbn [fold_right]; intros Hnd; [constructor|].
  inversion Hnd as [|? ? Hx Hl]. subst. apply insertSorted_NoDup; [now apply IH|].
  fold (Num.sort cmp l). now rewrite sort_In.
Qed.

(** Each element is not after its successor. *)
Fixpoint ordered {A : Type} (cmp : A -> A -> comparison) (l : list A) : Prop :=
  match l with
  | x :: (y :: _) as rest => cmp x y <> Gt /\ ordered cmp rest
  | _ => True
  end.

Lemma insertSorted_ordered {A : Type} (cmp : A -> A -> comparison) (x : A) (l : list A) :
  (forall a b, cmp a b = Gt -> cmp b a <> Gt) ->
  ordered cmp l -> ordered cmp (Num.insertSorted cmp x l).
Proof.
  intros Hanti. induction l as [|y l IH]; cbn [Num.insertSorted]; [intros _; exact I|].
  intros Hl. destruct (cmp x y) eqn:Hxy.
  - split; [congruence | exact Hl].
  - split; [congruence | exact Hl].
  - destruct l as [|z l].
    + cbn. split; [now apply Hanti | exact I].
    + destruct Hl as [Hyz Hl]. specialize (IH Hl). cbn [Num.insertSorted] in *.
      destruct (cmp x z); cbn [ordered] in *; repeat split; auto; tauto.
Qed.

Lemma sort_ordered {A : Type} (cmp : A -> A -> comparison) (l : list A) :
  (forall a b, cmp a b = Gt -> cmp b a <> Gt) -> ordered cmp (Num.sort cmp l).
Proof.
  intros Hanti. unfold Num.sort. induction l as [|x l IH]; [exact I|].
  cbn [fold_right]. now apply insertSorted_ordered.
Qed.

Lemma sort_fixed {A : Type} (cmp : A -> A -> comparison) (l : list A) :
  ordered cmp l -> Num.sort cmp l = l.
Proof.
  unfold Num.sort. induction l as [|x l IH]; [reflexivity|]. cbn [fold_right].
  intros H. destruct l as [|y l]; [reflexivity|]. destruct H as [Hxy Hl].
  rewrite (IH Hl). cbn [Num.insertSorted]. destruct (cmp x y); congruence.
Qed.

Lemma localeCompare_antisym (a : jsstring) :
  forall b, localeCompare a b = Gt -> localeCompare b a <> Gt.
Proof.
  induction a as [|x a IH]; intros [|y b]; cbn [localeCompare]; try discriminate.
  rewrite (N.compare_antisym x y).
  destruct (N.compare x y); cbn [CompOpp]; try discriminate. apply IH.
Qed.

Lemma filter_fixed {A : Type} (f : A -> bool) (l : list A) :
  (forall x, In x l -> f x = true) -> filter f l = l.
Proof.
  induction l as [|x l IH]; intros H; [reflexivity|]. cbn [filter].
  rewrite (H x (or_introl eq_refl)). f_equal. apply IH. intros y Hy. apply H. now right.
Qed.

Lemma uniqueStrings_idempotent (items : list jsstring) :
  uniqueStrings (uniqueStrings items) = uniqueStrings items.
Proof.
  set (once := uniqueStrings items).
  assert (Hin : forall x, In x once -> truthy x = true /\ exists item, x = lowered item).
  { intros x Hx. unfold once, uniqueStrings in Hx. rewrite sort_In in Hx.
    apply filter_In in Hx as [Hx Ht]. split; [exact Ht|].
    apply dedupe_In in Hx as [Hx _]. apply in_map_iff in Hx as (item & <- & _).
    now exists item. }
  assert (Hnd : NoDup once).
  { unfold once, uniqueStrings. apply sort_NoDup, NoDup_filter, dedupe_NoDup. }
  assert (Hord : ordered localeCompare once).
  { unfold once, uniqueStrings. apply sort_ordered. apply localeCompare_antisym. }
  assert (Hmap : map (fun item => toLowerCase (normalizeWhitespace item)) once = once).
  { rewrite <- (map_id once) at 2. apply map_ext_in.
    intros x Hx. destruct (Hin x Hx) as (_ & item & ->). apply lowered_idempotent. }
  unfold uniqueStrings at 1. rewrite Hmap.
  rewrite (dedupe_fixed once [] Hnd) by (intros x _ []).
  rewrite filter_fixed by (intros x Hx; apply (Hin x Hx)).
  now apply sort_fixed.
Qed.

(** X30.  On text the canonicalizer is idempotent.
    [normalizeWhitespace] is, and so is [uniqueStrings]; hence a second
    pass of [canonicalizePricingPayload] keeps the source URL, the
    plan names and the custom-pricing hints of the first, and keeps a
    title and a description unless the first pass left them empty (a
    second pass then makes them null): the price mentions apart, only
    blank text can change. *)
Theorem text_canonicalization_is_idempotent :
  (forall value, normalizeWhitespace (normalizeWhitespace value) = normalizeWhitespace value)
  /\ (forall items, uniqueStrings (uniqueStrings items) = uniqueStrings items)
  /\ forall payload,
       let once := canonicalizePricingPayload payload in
       let twice := canonicalizePricingPayload once in
       sourceUrl twice = sourceUrl once
       /\ planNames twice = planNames once
       /\ customPricingHints twice = customPricingHints once
       /\ (pageTitle once <> Some [] -> pageTitle twice = pageTitle once)
       /\ (pageDescription once <> Some [] -> pageDescription twice = pageDescription once).
Proof.
  split; [exact normalizeWhitespace_idempotent|].
  split; [exact uniqueStrings_idempotent|].
  intros payload. cbv zeta. unfold canonicalizePricingPayload.
  cbn [sourceUrl planNames customPricingHints pageTitle pageDescription].
  rewrite !uniqueStrings_idempotent.
  assert (Htext : forall text,
             normalizeOptionalText text <> Some [] ->
             normalizeOptionalText (normalizeOptionalText text) = normalizeOptionalText text).
  { intros [t|] Hne; [|reflexivity]. cbn [normalizeOptionalText] in *.
    destruct (truthy t); [|reflexivity]. cbn [normalizeOptionalText].
    destruct (normalizeWhitespace t) as [|c rest] eqn:Hn; [now contradiction Hne|].
    cbn [truthy]. rewrite <- Hn. now rewrite normalizeWhitespace_idempotent. }
  repeat split; apply Htext.
Qed.

Definition untidy_payload : NormalizedPricingPayload :=
  mkPayload (str "https://acme.example/pricing") (Some (str "  Acme   Pricing ")) None
    [str "Pro "; str " TEAM"; str "pro"] [] [str "Contact  Sales"].

Lemma text_canonicalization_is_idempotent_witness :
  let once := canonicalizePricingPayload untidy_payload in
  pageTitle once <> Some []
  /\ pageTitle (canonicalizePricingPayload once) = pageTitle once
  /\ planNames (canonicalizePricingPayload once) = [str "pro"; str "team"].
Proof.
  cbv zeta.
  destruct text_canonicalization_is_idempotent as (_ & _ & Hpayload).
  destruct (Hpayload untidy_payload) as (_ & Hnames & _ & Htitle & _).
  split; [vm_compute; discriminate|].
  split; [apply Htitle; vm_compute; discriminate|].
  rewrite Hnames. vm_compute. reflexivity.
Defined.

End TextCanonicalization.
